(** * The reliability layer of the web interaction toolkit

    A shallow embedding of the reliability primitives of
    [server_enhanced.py]: the per-domain [RateLimiter], the
    [CircuitBreaker], the TTL [CacheManager], [retry_with_backoff], the
    [AuthSessionManager] registry and the control flow of
    [scrape_webpage] that sequences them; and, beside them, the pooled
    [SessionManager], the CAPTCHA detection of [extract_form_fields],
    the verdict of [login_to_website] and the [APIDiscoveryManager].
    Library code (aiohttp, BeautifulSoup, [urlparse], [re], [json]) is a
    parameter wherever the embedded code calls it.

    Conventions.
    - A [datetime] is the integer number of microseconds it denotes
      (its resolution), counted from the Unix epoch; a [timedelta] is a
      signed number of microseconds.  [timedelta(seconds=n)] is
      [n * 1000000].
    - Every call of [datetime.now()] or [time.time()] is an explicit
      argument of the embedded method, so a statement can speak about any
      sequence of clock readings.
    - Python's [float] back-off parameters are idealised as rationals:
      the finite floats are the rationals of magnitude below [2 ** 1024],
      and arithmetic on them is exact.
    - An exception that is not an instance of [Exception]
      ([asyncio.CancelledError], [KeyboardInterrupt]) can reach
      [retry_with_backoff] from the operation it wraps and from
      [asyncio.sleep]; the embedding of [scrape_webpage] leaves such
      exceptions out: its error type holds instances of [Exception] only.
    - [RateLimiter.check_rate_limit] is the method on the readings and
      periods for which [now - timedelta(seconds=self.period)] is a
      [datetime]; [RateLimiter.check_rate_limit_or_raise] is the method
      with the [OverflowError] it raises otherwise.  The embedding of
      [scrape_webpage] waits with the former: the period of the
      module's limiter, [Config.RATE_LIMIT_PERIOD], is taken in that
      range.
    - [async with self._lock] makes every method body atomic; a method is
      a function from the state before to the state after. *)

From Stdlib Require Import QArith Qabs Qminmax Qpower Ascii String.
From stdpp Require Import gmap strings list fin_maps sorting.

Local Open Scope Z_scope.

(** ** Configuration ([class Config]) *)

Record Config := {
  ENABLE_CACHE : bool;
  CACHE_TTL_SECONDS : Z;
  MAX_RETRIES : Z;
  RATE_LIMIT_REQUESTS : Z;
  RATE_LIMIT_PERIOD : Z
}.

(** The values [Config] takes when no environment variable is set. *)
Definition default_config : Config :=
  {| ENABLE_CACHE := true;
     CACHE_TTL_SECONDS := 300;
     MAX_RETRIES := 3;
     RATE_LIMIT_REQUESTS := 60;
     RATE_LIMIT_PERIOD := 60 |}.

(** [timedelta(seconds=n)] in microseconds. *)
Definition timedelta_seconds (n : Z) : Z := n * 1000000.

(** [td.seconds] of a normalised [timedelta]: the seconds component,
    between 0 and 86399, days and microseconds left out. *)
Definition td_seconds (td : Z) : Z := (td `div` 1000000) `mod` 86400.

(** ** Retry logic with exponential back-off *)

Module Retry.

(** How a call of a coroutine ends: with a value, by falling off the end
    of the body (Python's implicit [None]), or with an exception. *)
Inductive outcome (A E : Type) : Type :=
  | Returned (v : A)
  | ReturnedNone
  | Raised (e : E).
Arguments Returned {A E} v.
Arguments ReturnedNone {A E}.
Arguments Raised {A E} e.

(** What [retry_with_backoff] does, in order: an invocation of [func]
    with its result, or an [asyncio.sleep] of [backoff + jitter]. *)
Inductive event (A E : Type) : Type :=
  | Invoke (attempt : nat) (result : E + A)
  | Sleep (backoff jitter : Q).
Arguments Invoke {A E} attempt result.
Arguments Sleep {A E} backoff jitter.

(** [x or d] for an optional integer: [None] and [0] are falsy. *)
Definition py_or (x : option Z) (d : Z) : Z :=
  match x with
  | None => d
  | Some n => if n =? 0 then d else n
  end.

(** [range(n)] *)
Definition range (n : Z) : list nat := seq 0 (Z.to_nat n).

(** [x ** n] for a float [x] and an integer [n >= 0]: [None] when the
    result leaves the range of the floats and Python raises
    [OverflowError]. *)
Definition float_pow (x : Q) (n : nat) : option Q :=
  let y := (x ^ Z.of_nat n)%Q in
  if Qle_bool (2 ^ 1024)%Q (Qabs y) then None else Some y.

Section retry.
Context {W A E : Type}.
Variable cfg : Config.
(** The wrapped zero-argument operation, acting on the outside world;
    [inl e] when it raises [e]. *)
Variable func : W -> (E + A) * W.
(** [isinstance(e, Exception)]: what [except Exception] catches. *)
Variable is_exception : E -> bool.
(** The [OverflowError] that a float power out of range raises. *)
Variable overflow_error : E.
(** [random.uniform a b], drawing from the outside world. *)
Variable uniform : Q -> Q -> W -> Q * W.
(** [await asyncio.sleep(d)]: it returns, or raises what was thrown into
    the sleeping task. *)
Variable sleep : Q -> W -> option E * W.
Variables backoff_factor max_backoff : Q.

(** The body of [for attempt in range(max_retries)]: the pending
    attempts, the effective [max_retries], the world. *)
Fixpoint retry_loop (attempts : list nat) (max_retries : Z) (s : W)
  : outcome A E * W * list (event A E) :=
  match attempts with
  | [] => (ReturnedNone, s, [])
  | attempt :: rest =>
    let '(r, s1) := func s in
    match r with
    | inr v => (Returned v, s1, [Invoke attempt r])
    | inl e =>
      (* [except Exception as e] *)
      if negb (is_exception e) then (Raised e, s1, [Invoke attempt r])
      else if Z.of_nat attempt =? max_retries - 1
      then (Raised e, s1, [Invoke attempt r])
      else
        (* calculate backoff with jitter *)
        match float_pow backoff_factor attempt with
        | None => (Raised overflow_error, s1, [Invoke attempt r])
        | Some power =>
          let backoff := Qmin power max_backoff in
          let '(jitter, s2) := uniform 0%Q (backoff * (1 # 10))%Q s1 in
          let '(thrown, s3) := sleep (backoff + jitter)%Q s2 in
          match thrown with
          | Some e' => (Raised e', s3, [Invoke attempt r; Sleep backoff jitter])
          | None =>
            let '(o, s4, evs) := retry_loop rest max_retries s3 in
            (o, s4, Invoke attempt r :: Sleep backoff jitter :: evs)
          end
        end
    end
  end.

Definition retry_with_backoff (max_retries : option Z) (s : W)
  : outcome A E * W * list (event A E) :=
  let max_retries := py_or max_retries (MAX_RETRIES cfg) in
  retry_loop (range max_retries) max_retries s.
End retry.

(** Observations on the trace. *)
Definition invocations {A E} (evs : list (event A E)) : list (E + A) :=
  omap (λ ev, match ev with Invoke _ r => Some r | Sleep _ _ => None end) evs.



(** The operation fails whenever it is invoked. *)
Definition always_fails {W A E : Type} (func : W -> (E + A) * W) : Prop :=
  ∀ s, ∃ e, (func s).1 = inl e.




(** A sleep that nothing interrupts. *)
Definition quiet_sleep {W E : Type} (d : Q) (s : W) : option E * W := (None, s).


End Retry.

(** ** Rate limiting *)

Module RateLimiter.

(** [self.requests] maps a domain to the timestamps ([datetime.now()]) of
    its admitted requests, oldest first; [_last_cleanup] is a
    [time.time()] reading, kept in microseconds. *)
Record state := {
  max_requests : Z;
  period : Z;
  requests : gmap string (list Z);
  _last_cleanup : Z
}.

(** [RateLimiter(max_requests, period)], constructed when [time.time()]
    reads [current_time]. *)
Definition init (max_requests period current_time : Z) : state :=
  {| max_requests := max_requests; period := period;
     requests := ∅; _last_cleanup := current_time |}.

(** [[t for t in l if t > cutoff]] *)
Definition recent (cutoff : Z) (l : list Z) : list Z :=
  filter (λ req_time, cutoff < req_time) l.

(** The periodic sweep: every domain's list is pruned, and a domain left
    with no recent request is deleted. *)
Definition sweep (cutoff : Z) (reqs : gmap string (list Z)) : gmap string (list Z) :=
  omap (λ l, match recent cutoff l with [] => None | l' => Some l' end) reqs.

(** [check_rate_limit] on the readings and periods for which
    [now - timedelta(seconds=self.period)] is a [datetime];
    [check_rate_limit_or_raise] below is the method with the
    [OverflowError] that the subtraction raises otherwise. *)
Definition check_rate_limit (domain : string) (now current_time : Z) (self : state)
  : bool * state :=
  let cutoff := now - timedelta_seconds (period self) in
  (* periodic cleanup, every 5 minutes *)
  let '(reqs, last) :=
    if 300 * 1000000 <? current_time - _last_cleanup self
    then (sweep cutoff (requests self), current_time)
    else (requests self, _last_cleanup self) in
  (* if domain not in self.requests: self.requests[domain] = [] *)
  let reqs :=
    match reqs !! domain with
    | None => <[domain := []]> reqs
    | Some _ => reqs
    end in
  (* remove old requests outside the period *)
  let l := recent cutoff (default [] (reqs !! domain)) in
  let reqs := <[domain := l]> reqs in
  if max_requests self <=? Z.of_nat (length l)
  then (false,
        {| max_requests := max_requests self; period := period self;
           requests := reqs; _last_cleanup := last |})
  else (true,
        {| max_requests := max_requests self; period := period self;
           requests := <[domain := l ++ [now]]> reqs; _last_cleanup := last |}).

(** [wait_if_needed]: poll [check_rate_limit], sleeping one second after
    each denial.  [clock i] is the pair of readings ([datetime.now()],
    [time.time()]) of the [i]-th poll from now; the loop has no bound of
    its own, so the embedding takes the number of polls it may make and
    answers [None] when they are used up.  The result carries the number
    of one-second sleeps. *)
Fixpoint wait_if_needed (fuel : nat) (domain : string) (clock : nat -> Z * Z)
  (self : state) : option (nat * state) :=
  match fuel with
  | O => None
  | S fuel' =>
    let '(ok, self') := check_rate_limit domain (clock O).1 (clock O).2 self in
    if ok then Some (O, self')
    else
      match wait_if_needed fuel' domain (λ i, clock (S i)) self' with
      | Some (n, self'') => Some (S n, self'')
      | None => None
      end
  end.

(** The timestamps recorded for a domain ([[]] when it has no entry). *)
Definition recorded (self : state) (domain : string) : list Z :=
  default [] (requests self !! domain).

(** The dictionary the admission test works on: swept when the sweep is
    due. *)
Definition pruned (now current_time : Z) (self : state) : gmap string (list Z) :=
  if 300 * 1000000 <? current_time - _last_cleanup self
  then sweep (now - timedelta_seconds (period self)) (requests self)
  else requests self.

(** The requests of the domain still inside the window at [now]. *)
Definition in_window (now : Z) (self : state) (domain : string) : list Z :=
  recent (now - timedelta_seconds (period self)) (recorded self domain).

(** [t0] is the oldest timestamp of [l]. *)
Definition oldest (l : list Z) (t0 : Z) : Prop :=
  t0 ∈ l ∧ ∀ t, t ∈ l → t0 ≤ t.

(** States of a limiter built by [RateLimiter(max_requests, period)] and
    used through [check_rate_limit] only. *)
Inductive reachable (mr p : Z) : state -> Prop :=
  | reach_init ct : reachable mr p (init mr p ct)
  | reach_check s domain now ct :
      reachable mr p s ->
      reachable mr p (check_rate_limit domain now ct s).2.

(** The range of [datetime]: [datetime.min] is 0001-01-01T00:00:00 and
    [datetime.max] is 9999-12-31T23:59:59.999999. *)
Definition datetime_min : Z := -62135596800 * 1000000.
Definition datetime_max : Z := 253402300800 * 1000000 - 1.

Definition is_datetime (t : Z) : bool :=
  (datetime_min <=? t) && (t <=? datetime_max).

(** [timedelta(seconds=n)] exists when its days are at most 999999999
    in magnitude. *)
Definition is_timedelta (n : Z) : bool :=
  (-999999999 <=? n `div` 86400) && (n `div` 86400 <=? 999999999).

(** [now - timedelta(seconds=period)] is a [datetime]. *)
Definition cutoff_defined (now period : Z) : bool :=
  is_timedelta period && is_datetime (now - timedelta_seconds period).

Inductive exn : Type := OverflowError.

(** [check_rate_limit] as the interpreter runs it.  The cut-off is
    computed first by the sweep, when it is due, and then after the
    domain got its entry: when it is not a [datetime] the call raises
    [OverflowError], before anything was changed in the first case and
    with the new domain's empty list in place in the second. *)
Definition check_rate_limit_or_raise (domain : string) (now current_time : Z)
  (self : state) : (exn + bool) * state :=
  if cutoff_defined now (period self)
  then
    let '(admitted, self') := check_rate_limit domain now current_time self in
    (inr admitted, self')
  else if 300 * 1000000 <? current_time - _last_cleanup self
  then (inl OverflowError, self)
  else
    (inl OverflowError,
     {| max_requests := max_requests self; period := period self;
        requests := match requests self !! domain with
                    | None => <[domain := []]> (requests self)
                    | Some _ => requests self
                    end;
        _last_cleanup := _last_cleanup self |}).

(** [wait_if_needed] as the interpreter runs it: the [OverflowError] of
    a poll ends the wait. *)
Fixpoint wait_if_needed_or_raise (fuel : nat) (domain : string) (clock : nat -> Z * Z)
  (self : state) : option ((exn + nat) * state) :=
  match fuel with
  | O => None
  | S fuel' =>
    let '(r, self') := check_rate_limit_or_raise domain (clock O).1 (clock O).2 self in
    match r with
    | inl e => Some (inl e, self')
    | inr true => Some (inr O, self')
    | inr false =>
      match wait_if_needed_or_raise fuel' domain (λ i, clock (S i)) self' with
      | Some (inr n, self'') => Some (inr (S n), self'')
      | other => other
      end
    end
  end.

End RateLimiter.

(** ** Circuit breaker *)

Module CircuitBreaker.

Record state := {
  failure_threshold : Z;
  recovery_timeout : Z;
  failures : gmap string nat;
  last_failure_time : gmap string Z
}.

(** [CircuitBreaker(failure_threshold, recovery_timeout)] *)
Definition init (failure_threshold recovery_timeout : Z) : state :=
  {| failure_threshold := failure_threshold;
     recovery_timeout := recovery_timeout;
     failures := ∅; last_failure_time := ∅ |}.

Definition is_open (endpoint : string) (now : Z) (self : state) : bool * state :=
  match failures self !! endpoint with
  | None => (false, self)
  | Some n =>
    let verdict := (failure_threshold self <=? Z.of_nat n, self) in
    match last_failure_time self !! endpoint with
    | Some t =>
      (* check if recovery period has passed *)
      let time_since_failure := td_seconds (now - t) in
      if recovery_timeout self <? time_since_failure
      then (false,
            {| failure_threshold := failure_threshold self;
               recovery_timeout := recovery_timeout self;
               failures := <[endpoint := O]> (failures self);
               last_failure_time := delete endpoint (last_failure_time self) |})
      else verdict
    | None => verdict
    end
  end.

Definition record_success (endpoint : string) (self : state) : state :=
  match failures self !! endpoint with
  | None => self
  | Some _ =>
    {| failure_threshold := failure_threshold self;
       recovery_timeout := recovery_timeout self;
       failures := <[endpoint := O]> (failures self);
       last_failure_time := delete endpoint (last_failure_time self) |}
  end.

Definition record_failure (endpoint : string) (now : Z) (self : state) : state :=
  {| failure_threshold := failure_threshold self;
     recovery_timeout := recovery_timeout self;
     failures := <[endpoint := S (default O (failures self !! endpoint))]> (failures self);
     last_failure_time := <[endpoint := now]> (last_failure_time self) |}.

(** The failure count of a key; a key never seen counts 0 failures. *)
Definition failure_count (self : state) (endpoint : string) : nat :=
  default O (failures self !! endpoint).

(** [record_failure] called once at each of the given clock readings. *)
Definition record_failures (endpoint : string) (times : list Z) (self : state) : state :=
  foldl (λ s now, record_failure endpoint now s) self times.

End CircuitBreaker.

(** ** Insertion-ordered dictionaries

    A Python [dict] keeps its keys in insertion order, and
    [CacheManager.set] sorts [self.cache.items()] with a stable sort, so
    the order of the entries is part of the cache's state: a dictionary
    is an association list with distinct keys. *)

Module PyDict.
Section dict.
Context {K V : Type} `{EqDecision K}.

(** [d[k]] when [k in d] *)
Fixpoint lookup (k : K) (d : list (K * V)) : option V :=
  match d with
  | [] => None
  | (k', v) :: d' => if decide (k = k') then Some v else lookup k d'
  end.

(** [d[k] = v]: an existing key keeps its position, a new key goes last. *)
Fixpoint assign (k : K) (v : V) (d : list (K * V)) : list (K * V) :=
  match d with
  | [] => [(k, v)]
  | (k', v') :: d' =>
    if decide (k = k') then (k, v) :: d' else (k', v') :: assign k v d'
  end.

(** [del d[k]] *)
Definition del (k : K) (d : list (K * V)) : list (K * V) :=
  filter (λ kv, kv.1 ≠ k) d.

(** [sorted(items, key=f)]: Python's sort is stable, so its result is
    the one list that is ordered by [f] and keeps items of equal rank in
    their original order; insertion from the right computes it. *)
Fixpoint insert_by (f : K * V -> Z) (x : K * V) (l : list (K * V)) : list (K * V) :=
  match l with
  | [] => [x]
  | y :: l' => if f x <=? f y then x :: y :: l' else y :: insert_by f x l'
  end.

Definition sorted (f : K * V -> Z) (l : list (K * V)) : list (K * V) :=
  foldr (insert_by f) [] l.

(** [items[-n:]] for [n > 0] *)
Definition last_n (n : nat) (l : list (K * V)) : list (K * V) :=
  drop (length l - n) l.
End dict.
End PyDict.

(** ** Caching layer *)

Module CacheManager.

(** [s.replace(old, new)] for single characters *)
Fixpoint replace (old new : ascii) (s : string) : string :=
  match s with
  | EmptyString => EmptyString
  | String c s' => String (if Ascii.eqb c old then new else c) (replace old new s')
  end.

(** [self.cache]: key to (value, insertion timestamp); [self.ttl] is a
    [timedelta]. *)
Record state (V : Type) := {
  cache : list (string * (V * Z));
  ttl : Z
}.
Arguments cache {V} _.
Arguments ttl {V} _.

(** [CacheManager(ttl_seconds)] *)
Definition init {V} (ttl_seconds : Z) : state V :=
  {| cache := []; ttl := timedelta_seconds ttl_seconds |}.

(** [x[1][1]]: the timestamp of an item of [self.cache.items()] *)
Definition stamp {V} (item : string * (V * Z)) : Z := item.2.2.

(** The entries that the first pass of the clean-up keeps. *)
Definition unexpired {V} (now ttl : Z) (c : list (string * (V * Z)))
  : list (string * (V * Z)) :=
  filter (λ kv, now - stamp kv < ttl) c.

Section cache.
Context {V Opts : Type}.
Variable cfg : Config.
(** [json.dumps(_, sort_keys=True)] on option dictionaries, and [{}]. *)
Variable json_dumps : Opts -> string.
Variable empty_dict : Opts.

Definition _get_cache_key (url : string) (options : option Opts) : string :=
  let key_data := url +:+ ":" +:+ json_dumps (default empty_dict options) in
  substring 0 100 (replace ":"%char "_"%char (replace "/"%char "_"%char key_data)).

(** [get], called when [datetime.now()] reads [now]. *)
Definition get (url : string) (options : option Opts) (now : Z) (self : state V)
  : option V * state V :=
  if negb (ENABLE_CACHE cfg) then (None, self)
  else
    let key := _get_cache_key url options in
    match PyDict.lookup key (cache self) with
    | Some (value, timestamp) =>
      if now - timestamp <? ttl self then (Some value, self)
      else (None, {| cache := PyDict.del key (cache self); ttl := ttl self |})
    | None => (None, self)
    end.

(** The clean-up of an over-full cache, at clock reading [now]. *)
Definition cleanup (now : Z) (ttl : Z) (c : list (string * (V * Z)))
  : list (string * (V * Z)) :=
  (* remove expired entries *)
  let c := filter (λ kv, now - stamp kv < ttl) c in
  (* if still too large, remove oldest entries *)
  if (800 <? length c)%nat
  then PyDict.last_n 800 (PyDict.sorted stamp c)
  else c.

(** [set]; [now] is the reading stored with the value, [now'] the later
    one taken by the clean-up. *)
Definition set (url : string) (value : V) (options : option Opts) (now now' : Z)
  (self : state V) : state V :=
  if negb (ENABLE_CACHE cfg) then self
  else
    let key := _get_cache_key url options in
    let c := PyDict.assign key (value, now) (cache self) in
    if (1000 <? length c)%nat
    then {| cache := cleanup now' (ttl self) c; ttl := ttl self |}
    else {| cache := c; ttl := ttl self |}.

Definition clear (self : state V) : state V :=
  {| cache := []; ttl := ttl self |}.
End cache.

End CacheManager.

(** ** Persistent sessions for authentication *)

Module AuthSessionManager.

(** An [aiohttp.ClientSession], as far as the registry looks at it. *)
Record ClientSession := {
  closed : bool;
  cookie_jar : gmap string string
}.

(** Client objects live in a store and are handled by reference, so that
    the registry and the callers who were handed a client share it. *)
Record state := {
  heap : gmap positive ClientSession;
  _sessions : gmap string positive;
  _cookies : gmap string (gmap string string)
}.

Definition init : state :=
  {| heap := ∅; _sessions := ∅; _cookies := ∅ |}.

(** [session.closed]; a reference always denotes an object, the default
    only makes the function total. *)
Definition is_closed (h : gmap positive ClientSession) (l : positive) : bool :=
  match h !! l with
  | Some c => closed c
  | None => true
  end.

(** [await session.close()] *)
Definition close (l : positive) (h : gmap positive ClientSession)
  : gmap positive ClientSession :=
  alter (λ c, {| closed := true; cookie_jar := cookie_jar c |}) l h.

(** The branch that builds [aiohttp.ClientSession(..., cookie_jar=aiohttp.CookieJar())],
    a new object, and restores the saved cookies into its jar. *)
Definition create_session (session_id : string) (self : state) : positive * state :=
  let l := fresh (dom (heap self)) in
  let jar := default ∅ (_cookies self !! session_id) in
  (l, {| heap := <[l := {| closed := false; cookie_jar := jar |}]> (heap self);
         _sessions := <[session_id := l]> (_sessions self);
         _cookies := _cookies self |}).

Definition get_or_create_session (session_id : string) (self : state)
  : positive * state :=
  match _sessions self !! session_id with
  | Some l =>
    if is_closed (heap self) l then create_session session_id self
    else (l, self)
  | None => create_session session_id self
  end.

Definition save_cookies (session_id : string) (self : state) : state :=
  match _sessions self !! session_id with
  | Some l =>
    let cookies := default ∅ (cookie_jar <$> heap self !! l) in
    {| heap := heap self; _sessions := _sessions self;
       _cookies := <[session_id := cookies]> (_cookies self) |}
  | None => self
  end.

Definition close_session (session_id : string) (self : state) : state :=
  match _sessions self !! session_id with
  | Some l =>
    {| heap := close l (heap self);
       _sessions := delete session_id (_sessions self);
       _cookies := _cookies self |}
  | None => self
  end.

Definition close_all (self : state) : state :=
  {| heap := map_fold (λ _ l h, close l h) (heap self) (_sessions self);
     _sessions := ∅; _cookies := ∅ |}.

(** A holder of a client closes it directly, or the server sets
    cookies in its jar. *)
Definition client_close (l : positive) (self : state) : state :=
  {| heap := close l (heap self); _sessions := _sessions self;
     _cookies := _cookies self |}.

Definition client_set_cookie (l : positive) (name value : string) (self : state) : state :=
  {| heap := alter (λ c, {| closed := closed c;
                            cookie_jar := <[name := value]> (cookie_jar c) |}) l (heap self);
     _sessions := _sessions self; _cookies := _cookies self |}.

(** A client is live when it exists and is not closed. *)
Definition live (self : state) (l : positive) : Prop :=
  is_closed (heap self) l = false.

(** What can happen to a manager: its methods, and the holders of its
    clients using or closing them. *)
Inductive step : state -> state -> Prop :=
  | step_get id s : step s (get_or_create_session id s).2
  | step_save id s : step s (save_cookies id s)
  | step_close id s : step s (close_session id s)
  | step_close_all s : step s (close_all s)
  | step_client_close l s : step s (client_close l s)
  | step_client_cookie l n v s : step s (client_set_cookie l n v s).

Definition reachable : state -> Prop := rtc step init.

(** The steps that close neither the client [l] nor the session it is
    registered under. *)
Inductive step_keeping (l : positive) : state -> state -> Prop :=
  | keep_get id s : step_keeping l s (get_or_create_session id s).2
  | keep_save id s : step_keeping l s (save_cookies id s)
  | keep_close id s :
      _sessions s !! id ≠ Some l -> step_keeping l s (close_session id s)
  | keep_client_close l' s : l' ≠ l -> step_keeping l s (client_close l' s)
  | keep_client_cookie l' n v s : step_keeping l s (client_set_cookie l' n v s).

(** Every registered reference denotes an object; no live client is
    outside the registry; no client is registered under two ids.  So the
    live clients are the open entries of the registry, one per id at
    most. *)
Definition registry_inv (s : state) : Prop :=
  (∀ id l, _sessions s !! id = Some l → is_Some (heap s !! l))
  ∧ (∀ l, live s l → ∃ id, _sessions s !! id = Some l)
  ∧ (∀ id1 id2 l,
       _sessions s !! id1 = Some l → _sessions s !! id2 = Some l → id1 = id2).

End AuthSessionManager.

(** ** The fetch tool: [scrape_webpage] *)

Module Scrape.

(** [class ScrapeOptions] *)
Record ScrapeOptions := {
  simulate_human : bool;
  max_content_length : Z;
  max_links : Z;
  max_images : Z;
  min_delay : Q;
  max_delay : Q;
  use_cache : bool;
  follow_redirects : bool;
  sanitize_content : bool
}.

(** [ScrapeOptions()] *)
Definition default_options : ScrapeOptions :=
  {| simulate_human := true; max_content_length := 5000; max_links := 50;
     max_images := 20; min_delay := 1 # 2; max_delay := 2; use_cache := true;
     follow_redirects := true; sanitize_content := true |}.

(** The exceptions that cross [scrape_webpage], all of them instances
    of [Exception].  [OpError] stands for what the HTTP call and the
    parsing of its response raise, and for the [OverflowError] of the
    back-off: instances of [Exception] other than
    [CircuitBreakerError]. *)
Inductive exn (Err : Type) : Type :=
  | ValueError (msg : string)
  | CircuitBreakerError (msg : string)
  | TypeError
  | OpError (e : Err).
Arguments ValueError {Err} msg.
Arguments CircuitBreakerError {Err} msg.
Arguments TypeError {Err}.
Arguments OpError {Err} e.

(** The dictionary [scrape_webpage] returns: the page ([success: True];
    a non-empty dictionary, hence truthy when it comes back from the
    cache), or [error_result], built from the caught exception. *)
Inductive result (Page Err : Type) : Type :=
  | Success (page : Page)
  | ErrorResult (url : string) (error : exn Err) (timestamp : Z).
Arguments Success {Page Err} page.
Arguments ErrorResult {Page Err} url error timestamp.

(** The module-level singletons, the outside world (network and random
    generator), and the number of clock readings taken so far. *)
Record world (Page Net : Type) := {
  cache_manager : CacheManager.state Page;
  circuit_breaker : CircuitBreaker.state;
  rate_limiter : RateLimiter.state;
  outside : Net;
  ticks : nat
}.
Arguments cache_manager {Page Net} _.
Arguments circuit_breaker {Page Net} _.
Arguments rate_limiter {Page Net} _.
Arguments outside {Page Net} _.
Arguments ticks {Page Net} _.

Section scrape.
Context {Page Resp Headers Net Err Dict : Type}.
Variable cfg : Config.
(** The [i]-th clock reading of the run. *)
Variable clock : nat -> Z.
(** Library code: [urlparse]-based validation and [netloc];
    [options.dict()], its JSON rendering and the dictionary [{}];
    [random.uniform]; the request headers; the pooled [session.get] with
    [raise_for_status]; and the parsing of the response into the result
    dictionary, which may raise. *)
Variable validate_url : string -> bool.
Variable netloc : string -> string.
Variable to_dict : ScrapeOptions -> Dict.
Variable json_dumps : Dict -> string.
Variable empty_dict : Dict.
Variable uniform : Q -> Q -> Net -> Q * Net.
Variable prepare_headers : ScrapeOptions -> Net -> Headers * Net.
(** The [OverflowError] of a float power out of range. *)
Variable overflow_error : Err.
Variable http_get : string -> Headers -> ScrapeOptions -> Net -> (Err + Resp) * Net.
Variable build_result : string -> ScrapeOptions -> Resp -> Z -> Err + Page.

#[local] Abbreviation World := (world Page Net).

Definition with_cache (c : CacheManager.state Page) (w : World) : World :=
  {| cache_manager := c; circuit_breaker := circuit_breaker w;
     rate_limiter := rate_limiter w; outside := outside w; ticks := ticks w |}.
Definition with_breaker (b : CircuitBreaker.state) (w : World) : World :=
  {| cache_manager := cache_manager w; circuit_breaker := b;
     rate_limiter := rate_limiter w; outside := outside w; ticks := ticks w |}.
Definition with_limiter (r : RateLimiter.state) (w : World) : World :=
  {| cache_manager := cache_manager w; circuit_breaker := circuit_breaker w;
     rate_limiter := r; outside := outside w; ticks := ticks w |}.
Definition with_outside (n : Net) (w : World) : World :=
  {| cache_manager := cache_manager w; circuit_breaker := circuit_breaker w;
     rate_limiter := rate_limiter w; outside := n; ticks := ticks w |}.

(** The singletons as the module creates them at import time, when
    [time.time()] reads [current_time]. *)
Definition initial_world (current_time : Z) (n : Net) : World :=
  {| cache_manager := CacheManager.init (CACHE_TTL_SECONDS cfg);
     circuit_breaker := CircuitBreaker.init 5 60;
     rate_limiter := RateLimiter.init (RATE_LIMIT_REQUESTS cfg) (RATE_LIMIT_PERIOD cfg)
                       current_time;
     outside := n; ticks := 0 |}.

(** Take [n] clock readings. *)
Definition advance (n : nat) (w : World) : World :=
  {| cache_manager := cache_manager w; circuit_breaker := circuit_breaker w;
     rate_limiter := rate_limiter w; outside := outside w;
     ticks := (ticks w + n)%nat |}.

(** The closure [make_request]. *)
Definition make_request (url : string) (headers : Headers) (options : ScrapeOptions)
  (w : World) : (exn Err + Resp) * World :=
  let '(r, n) := http_get url headers options (outside w) in
  (match r with inl e => inl (OpError e) | inr resp => inr resp end,
   with_outside n w).

(** [random.uniform] as the retry loop sees it. *)
Definition draw (a b : Q) (w : World) : Q * World :=
  let '(x, n) := uniform a b (outside w) in (x, with_outside n w).

(** The two [except] clauses of [scrape_webpage]. *)
Definition handler (url domain : string) (e : exn Err) (w : World)
  : Retry.outcome (result Page Err) (exn Err) * World :=
  match e with
  | CircuitBreakerError _ => (Retry.Raised e, w)
  | _ =>
    (* record failure for circuit breaker *)
    let w := advance 1 (with_breaker
      (CircuitBreaker.record_failure domain (clock (ticks w)) (circuit_breaker w)) w) in
    (Retry.Returned (ErrorResult url e (clock (ticks w))), advance 1 w)
  end.

(** What follows the rate limiter inside the [try] block. *)
Definition fetch (url domain : string) (options : ScrapeOptions) (w : World)
  : Retry.outcome (result Page Err) (exn Err) * World * list (Retry.event Resp (exn Err)) :=
  (* simulate human delay if requested *)
  let w := if simulate_human options
           then (draw (min_delay options) (max_delay options) w).2 else w in
  let '(headers, n) := prepare_headers options (outside w) in
  let w := with_outside n w in
  (* execute request with retry logic; every [exn] is an instance of
     [Exception], and nothing is thrown into the task while it sleeps *)
  let '(o, w, evs) :=
    Retry.retry_with_backoff cfg (make_request url headers options)
      (λ _, true) (OpError overflow_error) draw Retry.quiet_sleep
      2%Q 60%Q None w in
  match o with
  | Retry.Raised e => let '(o', w) := handler url domain e w in (o', w, evs)
  | Retry.ReturnedNone =>
    (* unpacking [None] into three names *)
    let '(o', w) := handler url domain TypeError w in (o', w, evs)
  | Retry.Returned resp =>
    (* record success for circuit breaker *)
    let w := with_breaker (CircuitBreaker.record_success domain (circuit_breaker w)) w in
    match build_result url options resp (clock (ticks w)) with
    | inl e => let '(o', w) := handler url domain (OpError e) (advance 1 w) in (o', w, evs)
    | inr page =>
      let w := advance 1 w in
      (* cache the result *)
      let w :=
        if use_cache options
        then advance 2 (with_cache
               (CacheManager.set cfg json_dumps empty_dict url page (Some (to_dict options))
                  (clock (ticks w)) (clock (S (ticks w))) (cache_manager w)) w)
        else w in
      (Retry.Returned (Success page), w, evs)
    end
  end.

(** The cache look-up that opens the [try] block. *)
Definition check_cache (url : string) (options : ScrapeOptions) (w : World)
  : option Page * World :=
  if use_cache options
  then
    let '(r, c) := CacheManager.get cfg json_dumps empty_dict url
                     (Some (to_dict options)) (clock (ticks w)) (cache_manager w) in
    (r, advance 1 (with_cache c w))
  else (None, w).

(** The readings [wait_if_needed] gets when it starts at world [w]. *)
Definition poll_clock (w : World) (i : nat) : Z * Z :=
  (clock (ticks w + 2 * i)%nat, clock (ticks w + 2 * i + 1)%nat).

(** [scrape_webpage(url, options)].  [fuel] bounds the polls of
    [wait_if_needed]; the answer is [None] when they are used up. *)
Definition scrape_webpage (fuel : nat) (url : string) (options : option ScrapeOptions)
  (w : World)
  : option (Retry.outcome (result Page Err) (exn Err) * World
            * list (Retry.event Resp (exn Err))) :=
  let options := default default_options options in
  (* input validation, before the [try] *)
  if negb (validate_url url) then Some (Retry.Raised (ValueError url), w, [])
  else
    let domain := netloc url in
    (* check cache first *)
    let '(cached, w) := check_cache url options w in
    match cached with
    | Some page => Some (Retry.Returned (Success page), w, [])
    | None =>
      (* check circuit breaker *)
      let '(open, b) := CircuitBreaker.is_open domain (clock (ticks w)) (circuit_breaker w) in
      let w := advance 1 (with_breaker b w) in
      if open
      then
        let '(o, w) := handler url domain (CircuitBreakerError domain) w in
        Some (o, w, [])
      else
        (* apply rate limiting *)
        match RateLimiter.wait_if_needed fuel domain (poll_clock w)
                (rate_limiter w) with
        | None => None
        | Some (polls, r) =>
          Some (fetch url domain options (advance (2 * S polls) (with_limiter r w)))
        end
    end.
End scrape.

End Scrape.

(** ** Runs of the rate limiter *)

Module LimiterRun.
Import RateLimiter.

(** A call [check_rate_limit(domain)] with the two clock readings it
    takes. *)
Definition request : Type := string * (Z * Z).
Definition req_domain (r : request) : string := r.1.
Definition req_now (r : request) : Z := r.2.1.
Definition req_time (r : request) : Z := r.2.2.

(** The limiter after a sequence of calls. *)
Definition after (reqs : list request) (s : state) : state :=
  foldl (λ s r, (check_rate_limit (req_domain r) (req_now r) (req_time r) s).2) s reqs.

(** The timestamps of the calls for [domain] that were admitted, in
    order. *)
Fixpoint admitted (domain : string) (reqs : list request) (s : state) : list Z :=
  match reqs with
  | [] => []
  | r :: rest =>
    let res := check_rate_limit (req_domain r) (req_now r) (req_time r) s in
    (if res.1 && bool_decide (req_domain r = domain) then [req_now r] else [])
    ++ admitted domain rest res.2
  end.

(** [datetime.now()] does not go back from one call to the next. *)
Definition clock_monotone (reqs : list request) : Prop :=
  StronglySorted (λ a b, req_now a ≤ req_now b) reqs.

(** The same run as the interpreter makes it: a call may raise, and
    then it admits nothing. *)
Definition after_or_raise (reqs : list request) (s : state) : state :=
  foldl (λ s r,
           (check_rate_limit_or_raise (req_domain r) (req_now r) (req_time r) s).2)
    s reqs.

Fixpoint admitted_or_raise (domain : string) (reqs : list request) (s : state)
  : list Z :=
  match reqs with
  | [] => []
  | r :: rest =>
    let res := check_rate_limit_or_raise (req_domain r) (req_now r) (req_time r) s in
    (match res.1 with
     | inr true => if bool_decide (req_domain r = domain) then [req_now r] else []
     | _ => []
     end)
    ++ admitted_or_raise domain rest res.2
  end.

End LimiterRun.

(** ** Shapes of retry traces *)

Module Trace.
Import Retry.
Section trace.
Context {W A E : Type}.
Variable is_exception : E -> bool.
Variable overflow_error : E.
Variable sleep : Q -> W -> option E * W.
Variable backoff_factor : Q.



End trace.
End Trace.

(** ** States of the cache *)

Module CacheStates.
Import CacheManager.
Section states.
Context {V Opts : Type}.
Variable cfg : Config.
Variable json_dumps : Opts -> string.
Variable empty_dict : Opts.

(** The states of a cache built by [CacheManager(ttl_seconds)] and used
    through [get], [set] and [clear]; the index is the latest reading of
    the clock, which does not go back. *)
Inductive reachable_at : Z -> state V -> Prop :=
  | reach_init ttl_seconds t : reachable_at t (init ttl_seconds)
  | reach_get t self url options now :
      reachable_at t self -> t ≤ now ->
      reachable_at now (get cfg json_dumps empty_dict url options now self).2
  | reach_set t self url value options now now' :
      reachable_at t self -> t ≤ now -> now ≤ now' ->
      reachable_at now'
        (set cfg json_dumps empty_dict url value options now now' self)
  | reach_clear t self :
      reachable_at t self -> reachable_at t (clear self).
End states.
End CacheStates.

(** ** Strings *)

Module PyStr.

(** [s.startswith(p)] *)
Definition startswith (p s : string) : bool := String.prefix p s.

(** [needle in hay] *)
Fixpoint contains (needle hay : string) : bool :=
  String.prefix needle hay
  || match hay with
     | EmptyString => false
     | String _ hay' => contains needle hay'
     end.

(** [any(x in s for x in xs)] *)
Definition any_in (xs : list string) (s : string) : bool :=
  existsb (λ x, contains x s) xs.

(** [s[n:]] *)
Fixpoint drop (n : nat) (s : string) : string :=
  match n, s with
  | O, _ => s
  | S n', String _ s' => drop n' s'
  | S _, EmptyString => EmptyString
  end.

End PyStr.

(** ** The pooled session *)

Module SessionManager.

(** [self._session] and [self._connector] refer to objects of a store;
    what matters of an [aiohttp.ClientSession] or a [TCPConnector] here
    is whether it has been closed. *)
Record state := {
  sessions : gmap positive bool;
  connectors : gmap positive bool;
  _session : option positive;
  _connector : option positive
}.

(** [SessionManager()] *)
Definition init : state :=
  {| sessions := ∅; connectors := ∅; _session := None; _connector := None |}.

(** [session.closed] *)
Definition closed (self : state) (l : positive) : bool :=
  default true (sessions self !! l).

(** The branch that builds a connector and a session on it. *)
Definition new_session (self : state) : positive * state :=
  let k := fresh (dom (connectors self)) in
  let l := fresh (dom (sessions self)) in
  (l, {| sessions := <[l := false]> (sessions self);
         connectors := <[k := false]> (connectors self);
         _session := Some l; _connector := Some k |}).

(** [get_session]: the test made under the lock decides. *)
Definition get_session (self : state) : positive * state :=
  match _session self with
  | Some l => if closed self l then new_session self else (l, self)
  | None => new_session self
  end.

(** [close]: the session and the connector are closed; the manager
    keeps its references to them. *)
Definition close (self : state) : state :=
  {| sessions := match _session self with
                 | Some l => <[l := true]> (sessions self)
                 | None => sessions self
                 end;
     connectors := match _connector self with
                   | Some k => <[k := true]> (connectors self)
                   | None => connectors self
                   end;
     _session := _session self; _connector := _connector self |}.

(** The ["active"] entry of [get_health_status]: [not session.closed]
    for the session [get_session] hands out. *)
Definition health_active (self : state) : bool * state :=
  let '(session, self') := get_session self in
  (negb (closed self' session), self').

End SessionManager.

(** ** Forms and logins *)

Module Forms.

(** The list [captcha_indicators] of [extract_form_fields]. *)
Definition captcha_indicators : list (string * string) :=
  [("recaptcha", "reCAPTCHA");
   ("g-recaptcha", "Google reCAPTCHA");
   ("h-captcha", "hCaptcha");
   ("captcha", "Generic CAPTCHA");
   ("cf-turnstile", "Cloudflare Turnstile")].

(** The loop over the indicators, left at the first one found in
    [form_html] (the form's markup, lower-cased). *)
Fixpoint first_indicator (indicators : list (string * string)) (form_html : string)
  : option string :=
  match indicators with
  | [] => None
  | (indicator, captcha_type) :: rest =>
    if PyStr.contains indicator form_html then Some captcha_type
    else first_indicator rest form_html
  end.

(** The entries [has_captcha] and [captcha_type] of a form. *)
Definition detect_captcha (form_html : string) : bool * option string :=
  match first_indicator captcha_indicators form_html with
  | Some captcha_type => (true, Some captcha_type)
  | None => (false, None)
  end.

(** The verdict [login_successful] of [login_to_website]:
    [username_lower] is [username.lower()], [page_text] the lower-cased
    text of the page that answered, the paths are those of the final url
    and of the login url. *)
Definition success_indicators (username_lower : string) : list string :=
  ["logout"; "sign out"; "dashboard"; "welcome"; "profile";
   username_lower; "my account"].

Definition login_successful (page_text username_lower final_path login_path : string)
  : bool :=
  let login_successful := PyStr.any_in (success_indicators username_lower) page_text in
  (* check if we're still on the login page *)
  if String.eqb final_path login_path && negb login_successful
  then false
  else login_successful.

End Forms.

(** ** API discovery *)

Module APIDiscovery.

Record endpoint := {
  url : string;
  method : string;
  discovered_at : Z
}.

(** A discovery file, as [save_discovery] writes it. *)
Record discovery := {
  d_domain : string;
  d_url : string;
  last_updated : Z;
  endpoints : list endpoint
}.

Section discovery.
(** Library code: [urljoin], [str.lower] and [urlparse(_).netloc]. *)
Variable urljoin : string -> string -> string.
Variable lower : string -> string.
Variable netloc : string -> string.

(** [get_domain] *)
Definition get_domain (url : string) : string :=
  let domain := lower (netloc url) in
  if PyStr.startswith "www." domain then PyStr.drop 4 domain else domain.

Definition static_asset (endpoint_url : string) : bool :=
  PyStr.any_in [".css"; ".js"; ".jpg"; ".png"] endpoint_url.

Definition login_keyword (endpoint_url : string) : bool :=
  PyStr.any_in ["login"; "auth"; "signin"] (lower endpoint_url).

(** [discover_endpoints], on the matches of its patterns in the page,
    in the order [re.findall] yields them; [clock] gives the readings of
    [datetime.now()], [tick] counts those taken. *)
Fixpoint discover_endpoints (clock : nat -> Z) (tick : nat) (url : string)
  (matches : list string) : list endpoint :=
  match matches with
  | [] => []
  | m :: rest =>
    let endpoint_url := if PyStr.startswith "http" m then m else urljoin url m in
    (* skip static assets *)
    if static_asset endpoint_url then discover_endpoints clock tick url rest
    else
      {| url := endpoint_url;
         method := if login_keyword endpoint_url then "POST" else "GET";
         discovered_at := clock tick |}
      :: discover_endpoints clock (S tick) url rest
  end.

(** The endpoints [smart_login] tries, out of a discovery. *)
Definition login_endpoints (eps : list endpoint) : list endpoint :=
  filter (λ ep, login_keyword (url ep) && String.eqb (method ep) "POST" = true) eps.

(** The storage directory: a file name to what [json.load] makes of the
    file, [None] when it raises. *)
Definition file_path (domain : string) : string := domain +:+ ".json".

(** [save_discovery]; [now] is the reading taken when the record is
    built, [now'] the one taken after a merge. *)
Definition save_discovery (url : string) (eps : list endpoint) (now now' : Z)
  (files : gmap string (option discovery)) : gmap string (option discovery) :=
  let domain := get_domain url in
  let discovery :=
    {| d_domain := domain; d_url := url; last_updated := now; endpoints := eps |} in
  let discovery :=
    (* merge with existing if file exists *)
    match files !! file_path domain with
    | Some (Some existing) =>
      let existing_urls := APIDiscovery.url <$> endpoints existing in
      {| d_domain := d_domain existing; d_url := d_url existing;
         last_updated := now';
         endpoints := endpoints existing
                      ++ filter (λ ep, APIDiscovery.url ep ∉ existing_urls) eps |}
    | _ => discovery
    end in
  <[file_path domain := Some discovery]> files.

(** [get_cached_discovery] *)
Definition get_cached_discovery (url : string)
  (files : gmap string (option discovery)) : option discovery :=
  match files !! file_path (get_domain url) with
  | Some (Some d) => Some d
  | _ => None
  end.
End discovery.

End APIDiscovery.

(** ** Calls of [scrape_webpage] in a row *)

Module ScrapeRun.
Import Scrape.
Section run.
Context {Page Resp Headers Net Err Dict : Type}.
Variable cfg : Config.
Variable clock : nat -> Z.
Variable validate_url : string -> bool.
Variable netloc : string -> string.
Variable to_dict : ScrapeOptions -> Dict.
Variable json_dumps : Dict -> string.
Variable empty_dict : Dict.
Variable uniform : Q -> Q -> Net -> Q * Net.
Variable prepare_headers : ScrapeOptions -> Net -> Headers * Net.
Variable overflow_error : Err.
Variable http_get : string -> Headers -> ScrapeOptions -> Net -> (Err + Resp) * Net.
Variable build_result : string -> ScrapeOptions -> Resp -> Z -> Err + Page.

(** [n] calls [scrape_webpage(url, options)], each begun when the one
    before has ended, with the way each ended. *)
Fixpoint scrapes (n fuel : nat) (url : string) (options : option ScrapeOptions)
  (w : world Page Net)
  : option (list (Retry.outcome (result Page Err) (exn Err)) * world Page Net) :=
  match n with
  | O => Some ([], w)
  | S n' =>
    match scrape_webpage cfg clock validate_url netloc to_dict json_dumps empty_dict
            uniform prepare_headers overflow_error http_get build_result fuel url options w with
    | None => None
    | Some (o, w', _) =>
      match scrapes n' fuel url options w' with
      | None => None
      | Some (os, w'') => Some (o :: os, w'')
      end
    end
  end.

(** The singletons after [k] failed fetches of a domain and nothing
    else. *)
Definition after_failures (k : nat) (domain : string) (w : world Page Net) : Prop :=
  CacheManager.cache (cache_manager w) = []
  ∧ CircuitBreaker.failure_threshold (circuit_breaker w) = 5
  ∧ CircuitBreaker.recovery_timeout (circuit_breaker w) = 60
  ∧ CircuitBreaker.failures (circuit_breaker w) !! domain
    = match k with O => None | S _ => Some k end
  ∧ (∀ t, CircuitBreaker.last_failure_time (circuit_breaker w) !! domain = Some t →
          ∃ i, (i ≤ ticks w)%nat ∧ t = clock i)
  ∧ RateLimiter.max_requests (rate_limiter w) = RATE_LIMIT_REQUESTS cfg
  ∧ (length (RateLimiter.recorded (rate_limiter w) domain) ≤ k)%nat.
End run.
End ScrapeRun.

(** ** Sample inputs *)

Module Samples.

(** An operation that times out whenever it is tried, on a world with
    nothing in it, and a random generator that always draws 0. *)
Definition failing_op (s : unit) : (string + unit) * unit := (inl "timeout", s).
Definition no_jitter (a b : Q) (s : unit) : Q * unit := (0%Q, s).

(** Exceptions by the name of their class: [asyncio.CancelledError] is
    not an instance of [Exception], the others here are. *)
Definition is_exception (e : string) : bool := negb (String.eqb e "CancelledError").
Definition overflow : string := "OverflowError".

Definition succeeding_op (s : unit) : (string + nat) * unit := (inr 7%nat, s).

(** [MCP_MAX_RETRIES=0] in the environment. *)
Definition config_no_retries : Config :=
  {| ENABLE_CACHE := true; CACHE_TTL_SECONDS := 300; MAX_RETRIES := 0;
     RATE_LIMIT_REQUESTS := 60; RATE_LIMIT_PERIOD := 60 |}.

(** The default breaker after five failures of one domain in a row, all
    at clock reading 0. *)
Definition tripped : CircuitBreaker.state :=
  CircuitBreaker.record_failures "example.com" [0; 0; 0; 0; 0]
    (CircuitBreaker.init 5 60).

(** A breaker built with [failure_threshold=0], after one failure and
    one success of a domain. *)
Definition recovered : CircuitBreaker.state :=
  CircuitBreaker.record_success "example.com"
    (CircuitBreaker.record_failure "example.com" 0 (CircuitBreaker.init 0 60)).

(** [RateLimiter(max_requests=3, period=1)] after three admissions of
    one domain, one microsecond apart. *)
Definition three_admitted : RateLimiter.state :=
  (RateLimiter.check_rate_limit "example.com" 2 2
     (RateLimiter.check_rate_limit "example.com" 1 1
        (RateLimiter.check_rate_limit "example.com" 0 0
           (RateLimiter.init 3 1 0)).2).2).2.

(** [RateLimiter(60, 10**11)], constructed when [time.time()] reads
    [new_year], which is 2026-01-01T00:00:00. *)
Definition new_year : Z := 1767225600 * 1000000.
Definition long_period : RateLimiter.state :=
  RateLimiter.init 60 100000000000 new_year.

(** [MCP_ENABLE_CACHE=false] in the environment. *)
Definition config_cache_off : Config :=
  {| ENABLE_CACHE := false; CACHE_TTL_SECONDS := 300; MAX_RETRIES := 3;
     RATE_LIMIT_REQUESTS := 60; RATE_LIMIT_PERIOD := 60 |}.

(** Calls without options: the only dictionary to render is [{}]. *)
Definition dumps_empty (_ : unit) : string := "{}".

(** One thousand URLs, two letters each. *)
Definition letters : list ascii :=
  list_ascii_of_string "ABCDEFGHIJKLMNOPQRSTUVWXYZabcdef".
Definition urls : list string :=
  take 1000 (a ← letters; b ← letters; [String a (String b EmptyString)]).

(** The cache that holds these pages, stored one microsecond apart with
    the default time to live. *)
Definition full_cache : CacheManager.state nat :=
  {| CacheManager.cache :=
       imap (λ i url, (CacheManager._get_cache_key dumps_empty () url None,
                       (i, Z.of_nat i))) urls;
     CacheManager.ttl := timedelta_seconds 300 |}.

(** The cache after two pages were stored. *)
Definition small_cache : CacheManager.state nat :=
  CacheManager.set default_config dumps_empty () "https://example.org" 2%nat None
    20 21
    (CacheManager.set default_config dumps_empty () "https://example.net" 1%nat None
       10 11 (CacheManager.init 300)).

(** A run of [scrape_webpage] in which the clock advances by one
    microsecond per reading, the URLs with an [http] or [https] scheme
    are valid, the domain is what follows the two slashes, and every
    request times out. *)
Definition clock (i : nat) : Z := Z.of_nat i.
Definition valid (url : string) : bool := String.prefix "http" url.
Fixpoint netloc (url : string) : string :=
  match url with
  | String "/" (String "/" rest) => rest
  | String _ rest => netloc rest
  | EmptyString => EmptyString
  end.
Definition to_dict (_ : Scrape.ScrapeOptions) : unit := ().
Definition headers (_ : Scrape.ScrapeOptions) (n : unit) : unit * unit := ((), n).
Definition timing_out (_ : string) (_ : unit) (_ : Scrape.ScrapeOptions) (n : unit)
  : (string + unit) * unit := (inl "timeout", n).
Definition parse (_ : string) (_ : Scrape.ScrapeOptions) (_ : unit) (_ : Z)
  : string + nat := inr 7%nat.

Definition scrape (cfg : Config) (fuel : nat) (url : string)
  (w : Scrape.world nat unit) :=
  Scrape.scrape_webpage cfg clock valid netloc to_dict dumps_empty () no_jitter
    headers overflow timing_out parse fuel url None w.

(** The singletons as the module creates them. *)
Definition fresh_world : Scrape.world nat unit :=
  Scrape.initial_world default_config 0 ().

(** The breaker has tripped for the domain. *)
Definition tripped_world : Scrape.world nat unit :=
  Scrape.with_breaker tripped fresh_world.

(** The breaker has tripped and the page is in the cache. *)
Definition tripped_cached_world : Scrape.world nat unit :=
  Scrape.with_cache
    (CacheManager.set default_config dumps_empty () "https://example.com" 7%nat
       (Some ()) 0 0 (CacheManager.init 300))
    tripped_world.


(** A limiter of one request a minute that has just admitted a request
    at time 0, and a clock that advances one second per poll. *)
Definition busy_limiter : RateLimiter.state :=
  (RateLimiter.check_rate_limit "example.com" 0 0 (RateLimiter.init 1 60 0)).2.
Definition seconds_clock (i : nat) : Z * Z :=
  (Z.of_nat i * 1000000, Z.of_nat i * 1000000).

(** Three calls for one domain, half a second apart. *)
Definition burst : list LimiterRun.request :=
  [("example.com", (0, 0)); ("example.com", (500000, 500000))].
Definition burst_last : LimiterRun.request := ("example.com", (1000000, 1000000)).

(** A limiter holding a stale domain, when the sweep is due. *)
Definition stale_limiter : RateLimiter.state :=
  (RateLimiter.check_rate_limit "old.com" 0 0 (RateLimiter.init 60 60 0)).2.

(** A url prefix of 100 characters. *)
Definition long_prefix : string :=
  "https://example.com/aaaaaaaaaaaaaaaaaaaaaaaaaaaaaaaaaaaaaaaaaaaaaaaaaaaaaaaaaaaaaaaaaaaaaaaaaaaaaaaa".

(** A manager whose client for "alice" received a cookie. *)
Definition logged_in : AuthSessionManager.state :=
  AuthSessionManager.client_set_cookie 1%positive "sid" "42"
    (AuthSessionManager.get_or_create_session "alice" AuthSessionManager.init).2.
Definition alice_client : AuthSessionManager.ClientSession :=
  {| AuthSessionManager.closed := false;
     AuthSessionManager.cookie_jar := {["sid" := "42"]} |}.


(** The same run when every request is answered at once. *)
Definition answering (_ : string) (_ : unit) (_ : Scrape.ScrapeOptions) (n : unit)
  : (string + unit) * unit := (inr (), n).
Definition scrape_ok (cfg : Config) (fuel : nat) (url : string)
  (w : Scrape.world nat unit) :=
  Scrape.scrape_webpage cfg clock valid netloc to_dict dumps_empty () no_jitter
    headers overflow answering parse fuel url None w.


(** The world after a first page has been fetched. *)
Definition after_fetch : Scrape.world nat unit :=
  match scrape_ok default_config 1 "https://example.com" fresh_world with
  | Some (_, w', _) => w'
  | None => fresh_world
  end.

(** The singletons under [MCP_MAX_RETRIES=0]. *)
Definition no_retries_world : Scrape.world nat unit :=
  Scrape.initial_world config_no_retries 0 ().


(** Two urls of one site. *)
Definition site_endpoints : list APIDiscovery.endpoint :=
  [{| APIDiscovery.url := "https://example.com/api/login";
      APIDiscovery.method := "POST"; APIDiscovery.discovered_at := 0 |}].


(** A clock that advances by one microsecond per reading for a while
    and then stands still. *)
Definition slow_clock (i : nat) : Z := Z.of_nat (i `min` 1000).

End Samples.

(** * Properties *)

(** ** The checks of [test_enhanced.py], replayed on the embedding *)

(** [test_rate_limiter]: with [max_requests=3, period=1] three checks
    of a domain pass, the fourth is blocked, another domain passes. *)
Example test_rate_limiter :
  let s0 := RateLimiter.init 3 1 0 in
  let r1 := RateLimiter.check_rate_limit "example.com" 1 1 s0 in
  let r2 := RateLimiter.check_rate_limit "example.com" 2 2 r1.2 in
  let r3 := RateLimiter.check_rate_limit "example.com" 3 3 r2.2 in
  let r4 := RateLimiter.check_rate_limit "example.com" 4 4 r3.2 in
  let r5 := RateLimiter.check_rate_limit "other.com" 5 5 r4.2 in
  (r1.1, r2.1, r3.1, r4.1, r5.1) = (true, true, true, false, true).
Proof. reflexivity. Qed.

(** [test_cache_manager]: with [ttl_seconds=1], a value set is read
    back, and is gone a second and a half later. *)
Example test_cache_manager :
  let c1 := CacheManager.set default_config Samples.dumps_empty ()
              "https://example.com" 7%nat None 0 0 (CacheManager.init 1) in
  (CacheManager.get default_config Samples.dumps_empty ()
     "https://example.com" None 10 c1).1 = Some 7%nat
  ∧ CacheManager.get default_config Samples.dumps_empty ()
      "https://example.com" None 1500000 c1 = (None, CacheManager.init 1).
Proof. split; reflexivity. Qed.

(** [test_memory_leak_prevention]: the insertion that takes the cache
    above 1000 entries trims it to 800. *)
Example test_memory_leak_prevention :
  length (CacheManager.cache Samples.full_cache) = 1000%nat
  ∧ length (CacheManager.cache
              (CacheManager.set default_config Samples.dumps_empty ()
                 "https://example.com" 7%nat None 1000 1001 Samples.full_cache))
    = 800%nat.
Proof. split; vm_compute; reflexivity. Qed.

(** [test_auth_session_manager]: the second call for an id returns the
    session of the first. *)
Example test_auth_session_manager :
  let r1 := AuthSessionManager.get_or_create_session "test_session_1"
              AuthSessionManager.init in
  let r2 := AuthSessionManager.get_or_create_session "test_session_1" r1.2 in
  r1.1 = r2.1 ∧ AuthSessionManager.is_closed (AuthSessionManager.heap r2.2) r2.1 = false.
Proof. split; reflexivity. Qed.

(** The cache key of a URL fetched without options. *)
Example cache_key_example :
  CacheManager._get_cache_key Samples.dumps_empty () "https://example.com/a" None
  = "https___example.com_a_{}".
Proof. reflexivity. Qed.

(** ** Retry *)

Section retry_facts.
Import Retry.
Context {W A E : Type}.
Variable cfg : Config.
Variable func : W -> (E + A) * W.
Variable is_exception : E -> bool.
Variable overflow_error : E.
Variable uniform : Q -> Q -> W -> Q * W.
Variable sleep : Q -> W -> option E * W.
Variables backoff_factor max_backoff : Q.

#[local] Abbreviation loop :=
  (retry_loop func is_exception overflow_error uniform sleep
     backoff_factor max_backoff).







(** Whatever the operation does, a positive budget invokes it. *)
Lemma retry_loop_invokes (n : Z) a k s :
  invocations (loop (seq a (S k)) n s).2 ≠ [].
Proof.
  cbn [seq retry_loop]. destruct (func s) as [[e|v] s1]; [|done].
  destruct (negb (is_exception e)); [done|].
  destruct (Z.of_nat a =? n - 1); [done|].
  destruct (float_pow backoff_factor a) as [power|]; [|done].
  destruct (uniform _ _ s1) as [j s2].
  destruct (sleep _ s2) as [[e'|] s3]; [done|].
  by destruct (retry_loop _ _ _ _ _ _ _ _ _ _) as [[o s4] evs].
Qed.

(** The operation is never invoked more often than there are pending
    attempts. *)
Lemma retry_loop_length (n : Z) attempts : ∀ s,
  (length (invocations (loop attempts n s).2) ≤ length attempts)%nat.
Proof.
  induction attempts as [|a rest IH]; intros s; [done|].
  cbn [retry_loop]. destruct (func s) as [[e|v] s1]; [|cbn; lia].
  destruct (negb (is_exception e)); [cbn; lia|].
  destruct (Z.of_nat a =? n - 1); [cbn; lia|].
  destruct (float_pow backoff_factor a) as [power|]; [|cbn; lia].
  destruct (uniform _ _ s1) as [j s2].
  destruct (sleep _ s2) as [[e'|] s3]; [cbn; lia|].
  specialize (IH s3).
  destruct (retry_loop _ _ _ _ _ _ _ _ _ _) as [[o s4] evs]. cbn in *. lia.
Qed.

(** A run that used all its attempts and whose last invocation failed
    raises what that invocation raised. *)
Lemma retry_loop_exhausted (n : Z) k : ∀ a s e,
  Z.of_nat (a + k) = n →
  length (invocations (loop (seq a k) n s).2) = k →
  last (invocations (loop (seq a k) n s).2) = Some (inl e) →
  (loop (seq a k) n s).1.1 = Raised e.
Proof.
  induction k as [|k IH]; intros a s e Hn Hlen Hlast; [done|].
  revert Hlen Hlast. cbn [seq retry_loop].
  destruct (func s) as [[e0|v] s1]; [|by intros _ [=]].
  destruct (negb (is_exception e0)); [by intros _ [= ->]|].
  destruct (Z.of_nat a =? n - 1) eqn:Ha; [by intros _ [= ->]|].
  apply Z.eqb_neq in Ha.
  destruct (float_pow backoff_factor a) as [power|]; [|cbn; intros; lia].
  destruct (uniform _ _ s1) as [j s2].
  destruct (sleep _ s2) as [[e'|] s3]; [cbn; intros; lia|].
  specialize (IH (S a) s3 e).
  destruct (retry_loop _ _ _ _ _ _ _ _ _ _) as [[o s4] evs]. cbn [fst snd] in *.
  change (invocations (Invoke a (inl e0) :: Sleep (Qmin power max_backoff) j :: evs))
    with (inl e0 :: invocations evs).
  cbn [length]. intros Hlen Hlast. apply IH; [lia | lia |].
  destruct (invocations evs) as [|r l]; [cbn in Hlen; lia | exact Hlast].
Qed.

(** What the loop raises was raised by the operation, or is the
    [OverflowError] of the power, or was thrown into a sleep. *)
(** An operation that always fails makes the loop raise, as soon as
    there is an attempt to make. *)
Lemma retry_loop_raises (n : Z) k : ∀ a s,
  always_fails func →
  Z.of_nat (a + S k) = n →
  ∃ e, (loop (seq a (S k)) n s).1.1 = Raised e.
Proof.
  induction k as [|k IH]; intros a s Hfail Hn.
  all: change (seq a (S ?m)) with (a :: seq (S a) m).
  all: cbn [retry_loop]; destruct (Hfail s) as [e He].
  all: destruct (func s) as [r s1]; cbn in He; subst r.
  all: destruct (negb (is_exception e)); [by eexists|].
  - replace (Z.of_nat a =? n - 1) with true by (symmetry; apply Z.eqb_eq; lia).
    by eexists.
  - destruct (Z.of_nat a =? n - 1); [by eexists|].
    destruct (float_pow backoff_factor a) as [power|]; [|by eexists].
    destruct (uniform _ _ s1) as [j s2].
    destruct (sleep _ s2) as [[e'|] s3]; [by eexists|].
    destruct (IH (S a) s3 Hfail) as [e1 He1]; [lia|].
    destruct (retry_loop _ _ _ _ _ _ _ _ _ s3) as [[o s4] evs].
    by exists e1.
Qed.

Lemma retry_loop_raised (n : Z) attempts : ∀ s e,
  (loop attempts n s).1.1 = Raised e →
  (∃ s0, (func s0).1 = inl e)
  ∨ e = overflow_error
  ∨ ∃ d s0, (sleep d s0).1 = Some e.
Proof.
  induction attempts as [|a rest IH]; intros s e; [done|].
  cbn [retry_loop]. destruct (func s) as [[e0|v] s1] eqn:Hf; [|done].
  assert ((func s).1 = inl e0) as Hf' by (by rewrite Hf).
  destruct (negb (is_exception e0)); [intros [= <-]; eauto|].
  destruct (Z.of_nat a =? n - 1); [intros [= <-]; eauto|].
  destruct (float_pow backoff_factor a) as [power|]; [|intros [= <-]; eauto].
  destruct (uniform _ _ s1) as [j s2].
  destruct (sleep _ s2) as [[e'|] s3] eqn:Hs.
  - intros [= <-]. right. right. eexists _, s2. by rewrite Hs.
  - specialize (IH s3 e).
    destruct (retry_loop _ _ _ _ _ _ _ _ _ _) as [[o s4] evs]. exact IH.
Qed.
End retry_facts.




(** C10, as amended.  When [max_retries] is [None] or 0,
    [retry_with_backoff] runs exactly as if [Config.MAX_RETRIES] had
    been passed; when that default is at least 1 the operation is
    invoked (a 0 argument does not mean zero attempts); and in any case
    it is invoked at most [Config.MAX_RETRIES] times. *)
Theorem retry_falsy_max_retries_uses_default {W A E : Type} (cfg : Config)
  (func : W → (E + A) * W) (is_exception : E → bool) (overflow_error : E)
  (uniform : Q → Q → W → Q * W) (sleep : Q → W → option E * W)
  (backoff_factor max_backoff : Q) (max_retries : option Z) (s : W) :
  max_retries = None ∨ max_retries = Some 0 →
  Retry.retry_with_backoff cfg func is_exception overflow_error uniform sleep
    backoff_factor max_backoff max_retries s
  = Retry.retry_with_backoff cfg func is_exception overflow_error uniform sleep
      backoff_factor max_backoff (Some (MAX_RETRIES cfg)) s
  ∧ (1 ≤ MAX_RETRIES cfg →
     Retry.invocations (Retry.retry_with_backoff cfg func is_exception
       overflow_error uniform sleep backoff_factor max_backoff max_retries s).2 ≠ [])
  ∧ (length (Retry.invocations (Retry.retry_with_backoff cfg func is_exception
       overflow_error uniform sleep backoff_factor max_backoff max_retries s).2)
     ≤ Z.to_nat (MAX_RETRIES cfg))%nat.
Proof.
  intros Hfalsy.
  assert (Hor : Retry.py_or max_retries (MAX_RETRIES cfg) = MAX_RETRIES cfg)
    by (destruct Hfalsy as [-> | ->]; reflexivity).
  assert (Hor' : Retry.py_or (Some (MAX_RETRIES cfg)) (MAX_RETRIES cfg) = MAX_RETRIES cfg)
    by (unfold Retry.py_or; destruct (MAX_RETRIES cfg =? 0); reflexivity).
  unfold Retry.retry_with_backoff. rewrite Hor, Hor'. split; [done|].
  unfold Retry.range. split.
  - intros Hpos. destruct (Z.to_nat (MAX_RETRIES cfg)) as [|k] eqn:Hk; [lia|].
    apply retry_loop_invokes.
  - etrans; [apply retry_loop_length|]. by rewrite length_seq.
Qed.

Lemma retry_falsy_max_retries_uses_default_witness :
  Retry.retry_with_backoff default_config Samples.failing_op Samples.is_exception
    Samples.overflow Samples.no_jitter Retry.quiet_sleep 2 60 (Some 0) ()
  = Retry.retry_with_backoff default_config Samples.failing_op Samples.is_exception
      Samples.overflow Samples.no_jitter Retry.quiet_sleep 2 60 (Some 3) ()
  ∧ Retry.invocations (Retry.retry_with_backoff default_config
      Samples.failing_op Samples.is_exception Samples.overflow Samples.no_jitter
      Retry.quiet_sleep 2 60 (Some 0) ()).2 ≠ []
  ∧ (length (Retry.invocations (Retry.retry_with_backoff default_config
       Samples.failing_op Samples.is_exception Samples.overflow Samples.no_jitter
       Retry.quiet_sleep 2 60 (Some 0%Z) ()).2) ≤ 3)%nat.
Proof.
  assert (H : Some 0 = None ∨ Some 0 = Some 0) by (right; reflexivity).
  assert (Hpos : 1 ≤ MAX_RETRIES default_config) by (cbn; lia).
  destruct (retry_falsy_max_retries_uses_default default_config
              Samples.failing_op Samples.is_exception Samples.overflow
              Samples.no_jitter Retry.quiet_sleep 2 60 (Some 0) () H)
    as (Heq & Hinv & Hlen).
  split; [exact Heq|]. split; [exact (Hinv Hpos) | exact Hlen].
Defined.

(** C10 as stated fails on the code.  With [MCP_MAX_RETRIES=0] in the
    environment the default that replaces the falsy argument is itself
    0: the operation is not attempted at all and the call returns
    [None].  And with the default 3, an operation that succeeds is
    attempted once, not three times. *)
Lemma retry_default_counterexample :
  Retry.retry_with_backoff Samples.config_no_retries Samples.failing_op
    Samples.is_exception Samples.overflow Samples.no_jitter Retry.quiet_sleep
    2 60 (Some 0) () = (Retry.ReturnedNone, (), [])
  ∧ Retry.retry_with_backoff default_config Samples.succeeding_op
      Samples.is_exception Samples.overflow Samples.no_jitter Retry.quiet_sleep
      2 60 (Some 0) ()
    = (Retry.Returned 7%nat, (), [Retry.Invoke 0 (inr 7%nat)]).
Proof. split; reflexivity. Qed.

(** ** Circuit breaker *)

Section breaker_facts.
Import CircuitBreaker.
Implicit Types (self : state) (endpoint : string).

Lemma td_seconds_le (d : Z) : 0 ≤ d → td_seconds d ≤ d `div` 1000000.
Proof.
  intros Hd. unfold td_seconds.
  apply Z.mod_le; [apply Z.div_pos; lia | lia].
Qed.

(** Inside the recovery window the seconds component is below the
    timeout. *)
Lemma td_seconds_in_window (d timeout : Z) :
  0 ≤ d < timedelta_seconds timeout → td_seconds d < timeout.
Proof.
  unfold timedelta_seconds. intros [Hd Hlt].
  eapply Z.le_lt_trans; [by apply td_seconds_le|].
  apply Z.div_lt_upper_bound; lia.
Qed.

(** The seconds component forgets whole days. *)
Lemma td_seconds_days (days r : Z) :
  0 ≤ r < 86400 * 1000000 →
  td_seconds (days * (86400 * 1000000) + r) = r `div` 1000000.
Proof.
  intros Hr. unfold td_seconds.
  replace (days * (86400 * 1000000) + r) with (days * 86400 * 1000000 + r) by lia.
  rewrite Z.div_add_l by lia.
  rewrite Z.add_comm, Z.mod_add by lia.
  apply Z.mod_small. split; [apply Z.div_pos; lia|].
  apply Z.div_lt_upper_bound; lia.
Qed.

(** Hence a tripped breaker stays open at every reading that is a whole
    number of days, plus at most [recovery_timeout] seconds and a
    fraction, after the last failure. *)
Lemma is_open_ignores_days endpoint (n : nat) (t days r : Z) self :
  failures self !! endpoint = Some n →
  last_failure_time self !! endpoint = Some t →
  failure_threshold self ≤ Z.of_nat n →
  0 ≤ r < 86400 * 1000000 →
  r `div` 1000000 ≤ recovery_timeout self →
  is_open endpoint (t + (days * (86400 * 1000000) + r)) self = (true, self).
Proof.
  intros Hn Ht Hth Hr Hsec. unfold is_open. rewrite Hn, Ht.
  replace (t + (days * (86400 * 1000000) + r) - t)
    with (days * (86400 * 1000000) + r) by lia.
  rewrite td_seconds_days by done.
  replace (recovery_timeout self <? r `div` 1000000) with false
    by (symmetry; apply Z.ltb_ge; lia).
  f_equal. apply Z.leb_le. lia.
Qed.

Lemma record_failures_snoc endpoint times now self :
  record_failures endpoint (times ++ [now]) self
  = record_failure endpoint now (record_failures endpoint times self).
Proof. unfold record_failures. by rewrite foldl_app. Qed.

(** What a run of failures leaves behind. *)
Lemma record_failures_spec endpoint times self :
  let self' := record_failures endpoint times self in
  failure_threshold self' = failure_threshold self
  ∧ recovery_timeout self' = recovery_timeout self
  ∧ (times ≠ [] →
     failures self' !! endpoint
       = Some (failure_count self endpoint + length times)%nat
     ∧ last_failure_time self' !! endpoint = last times).
Proof.
  induction times as [|now times IH] using rev_ind; [done|].
  rewrite record_failures_snoc. cbn zeta in *.
  destruct IH as (Hth & Hto & IH). split; [done|]. split; [done|]. intros _.
  cbn [record_failure failures last_failure_time].
  rewrite !lookup_insert_eq, last_snoc, length_app. split; [|done].
  f_equal. destruct times as [|t0 times'] using rev_ind.
  - cbn. unfold failure_count. lia.
  - destruct IH as [-> _]; [by destruct times'|]. cbn. rewrite !length_app. cbn. lia.
Qed.

Lemma is_open_after_success endpoint now self :
  1 ≤ failure_threshold self →
  (is_open endpoint now (record_success endpoint self)).1 = false.
Proof.
  intros Hth. unfold record_success.
  destruct (failures self !! endpoint) as [n|] eqn:Hn.
  - unfold is_open. cbn [failures last_failure_time failure_threshold].
    rewrite lookup_insert_eq, lookup_delete_eq. cbn. apply Z.leb_gt. lia.
  - unfold is_open. by rewrite Hn.
Qed.

Lemma failure_count_after_success endpoint self :
  failure_count (record_success endpoint self) endpoint = 0%nat.
Proof.
  unfold record_success, failure_count.
  destruct (failures self !! endpoint) as [n|] eqn:Hn.
  - cbn. by rewrite lookup_insert_eq.
  - by rewrite Hn.
Qed.
End breaker_facts.

(** C2: the code at two readings of the clock after the default
    breaker tripped at reading 0.  One day and ten seconds later, and
    sixty and a half seconds later, [is_open] still answers [True] and
    resets nothing, although [recovery_timeout] (60 s) has elapsed. *)
Theorem is_open_after_recovery_timeout :
  CircuitBreaker.is_open "example.com" (timedelta_seconds 86410) Samples.tripped
    = (true, Samples.tripped)
  ∧ CircuitBreaker.is_open "example.com" 60500000 Samples.tripped
    = (true, Samples.tripped)
  ∧ CircuitBreaker.failure_count Samples.tripped "example.com" = 5%nat
  ∧ CircuitBreaker.last_failure_time Samples.tripped !! "example.com" = Some 0.
Proof. vm_compute. done. Qed.

(** C3, as amended.  For a breaker with [failure_threshold >= 1] and
    every key: after [failure_threshold] consecutive [record_failure]
    calls, an [is_open] call made at or after the last of them and less
    than [recovery_timeout] seconds later returns true; and, in any
    state, a single [record_success] leaves the key's failure count at 0
    and makes the [is_open] call that follows return false. *)
Theorem breaker_trips_and_success_resets (endpoint : string)
  (times : list Z) (t_last now now' : Z) (self other : CircuitBreaker.state) :
  1 ≤ CircuitBreaker.failure_threshold self →
  1 ≤ CircuitBreaker.failure_threshold other →
  Z.of_nat (length times) = CircuitBreaker.failure_threshold self →
  last times = Some t_last →
  0 ≤ now - t_last < timedelta_seconds (CircuitBreaker.recovery_timeout self) →
  (CircuitBreaker.is_open endpoint now
     (CircuitBreaker.record_failures endpoint times self)).1 = true
  ∧ CircuitBreaker.failure_count
      (CircuitBreaker.record_success endpoint other) endpoint = 0%nat
  ∧ (CircuitBreaker.is_open endpoint now'
       (CircuitBreaker.record_success endpoint other)).1 = false.
Proof.
  intros Hth Hth' Hlen Hlast Hwin.
  split; [|split; [apply failure_count_after_success | by apply is_open_after_success]].
  destruct (record_failures_spec endpoint times self) as (Eth & Eto & Hrun).
  destruct Hrun as [Hcnt Htime]; [by intros ->|].
  unfold CircuitBreaker.is_open. rewrite Hcnt, Htime, Hlast, Eth, Eto.
  apply td_seconds_in_window in Hwin.
  replace (CircuitBreaker.recovery_timeout self <? td_seconds (now - t_last))
    with false by (symmetry; apply Z.ltb_ge; lia).
  cbn. apply Z.leb_le. lia.
Qed.

Lemma breaker_trips_and_success_resets_witness :
  (CircuitBreaker.is_open "example.com" 59999999
     (CircuitBreaker.record_failures "example.com" [0; 10; 20; 30; 40]
        (CircuitBreaker.init 5 60))).1 = true
  ∧ CircuitBreaker.failure_count
      (CircuitBreaker.record_success "example.com" Samples.tripped) "example.com" = 0%nat
  ∧ (CircuitBreaker.is_open "example.com" 0
       (CircuitBreaker.record_success "example.com" Samples.tripped)).1 = false.
Proof.
  apply (breaker_trips_and_success_resets "example.com" [0; 10; 20; 30; 40] 40
           59999999 0 (CircuitBreaker.init 5 60) Samples.tripped);
    [by vm_compute | by vm_compute | reflexivity | reflexivity | split; by vm_compute].
Defined.

(** C3 as stated fails for a breaker built with [failure_threshold=0]:
    no failure at all leaves a new key closed, and after a success the
    count is 0 and [is_open] answers [True]. *)
Lemma breaker_claim_counterexample :
  (CircuitBreaker.is_open "example.com" 0
     (CircuitBreaker.record_failures "example.com" [] (CircuitBreaker.init 0 60))).1
    = false
  ∧ CircuitBreaker.failure_count Samples.recovered "example.com" = 0%nat
  ∧ (CircuitBreaker.is_open "example.com" 1 Samples.recovered).1 = true.
Proof. vm_compute. done. Qed.

(** ** Rate limiter *)

Section limiter_facts.
Import RateLimiter.
Implicit Types (self s : state) (domain : string) (l : list Z).

Lemma recent_recent (c c' : Z) l :
  c ≤ c' → recent c' (recent c l) = recent c' l.
Proof.
  intros Hc. unfold recent. induction l as [|t l IH]; [done|].
  destruct (decide (c < t)) as [Hct|Hct], (decide (c' < t)) as [Hct'|Hct'].
  - rewrite (filter_cons_True _ t l Hct), !filter_cons_True by done. by f_equal.
  - rewrite (filter_cons_True _ t l Hct), !filter_cons_False by done. done.
  - lia.
  - rewrite (filter_cons_False _ t l Hct), filter_cons_False by done. done.
Qed.

Lemma length_recent c l : (length (recent c l) ≤ length l)%nat.
Proof. apply length_filter. Qed.

(** The timestamps of a domain after the sweep (a deleted domain has
    none). *)
Lemma recorded_sweep c (reqs : gmap string (list Z)) domain :
  default [] (sweep c reqs !! domain) = recent c (default [] (reqs !! domain)).
Proof.
  unfold sweep. rewrite lookup_omap.
  destruct (reqs !! domain) as [l|]; [|done]. cbn -[recent].
  by destruct (recent c l).
Qed.

Lemma recent_pruned now ct self domain :
  recent (now - timedelta_seconds (period self))
    (default [] (pruned now ct self !! domain))
  = recent (now - timedelta_seconds (period self)) (recorded self domain).
Proof.
  unfold pruned, recorded. case_match; [|done].
  rewrite recorded_sweep. by apply recent_recent.
Qed.

(** [check_rate_limit] in one equation per field. *)
Lemma check_rate_limit_spec domain now ct self :
  let l := in_window now self domain in
  let admitted := negb (max_requests self <=? Z.of_nat (length l)) in
  let self' := (check_rate_limit domain now ct self).2 in
  (check_rate_limit domain now ct self).1 = admitted
  ∧ max_requests self' = max_requests self
  ∧ period self' = period self
  ∧ recorded self' domain = (if admitted then l ++ [now] else l)
  ∧ ∀ other, other ≠ domain →
      requests self' !! other = pruned now ct self !! other.
Proof.
  cbn zeta. unfold in_window. rewrite <- (recent_pruned now ct self domain).
  unfold check_rate_limit, pruned, recorded.
  set (c := now - timedelta_seconds (period self)).
  destruct (300 * 1000000 <? ct - _last_cleanup self);
    [set (reqs := sweep c (requests self)) | set (reqs := requests self)].
  all: cbv zeta.
  all: destruct (reqs !! domain) as [l0|] eqn:Hl0.
  all: rewrite ?lookup_insert_eq, ?Hl0; cbn [default].
  all: destruct (max_requests self <=? _) eqn:Hle; cbn [fst snd negb requests
         max_requests period].
  all: rewrite ?lookup_insert_eq; cbn [default].
  all: repeat split; try done.
  all: intros other Hne; by rewrite ?lookup_insert_ne by done.
Qed.

(** The verdict depends on the domain's own requests only. *)
Lemma check_rate_limit_verdict domain now ct self :
  (check_rate_limit domain now ct self).1
  = negb (max_requests self <=? Z.of_nat (length (in_window now self domain))).
Proof. apply check_rate_limit_spec. Qed.

Lemma recorded_other domain other now ct self :
  other ≠ domain →
  recorded (check_rate_limit domain now ct self).2 other = recorded self other
  ∨ recorded (check_rate_limit domain now ct self).2 other
    = recent (now - timedelta_seconds (period self)) (recorded self other).
Proof.
  intros Hne.
  destruct (check_rate_limit_spec domain now ct self) as (_ & _ & _ & _ & Hoth).
  unfold recorded at 1 3. rewrite (Hoth other Hne). unfold pruned.
  case_match; [right; apply recorded_sweep | by left].
Qed.

(** A limiter never holds more timestamps for a domain than it admits
    in one window. *)
Lemma reachable_bounded mr p self :
  reachable mr p self →
  max_requests self = mr ∧ period self = p
  ∧ ∀ domain, (length (recorded self domain) ≤ Z.to_nat mr)%nat.
Proof.
  induction 1 as [ct | s domain now ct _ (Hmr & Hp & IH)].
  - repeat split. intros domain. unfold recorded, init. cbn.
    rewrite lookup_empty. cbn. lia.
  - destruct (check_rate_limit_spec domain now ct s)
      as (_ & Emr & Ep & Edom & _).
    split; [congruence|]. split; [congruence|]. intros d.
    destruct (decide (d = domain)) as [->|Hne].
    + rewrite Edom. pose proof (length_recent
        (now - timedelta_seconds (period s)) (recorded s domain)) as Hlen.
      specialize (IH domain). unfold in_window in *.
      destruct (max_requests s <=? _) eqn:Hle; cbn [negb].
      * lia.
      * apply Z.leb_gt in Hle. rewrite length_app. cbn [length]. lia.
    + destruct (recorded_other domain d now ct s Hne) as [-> | ->]; [apply IH|].
      etrans; [apply length_recent | apply IH].
Qed.

(** When the cut-off is a [datetime] the call is [check_rate_limit]. *)
Lemma check_rate_limit_or_raise_defined domain now ct self :
  cutoff_defined now (period self) = true →
  check_rate_limit_or_raise domain now ct self
  = (inr (check_rate_limit domain now ct self).1,
     (check_rate_limit domain now ct self).2).
Proof.
  intros Hdef. unfold check_rate_limit_or_raise. rewrite Hdef.
  by destruct (check_rate_limit _ _ _ _).
Qed.

(** When it is not, the call raises and no timestamp is touched. *)
Lemma check_rate_limit_or_raise_undefined domain now ct self :
  cutoff_defined now (period self) = false →
  let r := check_rate_limit_or_raise domain now ct self in
  r.1 = inl OverflowError
  ∧ max_requests r.2 = max_requests self
  ∧ period r.2 = period self
  ∧ _last_cleanup r.2 = _last_cleanup self
  ∧ (∀ d, recorded r.2 d = recorded self d)
  ∧ (∀ other, other ≠ domain → requests r.2 !! other = requests self !! other)
  ∧ (300 * 1000000 < ct - _last_cleanup self → r.2 = self).
Proof.
  intros Hdef. cbn zeta. unfold check_rate_limit_or_raise. rewrite Hdef.
  destruct (300 * 1000000 <? ct - _last_cleanup self) eqn:Hdue.
  { repeat split; done. }
  apply Z.ltb_ge in Hdue. cbn [fst snd max_requests period _last_cleanup].
  repeat split; try done; try lia.
  - intros d. unfold recorded. cbn [requests].
    destruct (requests self !! domain) eqn:Hdom; [done|].
    destruct (decide (d = domain)) as [->|Hne].
    + by rewrite lookup_insert_eq, Hdom.
    + by rewrite lookup_insert_ne.
  - intros other Hne. cbn [requests].
    destruct (requests self !! domain); [done|]. by rewrite lookup_insert_ne.
Qed.
End limiter_facts.

(** C4.  In a limiter built with [max_requests] and [period] and used
    through [check_rate_limit]: when a key has exactly [max_requests]
    admitted requests inside the trailing [period] seconds, the next
    check of that key is denied and records no timestamp; once [period]
    seconds have elapsed from the oldest admitted request that is still
    recorded, a check of the key is admitted again; and a later check of
    a different key gets the verdict it would have got had the first
    key never been checked. *)
Theorem rate_limit_window (mr p : Z) (s : RateLimiter.state)
  (domain other : string) (now ct now1 ct1 now2 ct2 t0 : Z) :
  RateLimiter.reachable mr p s →
  Z.of_nat (length (RateLimiter.in_window now s domain)) = mr →
  RateLimiter.oldest (RateLimiter.recorded
            (RateLimiter.check_rate_limit domain now ct s).2 domain) t0 →
  t0 + timedelta_seconds p ≤ now1 →
  other ≠ domain →
  now ≤ now2 →
  (RateLimiter.check_rate_limit domain now ct s).1 = false
  ∧ RateLimiter.recorded (RateLimiter.check_rate_limit domain now ct s).2 domain
    = RateLimiter.in_window now s domain
  ∧ (RateLimiter.check_rate_limit domain now1 ct1
       (RateLimiter.check_rate_limit domain now ct s).2).1 = true
  ∧ (RateLimiter.check_rate_limit other now2 ct2
       (RateLimiter.check_rate_limit domain now ct s).2).1
    = (RateLimiter.check_rate_limit other now2 ct2 s).1.
Proof.
  intros Hreach Hfull [Hin _] Hold Hne Hmono.
  pose proof (RateLimiter.reach_check mr p s domain now ct Hreach) as Hreach'.
  destruct (reachable_bounded mr p s Hreach) as (Hmr & Hp & _).
  destruct (reachable_bounded mr p _ Hreach') as (Hmr' & Hp' & Hbound').
  destruct (check_rate_limit_spec domain now ct s) as (Hv & _ & _ & Hdom & _).
  cbn zeta in Hv, Hdom.
  replace (RateLimiter.max_requests s
           <=? Z.of_nat (length (RateLimiter.in_window now s domain)))
    with true in Hv, Hdom by (symmetry; apply Z.leb_le; lia).
  cbn [negb] in Hv, Hdom.
  split; [exact Hv|]. split; [exact Hdom|]. split.
  - rewrite check_rate_limit_verdict. apply negb_true_iff, Z.leb_gt.
    rewrite Hmr'.
    assert (length (RateLimiter.in_window now1
                      (RateLimiter.check_rate_limit domain now ct s).2 domain)
            < length (RateLimiter.recorded
                        (RateLimiter.check_rate_limit domain now ct s).2 domain))%nat
      as Hlt.
    { unfold RateLimiter.in_window, RateLimiter.recent.
      apply (length_filter_lt _ _ t0 Hin). rewrite Hp'. lia. }
    specialize (Hbound' domain). lia.
  - rewrite !check_rate_limit_verdict. unfold RateLimiter.in_window.
    destruct (check_rate_limit_spec domain now ct s) as (_ & -> & -> & _ & _).
    destruct (recorded_other domain other now ct s Hne) as [-> | ->]; [done|].
    rewrite recent_recent; [done | lia].
Qed.

Lemma rate_limit_window_witness :
  (RateLimiter.check_rate_limit "example.com" 3 3 Samples.three_admitted).1 = false
  ∧ RateLimiter.recorded
      (RateLimiter.check_rate_limit "example.com" 3 3 Samples.three_admitted).2
      "example.com"
    = RateLimiter.in_window 3 Samples.three_admitted "example.com"
  ∧ (RateLimiter.check_rate_limit "example.com" 1000000 1000000
       (RateLimiter.check_rate_limit "example.com" 3 3 Samples.three_admitted).2).1
    = true
  ∧ (RateLimiter.check_rate_limit "other.com" 3 3
       (RateLimiter.check_rate_limit "example.com" 3 3 Samples.three_admitted).2).1
    = (RateLimiter.check_rate_limit "other.com" 3 3 Samples.three_admitted).1.
Proof.
  apply (rate_limit_window 3 1 Samples.three_admitted "example.com" "other.com"
           3 3 1000000 1000000 3 3 0).
  - unfold Samples.three_admitted.
    do 3 apply RateLimiter.reach_check. apply RateLimiter.reach_init.
  - reflexivity.
  - replace (RateLimiter.recorded _ _) with [0; 1; 2] by reflexivity.
    split; [set_solver|]. intros t Ht. set_unfold. lia.
  - by vm_compute.
  - done.
  - lia.
Defined.

(** C5, as amended.  For every limiter with [max_requests >= 1] and
    every key with no recorded request, the first check of that key is
    admitted whenever [now - timedelta(seconds=period)] is a
    [datetime]. *)
Theorem first_request_admitted (s : RateLimiter.state) (domain : string)
  (now ct : Z) :
  1 ≤ RateLimiter.max_requests s →
  RateLimiter.cutoff_defined now (RateLimiter.period s) = true →
  RateLimiter.recorded s domain = [] →
  (RateLimiter.check_rate_limit_or_raise domain now ct s).1 = inr true.
Proof.
  intros Hmr Hdef Hnone. rewrite check_rate_limit_or_raise_defined by done.
  cbn [fst]. f_equal.
  rewrite check_rate_limit_verdict. unfold RateLimiter.in_window.
  rewrite Hnone. cbn. apply negb_true_iff, Z.leb_gt. lia.
Qed.

Lemma first_request_admitted_witness :
  1 ≤ RateLimiter.max_requests (RateLimiter.init 60 60 0)
  ∧ RateLimiter.cutoff_defined 5 (RateLimiter.period (RateLimiter.init 60 60 0)) = true
  ∧ RateLimiter.recorded (RateLimiter.init 60 60 0) "example.com" = []
  ∧ (RateLimiter.check_rate_limit_or_raise "example.com" 5 5
       (RateLimiter.init 60 60 0)).1
    = inr true.
Proof.
  assert (H1 : 1 ≤ RateLimiter.max_requests (RateLimiter.init 60 60 0)) by (cbn; lia).
  assert (H2 : RateLimiter.cutoff_defined 5
                 (RateLimiter.period (RateLimiter.init 60 60 0)) = true)
    by reflexivity.
  assert (H3 : RateLimiter.recorded (RateLimiter.init 60 60 0) "example.com" = [])
    by reflexivity.
  split; [exact H1|]. split; [exact H2|]. split; [exact H3|].
  exact (first_request_admitted (RateLimiter.init 60 60 0) "example.com" 5 5 H1 H2 H3).
Defined.

(** C5 as stated fails for two configurations.  With [max_requests = 0]
    the key has no recorded request and its first check is denied.  With
    [period = 10**11] the first check, made on 2026-01-01, is not
    admitted either: the cut-off would fall before the year 1, and
    [check_rate_limit] raises [OverflowError]. *)
Lemma first_request_counterexample :
  RateLimiter.recorded (RateLimiter.init 0 60 0) "example.com" = []
  ∧ (RateLimiter.check_rate_limit_or_raise "example.com" 0 0
       (RateLimiter.init 0 60 0)).1
    = inr false
  ∧ RateLimiter.recorded Samples.long_period "example.com" = []
  ∧ (RateLimiter.check_rate_limit_or_raise "example.com" Samples.new_year
       Samples.new_year Samples.long_period).1
    = inl RateLimiter.OverflowError.
Proof. repeat split; reflexivity. Qed.

(** ** Dictionaries *)

Section dict_facts.
Context {K V : Type} `{EqDecision K}.
Implicit Types (k : K) (v : V) (d l : list (K * V)) (f : K * V → Z).

Lemma lookup_assign_eq k v d : PyDict.lookup k (PyDict.assign k v d) = Some v.
Proof.
  induction d as [|[k' v'] d IH]; cbn.
  - by rewrite decide_True.
  - destruct (decide (k = k')) as [->|Hne]; cbn.
    + by rewrite decide_True.
    + by rewrite decide_False.
Qed.

Lemma elem_of_assign k v d x :
  x ∈ PyDict.assign k v d → x = (k, v) ∨ x ∈ d.
Proof.
  induction d as [|[k' v'] d IH]; cbn.
  - rewrite list_elem_of_singleton. auto.
  - destruct (decide (k = k')); rewrite !elem_of_cons; intuition.
Qed.

Lemma elem_of_assign_eq k v d : (k, v) ∈ PyDict.assign k v d.
Proof.
  induction d as [|[k' v'] d IH]; cbn.
  - set_solver.
  - destruct (decide (k = k')); set_solver.
Qed.

(** Assignment keeps the keys, or adds the new key at the end. *)
Lemma keys_assign k v d :
  (PyDict.assign k v d).*1 = if decide (k ∈ d.*1) then d.*1 else d.*1 ++ [k].
Proof.
  induction d as [|[k' v'] d IH]; [done|]. cbn.
  destruct (decide (k = k')) as [->|Hne]; cbn.
  - rewrite decide_True by (apply elem_of_cons; auto). done.
  - rewrite IH. destruct (decide (k ∈ d.*1)).
    + rewrite decide_True by (apply elem_of_cons; auto). done.
    + rewrite decide_False by (rewrite elem_of_cons; intuition). done.
Qed.

Lemma NoDup_assign k v d : NoDup d.*1 → NoDup (PyDict.assign k v d).*1.
Proof.
  intros Hd. rewrite keys_assign. case_decide; [done|].
  apply NoDup_app. split; [done|]. split; [|apply NoDup_singleton].
  intros k' Hk' ->%list_elem_of_singleton. done.
Qed.

Lemma length_assign_le k v d : (length (PyDict.assign k v d) ≤ S (length d))%nat.
Proof.
  induction d as [|[k' v'] d IH]; cbn; [lia|].
  destruct (decide (k = k')); cbn; lia.
Qed.

Lemma lookup_del_eq k d : PyDict.lookup k (PyDict.del k d) = None.
Proof.
  unfold PyDict.del. induction d as [|[k' v'] d IH]; [done|].
  rewrite filter_cons. cbn. case_decide as Hk; [|done].
  cbn. by rewrite decide_False.
Qed.

(** In a dictionary an item is found under its key. *)
Lemma lookup_elem_of k v d :
  NoDup d.*1 → (k, v) ∈ d → PyDict.lookup k d = Some v.
Proof.
  induction d as [|[k' v'] d IH]; [set_solver|].
  rewrite fmap_cons, NoDup_cons. intros [Hk' Hd] Hin. cbn.
  apply elem_of_cons in Hin as [[= <- <-]|Hin].
  - by rewrite decide_True.
  - rewrite decide_False; [by apply IH|].
    intros ->. apply Hk'. by apply (list_elem_of_fmap_2 fst _ (k', v)).
Qed.

Lemma insert_by_perm f x l : PyDict.insert_by f x l ≡ₚ x :: l.
Proof.
  induction l as [|y l IH]; [done|]. cbn. case_match; [done|].
  rewrite IH. apply Permutation_swap.
Qed.

Lemma sorted_perm f l : PyDict.sorted f l ≡ₚ l.
Proof.
  induction l as [|x l IH]; [done|]. cbn. by rewrite insert_by_perm, IH.
Qed.

Lemma insert_by_sorted f x l :
  StronglySorted (λ a b, f a ≤ f b) l →
  StronglySorted (λ a b, f a ≤ f b) (PyDict.insert_by f x l).
Proof.
  induction 1 as [|y l Hl IH Hy]; cbn.
  - repeat constructor.
  - destruct (f x <=? f y) eqn:Hle.
    + apply Z.leb_le in Hle. constructor; [by constructor|].
      constructor; [done|]. eapply Forall_impl; [exact Hy|]. cbn. lia.
    + apply Z.leb_gt in Hle. constructor; [done|].
      rewrite insert_by_perm. constructor; [lia | done].
Qed.

Lemma sorted_sorted f l : StronglySorted (λ a b, f a ≤ f b) (PyDict.sorted f l).
Proof.
  induction l as [|x l IH]; cbn; [constructor | by apply insert_by_sorted].
Qed.

Lemma last_n_sublist n l : PyDict.last_n n l `sublist_of` l.
Proof. apply sublist_drop. Qed.

Lemma length_last_n n l : length (PyDict.last_n n l) = (length l `min` n)%nat.
Proof. unfold PyDict.last_n. rewrite length_drop. lia. Qed.

(** The items cut off by [l[-n:]] come before the items kept. *)
Lemma last_n_split n l : l = take (length l - n) l ++ PyDict.last_n n l.
Proof. unfold PyDict.last_n. by rewrite take_drop. Qed.

(** The one item ranked above all others ends the sorted list, so every
    non-empty tail slice keeps it. *)
Lemma strict_max_in_last_n f n l x :
  (0 < n)%nat → x ∈ l → (∀ y, y ∈ l → y = x ∨ f y < f x) →
  x ∈ PyDict.last_n n (PyDict.sorted f l).
Proof.
  intros Hn Hx Hmax.
  pose proof (sorted_sorted f l) as Hs. pose proof (sorted_perm f l) as Hp.
  destruct (PyDict.sorted f l) as [|z0 l0] eqn:Heq using rev_ind.
  { rewrite <- Hp in Hx. by apply elem_of_nil in Hx. }
  clear IHl0. unfold PyDict.last_n.
  rewrite drop_app_le by (rewrite length_app; cbn; lia).
  apply elem_of_app. right. apply list_elem_of_singleton.
  assert (z0 ∈ l) as Hz by (rewrite <- Hp, elem_of_app, list_elem_of_singleton; auto).
  destruct (Hmax z0 Hz) as [->|Hlt]; [done|]. exfalso.
  rewrite <- Hp, elem_of_app, list_elem_of_singleton in Hx.
  destruct Hx as [Hx0| ->]; [|lia].
  assert (f x ≤ f z0); [|lia].
  apply (StronglySorted_app_1_elem_of _ _ _ x z0 Hs Hx0), list_elem_of_singleton.
  done.
Qed.

(** A new key goes last; an existing key leaves the length as it is. *)
Lemma assign_new k v d : k ∉ d.*1 → PyDict.assign k v d = d ++ [(k, v)].
Proof.
  induction d as [|[k' v'] d IH]; [done|]. cbn.
  rewrite not_elem_of_cons. intros [Hne Hd].
  rewrite decide_False by done. by rewrite IH.
Qed.

Lemma length_assign_in k v d : k ∈ d.*1 → length (PyDict.assign k v d) = length d.
Proof.
  induction d as [|[k' v'] d IH]; cbn; [by intros ?%elem_of_nil|].
  destruct (decide (k = k')) as [->|Hne]; [done|].
  rewrite elem_of_cons. intros [?|Hd]; [done|]. cbn. by rewrite IH.
Qed.

(** The sort is stable: an item that comes last and is ranked no lower
    than the others stays last. *)
Lemma insert_by_snoc f y l x :
  f y ≤ f x → PyDict.insert_by f y (l ++ [x]) = PyDict.insert_by f y l ++ [x].
Proof.
  intros Hle. induction l as [|z l IH]; cbn.
  - by replace (f y <=? f x) with true by (symmetry; apply Z.leb_le; lia).
  - destruct (f y <=? f z); [done|]. by rewrite IH.
Qed.

Lemma sorted_snoc f l x :
  (∀ y, y ∈ l → f y ≤ f x) → PyDict.sorted f (l ++ [x]) = PyDict.sorted f l ++ [x].
Proof.
  induction l as [|y l IH]; intros Hmax; [done|].
  change (PyDict.sorted f ((y :: l) ++ [x]))
    with (PyDict.insert_by f y (PyDict.sorted f (l ++ [x]))).
  rewrite IH by (intros z Hz; apply Hmax; by right).
  apply insert_by_snoc, Hmax. by left.
Qed.

Lemma last_n_snoc n l x : (0 < n)%nat → x ∈ PyDict.last_n n (l ++ [x]).
Proof.
  intros Hn. unfold PyDict.last_n.
  rewrite drop_app_le by (rewrite length_app; cbn; lia).
  apply elem_of_app. right. by apply list_elem_of_singleton.
Qed.
End dict_facts.

(** ** Cache *)

Section cleanup_facts.
Import CacheManager.
Context {V : Type}.
Implicit Types (c : list (string * (V * Z))).

Lemma elem_of_cleanup now ttl c x :
  x ∈ cleanup now ttl c → x ∈ c ∧ now - stamp x < ttl.
Proof.
  unfold cleanup. intros Hx.
  assert (x ∈ unexpired now ttl c) as Hin.
  { case_match; [|done].
    pose proof (elem_of_sublist _ _ _ Hx (last_n_sublist 800 _)) as Hx'.
    by rewrite sorted_perm in Hx'. }
  apply list_elem_of_filter in Hin. tauto.
Qed.

Lemma NoDup_cleanup now ttl c : NoDup c.*1 → NoDup (cleanup now ttl c).*1.
Proof.
  intros Hc. unfold cleanup.
  assert (NoDup (unexpired now ttl c).*1) as Hlive.
  { eapply sublist_NoDup; [exact Hc|]. apply fmap_sublist, sublist_filter. }
  case_match; [|done].
  eapply sublist_NoDup; [|apply fmap_sublist, last_n_sublist].
  by rewrite sorted_perm.
Qed.

Lemma length_cleanup now ttl c : (length (cleanup now ttl c) ≤ 800)%nat.
Proof.
  unfold cleanup. case_match eqn:Hlen.
  - rewrite length_last_n. lia.
  - apply Nat.ltb_ge in Hlen. done.
Qed.

(** The second pass: what it evicts is no newer than what it keeps. *)
Lemma cleanup_evicts_oldest now ttl c :
  ∃ evicted,
    unexpired now ttl c ≡ₚ evicted ++ cleanup now ttl c
    ∧ ((length (unexpired now ttl c) ≤ 800)%nat → evicted = [])
    ∧ ((800 < length (unexpired now ttl c))%nat →
       length (cleanup now ttl c) = 800%nat)
    ∧ ∀ old kept, old ∈ evicted → kept ∈ cleanup now ttl c →
        stamp old ≤ stamp kept.
Proof.
  unfold cleanup. fold (unexpired now ttl c).
  destruct (800 <? length (unexpired now ttl c))%nat eqn:Hlen.
  - apply Nat.ltb_lt in Hlen.
    set (l := PyDict.sorted stamp (unexpired now ttl c)).
    exists (take (length l - 800) l). repeat split.
    + rewrite <- last_n_split. symmetry. apply sorted_perm.
    + lia.
    + intros _. rewrite length_last_n. unfold l.
      rewrite (Permutation_length (sorted_perm _ _)). lia.
    + intros old kept Hold Hkept.
      pose proof (sorted_sorted stamp (unexpired now ttl c)) as Hs.
      fold l in Hs. rewrite (last_n_split 800 l) in Hs.
      exact (StronglySorted_app_1_elem_of _ _ _ old kept Hs Hold Hkept).
  - apply Nat.ltb_ge in Hlen. exists []. repeat split; try done; try lia.
    intros old kept Hold. by apply elem_of_nil in Hold.
Qed.

Lemma lookup_Some_elem_of (k : string) (v : V * Z) c :
  PyDict.lookup k c = Some v → (k, v) ∈ c.
Proof.
  induction c as [|[k' v'] c IH]; [done|]. cbn.
  case_decide as Hk; [intros [= ->]; subst; apply elem_of_cons; auto|].
  intros Hl. apply elem_of_cons. right. by apply IH.
Qed.
End cleanup_facts.

Section cache_facts.
Import CacheManager.
Context {V Opts : Type}.
Variable cfg : Config.
Variable json_dumps : Opts -> string.
Variable empty_dict : Opts.
Implicit Types (c : list (string * (V * Z))) (self : state V).

(** Every [set] leaves the cache within the soft cap. *)
Lemma set_bounded url value options now now' self :
  (length (cache self) ≤ 1000)%nat →
  (length (cache (set cfg json_dumps empty_dict url value options now now' self))
   ≤ 1000)%nat.
Proof.
  intros Hlen. unfold set. destruct (ENABLE_CACHE cfg); cbn [negb]; [|done].
  case_match eqn:Hbig; cbn [cache].
  - etrans; [apply length_cleanup | lia].
  - by apply Nat.ltb_ge in Hbig.
Qed.

(** What is cached after a [set] was in the dictionary just after the
    assignment. *)
Lemma elem_of_set url value options now now' self x :
  ENABLE_CACHE cfg = true →
  x ∈ cache (set cfg json_dumps empty_dict url value options now now' self) →
  x ∈ PyDict.assign (_get_cache_key json_dumps empty_dict url options)
        (value, now) (cache self).
Proof.
  intros Hon. unfold set. rewrite Hon. cbn [negb].
  case_match; cbn [cache]; [|done]. by intros [Hx _]%elem_of_cleanup.
Qed.

Lemma NoDup_set url value options now now' self :
  NoDup (cache self).*1 →
  NoDup (cache (set cfg json_dumps empty_dict url value options now now' self)).*1.
Proof.
  intros Hd. unfold set. destruct (ENABLE_CACHE cfg); cbn [negb]; [|done].
  case_match; cbn [cache].
  - by apply NoDup_cleanup, NoDup_assign.
  - by apply NoDup_assign.
Qed.

(** After a [set] the key holds the new value with its timestamp, if it
    holds anything. *)
Lemma lookup_set url value options now now' self item :
  ENABLE_CACHE cfg = true →
  NoDup (cache self).*1 →
  PyDict.lookup (_get_cache_key json_dumps empty_dict url options)
    (cache (set cfg json_dumps empty_dict url value options now now' self))
    = Some item →
  item = (value, now).
Proof.
  intros Hon Hd Hl. apply lookup_Some_elem_of, elem_of_set in Hl; [|done].
  apply (lookup_elem_of _ _ _ (NoDup_assign _ (value, now) _ Hd)) in Hl.
  rewrite lookup_assign_eq in Hl. congruence.
Qed.

(** A [set] whose entry is newer than all others and unexpired at the
    clean-up keeps that entry. *)
Lemma set_keeps_new_entry url value options now now' self :
  ENABLE_CACHE cfg = true →
  NoDup (cache self).*1 →
  Forall (λ item, stamp item < now) (cache self) →
  now' - now < ttl self →
  PyDict.lookup (_get_cache_key json_dumps empty_dict url options)
    (cache (set cfg json_dumps empty_dict url value options now now' self))
    = Some (value, now).
Proof.
  intros Hon Hd Hold Hfresh.
  apply lookup_elem_of; [by apply NoDup_set|].
  unfold set. rewrite Hon. cbn [negb].
  set (key := _get_cache_key json_dumps empty_dict url options).
  set (c := PyDict.assign key (value, now) (cache self)).
  assert ((key, (value, now)) ∈ c) as Hin by apply elem_of_assign_eq.
  case_match; cbn [cache]; [|done].
  assert ((key, (value, now)) ∈ unexpired now' (ttl self) c) as Hlive
    by (apply list_elem_of_filter; done).
  unfold cleanup. fold (unexpired now' (ttl self) c). case_match; [|done].
  apply strict_max_in_last_n; [lia | done |].
  intros y [_ Hy]%list_elem_of_filter.
  apply elem_of_assign in Hy as [->|Hy]; [by left|]. right.
  rewrite Forall_forall in Hold. apply (Hold y Hy).
Qed.
End cache_facts.

Section cache_more_facts.
Import CacheManager.
Context {V Opts : Type}.
Variable cfg : Config.
Variable json_dumps : Opts -> string.
Variable empty_dict : Opts.
Implicit Types (c : list (string * (V * Z))) (self : state V).

Lemma ttl_set url value options now now' self :
  ttl (set cfg json_dumps empty_dict url value options now now' self) = ttl self.
Proof. unfold set. destruct (negb _); [done|]. cbv zeta. by destruct (_ <? _)%nat. Qed.

Lemma ttl_get url options now self :
  ttl (get cfg json_dumps empty_dict url options now self).2 = ttl self.
Proof.
  unfold get. destruct (negb _); [done|]. cbv zeta.
  destruct (PyDict.lookup _ _) as [[v t]|]; [|done]. by destruct (_ <? _).
Qed.

(** A [get] answers from the entry of the key. *)
Lemma get_lookup url options now self :
  ENABLE_CACHE cfg = true →
  (get cfg json_dumps empty_dict url options now self).1
  = match PyDict.lookup (_get_cache_key json_dumps empty_dict url options) (cache self) with
    | Some (value, timestamp) => if now - timestamp <? ttl self then Some value else None
    | None => None
    end.
Proof.
  intros Hen. unfold get. rewrite Hen. cbn [negb]. cbv zeta.
  destruct (PyDict.lookup _ _) as [[v t]|]; [|done]. by destruct (_ <? _).
Qed.

Lemma elem_of_del (k : string) c x : x ∈ PyDict.del k c → x ∈ c.
Proof. unfold PyDict.del. by intros [_ ?]%list_elem_of_filter. Qed.

Lemma NoDup_del (k : string) c : NoDup c.*1 → NoDup (PyDict.del k c).*1.
Proof.
  intros Hnd. eapply sublist_NoDup; [exact Hnd|].
  apply fmap_sublist. unfold PyDict.del. apply sublist_filter.
Qed.

Lemma length_del (k : string) c : (length (PyDict.del k c) ≤ length c)%nat.
Proof. apply length_filter. Qed.

Lemma elem_of_get url options now self x :
  x ∈ cache (get cfg json_dumps empty_dict url options now self).2 → x ∈ cache self.
Proof.
  unfold get. destruct (negb _); [done|]. cbv zeta.
  destruct (PyDict.lookup _ _) as [[v t]|]; [|done].
  destruct (_ <? _); [done|]. cbn. apply elem_of_del.
Qed.

Lemma lookup_assign_ne (k k' : string) (v : V * Z) c :
  k ≠ k' → PyDict.lookup k' (PyDict.assign k v c) = PyDict.lookup k' c.
Proof.
  intros Hne. induction c as [|[k0 v0] c IH]; cbn.
  - by rewrite decide_False.
  - destruct (decide (k = k0)) as [->|]; cbn.
    + by rewrite !decide_False.
    + destruct (decide (k' = k0)); [done | apply IH].
Qed.
End cache_more_facts.

Section cache_state_facts.
Import CacheManager CacheStates.
Context {V Opts : Type}.
Variable cfg : Config.
Variable json_dumps : Opts -> string.
Variable empty_dict : Opts.

Lemma reachable_at_inv t (self : state V) :
  reachable_at cfg json_dumps empty_dict t self →
  NoDup (cache self).*1
  ∧ (length (cache self) ≤ 1000)%nat
  ∧ Forall (λ item, stamp item ≤ t) (cache self).
Proof.
  induction 1 as [ttl_seconds t | t self url options now _ (Hnd & Hlen & Hst) Ht
                 | t self url value options now now' _ (Hnd & Hlen & Hst) Ht Ht'
                 | t self _ _].
  - cbn. repeat split; [constructor | lia | constructor].
  - repeat split.
    + unfold get. destruct (negb _); [done|]. cbv zeta.
      destruct (PyDict.lookup _ _) as [[v t0]|]; [|done].
      destruct (_ <? _); [done|]. by apply NoDup_del.
    + unfold get. destruct (negb _); [done|]. cbv zeta.
      destruct (PyDict.lookup _ _) as [[v t0]|]; [|done].
      destruct (_ <? _); [done|]. cbn. etrans; [apply length_del | done].
    + apply Forall_forall. intros x Hx%elem_of_get.
      rewrite Forall_forall in Hst. specialize (Hst x Hx). lia.
  - repeat split.
    + by apply NoDup_set.
    + by apply set_bounded.
    + apply Forall_forall. intros x Hx. rewrite Forall_forall in Hst.
      destruct (ENABLE_CACHE cfg) eqn:Hen.
      * apply elem_of_set, elem_of_assign in Hx as [->|Hx]; [cbn; lia | | done].
        specialize (Hst x Hx). lia.
      * unfold set in Hx. rewrite Hen in Hx. specialize (Hst x Hx). lia.
  - cbn. repeat split; [constructor | lia | constructor].
Qed.
End cache_state_facts.

Section cache_latest_facts.
Import CacheManager CacheStates.
Context {V Opts : Type}.
Variable cfg : Config.
Variable json_dumps : Opts -> string.
Variable empty_dict : Opts.
Implicit Types (c : list (string * (V * Z))) (self : state V).

(** A [set] keeps its own entry when no entry carries a later stamp and
    the clean-up, if there is one, comes before the entry expires: a
    key that was there keeps the cache within the cap, and a new key is
    the last of the newest entries. *)
Lemma set_keeps_latest_entry url value options now now' self :
  ENABLE_CACHE cfg = true →
  NoDup (cache self).*1 →
  (length (cache self) ≤ 1000)%nat →
  Forall (λ item, stamp item ≤ now) (cache self) →
  now' - now < ttl self →
  PyDict.lookup (_get_cache_key json_dumps empty_dict url options)
    (cache (set cfg json_dumps empty_dict url value options now now' self))
    = Some (value, now).
Proof.
  intros Hon Hd Hlen Hold Hfresh.
  apply lookup_elem_of; [by apply NoDup_set|].
  unfold set. rewrite Hon. cbn [negb].
  set (key := _get_cache_key json_dumps empty_dict url options).
  destruct (decide (key ∈ (cache self).*1)) as [Hin|Hnew].
  - rewrite (length_assign_in key (value, now) (cache self) Hin).
    replace (1000 <? length (cache self))%nat with false
      by (symmetry; apply Nat.ltb_ge; lia).
    cbn [cache]. apply elem_of_assign_eq.
  - rewrite (assign_new key (value, now) (cache self) Hnew).
    case_match; cbn [cache]; [|apply elem_of_app; right; by apply list_elem_of_singleton].
    unfold cleanup. rewrite filter_app, filter_cons_True by done.
    rewrite filter_nil.
    case_match; [|apply elem_of_app; right; by apply list_elem_of_singleton].
    rewrite sorted_snoc; [apply last_n_snoc; lia|].
    intros y [_ Hy]%list_elem_of_filter.
    rewrite Forall_forall in Hold. apply (Hold y Hy).
Qed.

(** With caching switched off nothing is ever stored. *)
Lemma reachable_at_disabled t self :
  ENABLE_CACHE cfg = false →
  reachable_at cfg json_dumps empty_dict t self →
  cache self = [].
Proof.
  intros Hoff. induction 1 as [| t self url options now _ IH _
                                | t self url value options now now' _ IH _ _ |].
  - done.
  - unfold get. by rewrite Hoff.
  - unfold set. by rewrite Hoff.
  - done.
Qed.
End cache_latest_facts.

(** C6, as amended.  In a cache used through [get], [set] and [clear]
    (its latest clock reading is [t0]), for every url, options and
    value stored by a [set] that reads the clock at [now] and, for the
    clean-up, at [now']: with caching enabled ([Config.ENABLE_CACHE])
    and a clock that has not gone back ([t0 <= now], and the [get]
    reads [t >= now']), a [get] of the same url and options made less
    than [ttl] after the insertion returns the stored value and leaves
    the cache as it is; and a [get] made [ttl] or more after the
    insertion returns nothing and leaves the key out of the cache. *)
Theorem cache_round_trip_and_expiry {V Opts : Type} (cfg : Config)
  (json_dumps : Opts → string) (empty_dict : Opts)
  (url : string) (value : V) (options : option Opts)
  (t0 now now' t t' : Z) (self : CacheManager.state V) :
  CacheStates.reachable_at cfg json_dumps empty_dict t0 self →
  (ENABLE_CACHE cfg = true →
   t0 ≤ now →
   now' ≤ t →
   t - now < CacheManager.ttl self →
   CacheManager.get cfg json_dumps empty_dict url options t
     (CacheManager.set cfg json_dumps empty_dict url value options now now' self)
   = (Some value,
      CacheManager.set cfg json_dumps empty_dict url value options now now' self))
  ∧ (CacheManager.ttl self ≤ t' - now →
     (CacheManager.get cfg json_dumps empty_dict url options t'
        (CacheManager.set cfg json_dumps empty_dict url value options now now' self)).1
     = None
     ∧ PyDict.lookup (CacheManager._get_cache_key json_dumps empty_dict url options)
         (CacheManager.cache
            (CacheManager.get cfg json_dumps empty_dict url options t'
               (CacheManager.set cfg json_dumps empty_dict url value options
                  now now' self)).2)
       = None).
Proof.
  intros Hreach.
  pose proof (reachable_at_inv cfg json_dumps empty_dict t0 self Hreach)
    as (Hd & Hlen & Hst).
  split.
  - intros Hon Ht0 Hnow' Hlive.
    unfold CacheManager.get. rewrite Hon. cbn [negb].
    rewrite (set_keeps_latest_entry cfg json_dumps empty_dict url value options
               now now' self Hon Hd Hlen); [| |lia].
    + rewrite ttl_set.
      by replace (t - now <? CacheManager.ttl self) with true
        by (symmetry; apply Z.ltb_lt; lia).
    + eapply Forall_impl; [exact Hst|]. cbn. intros x ?. lia.
  - intros Hstale. destruct (ENABLE_CACHE cfg) eqn:Hon.
    + unfold CacheManager.get. rewrite Hon. cbn [negb].
      destruct (PyDict.lookup _ _) as [[v ts]|] eqn:Hl; [|done].
      apply lookup_set in Hl as [= -> ->]; [|done..].
      rewrite ttl_set.
      replace (t' - now <? CacheManager.ttl self) with false
        by (symmetry; apply Z.ltb_ge; lia).
      split; [done|]. apply lookup_del_eq.
    + unfold CacheManager.get, CacheManager.set. rewrite Hon. cbn [negb fst snd].
      split; [done|].
      by rewrite (reachable_at_disabled cfg json_dumps empty_dict t0 self Hon Hreach).
Qed.

Lemma cache_round_trip_and_expiry_witness :
  CacheManager.get default_config Samples.dumps_empty () "https://example.com"
    None 1500000
    (CacheManager.set default_config Samples.dumps_empty () "https://example.com"
       7%nat None 1000 1001 Samples.small_cache)
  = (Some 7%nat,
     CacheManager.set default_config Samples.dumps_empty () "https://example.com"
       7%nat None 1000 1001 Samples.small_cache)
  ∧ (CacheManager.get default_config Samples.dumps_empty () "https://example.com"
       None 300001000
       (CacheManager.set default_config Samples.dumps_empty () "https://example.com"
          7%nat None 1000 1001 Samples.small_cache)).1 = None
  ∧ PyDict.lookup
      (CacheManager._get_cache_key Samples.dumps_empty () "https://example.com" None)
      (CacheManager.cache
         (CacheManager.get default_config Samples.dumps_empty ()
            "https://example.com" None 300001000
            (CacheManager.set default_config Samples.dumps_empty ()
               "https://example.com" 7%nat None 1000 1001 Samples.small_cache)).2)
    = None.
Proof.
  assert (CacheStates.reachable_at default_config Samples.dumps_empty () 21
            Samples.small_cache) as Hreach.
  { unfold Samples.small_cache.
    apply (CacheStates.reach_set default_config Samples.dumps_empty () 11 _
             "https://example.org" 2%nat None 20 21); [|lia|lia].
    apply (CacheStates.reach_set default_config Samples.dumps_empty () 0 _
             "https://example.net" 1%nat None 10 11); [|lia|lia].
    apply CacheStates.reach_init. }
  destruct (cache_round_trip_and_expiry default_config Samples.dumps_empty ()
              "https://example.com" 7%nat None 21 1000 1001 1500000 300001000
              Samples.small_cache Hreach) as [Hround Hexpiry].
  split.
  - apply Hround; [reflexivity | lia | lia | by vm_compute].
  - apply Hexpiry. by vm_compute.
Defined.

(** C6 as stated fails in three ways.  When caching is switched off,
    [set] stores nothing and the [get] that follows returns nothing.
    When the time to live is 0 ([MCP_CACHE_TTL=0]), the entry is stale
    as soon as it is stored: a [get] at the very reading of the [set]
    returns nothing.  And when the clock has gone back, the clean-up
    evicts the entry just stored: in a cache of 1000 pages stored at
    readings 0 to 999, the page stored at reading -1 is the oldest of
    1001, so it is cut off with the 201 oldest and the [get] that
    follows at once returns nothing. *)
Lemma cache_round_trip_counterexample :
  CacheManager.get Samples.config_cache_off Samples.dumps_empty ()
    "https://example.com" None 1
    (CacheManager.set Samples.config_cache_off Samples.dumps_empty ()
       "https://example.com" 7%nat None 0 0 (CacheManager.init 300))
  = (None, CacheManager.init 300)
  ∧ (CacheManager.get default_config Samples.dumps_empty ()
       "https://example.com" None 0
       (CacheManager.set default_config Samples.dumps_empty ()
          "https://example.com" 7%nat None 0 0 (CacheManager.init 0))).1
    = None
  ∧ length (CacheManager.cache Samples.full_cache) = 1000%nat
  ∧ (CacheManager.get default_config Samples.dumps_empty ()
       "https://example.com" None (-1)
       (CacheManager.set default_config Samples.dumps_empty ()
          "https://example.com" 7%nat None (-1) (-1) Samples.full_cache)).1
    = None.
Proof.
  split; [reflexivity|]. split; [reflexivity|].
  split; vm_compute; reflexivity.
Qed.

(** C7.  Whenever an insertion takes the number of entries above 1000,
    the clean-up it triggers leaves at most 1000 entries (at most 800,
    in fact): no stale entry remains; if more than 800 unexpired entries
    were there, exactly 800 are kept; and every unexpired entry that was
    removed carries a timestamp no later than that of every entry kept. *)
Theorem cache_cleanup_bound {V Opts : Type} (cfg : Config)
  (json_dumps : Opts → string) (empty_dict : Opts)
  (url : string) (value : V) (options : option Opts)
  (now now' : Z) (self : CacheManager.state V) :
  ENABLE_CACHE cfg = true →
  (1000 < length (PyDict.assign
     (CacheManager._get_cache_key json_dumps empty_dict url options)
     (value, now) (CacheManager.cache self)))%nat →
  let inserted :=
    PyDict.assign (CacheManager._get_cache_key json_dumps empty_dict url options)
      (value, now) (CacheManager.cache self) in
  let after :=
    CacheManager.cache
      (CacheManager.set cfg json_dumps empty_dict url value options now now' self) in
  (length after ≤ 1000)%nat
  ∧ (length after ≤ 800)%nat
  ∧ (∀ item, item ∈ after → now' - CacheManager.stamp item < CacheManager.ttl self)
  ∧ ∃ evicted,
      CacheManager.unexpired now' (CacheManager.ttl self) inserted ≡ₚ evicted ++ after
      ∧ ((length (CacheManager.unexpired now' (CacheManager.ttl self) inserted)
          ≤ 800)%nat →
         evicted = [])
      ∧ ((800 < length (CacheManager.unexpired now' (CacheManager.ttl self)
                          inserted))%nat →
         length after = 800%nat)
      ∧ ∀ old kept, old ∈ evicted → kept ∈ after →
          CacheManager.stamp old ≤ CacheManager.stamp kept.
Proof.
  intros Hon Hbig inserted after. subst after. unfold CacheManager.set.
  rewrite Hon. cbn [negb]. fold inserted.
  replace (1000 <? length inserted)%nat with true
    by (symmetry; by apply Nat.ltb_lt).
  cbn [CacheManager.cache].
  pose proof (length_cleanup now' (CacheManager.ttl self) inserted) as Hlen.
  split; [lia|]. split; [done|]. split.
  - intros item Hitem. by apply elem_of_cleanup in Hitem as [_ ?].
  - apply cleanup_evicts_oldest.
Qed.

Lemma cache_cleanup_bound_witness :
  ENABLE_CACHE default_config = true
  ∧ (1000 < length (PyDict.assign
       (CacheManager._get_cache_key Samples.dumps_empty () "https://example.com" None)
       (7%nat, 1000%Z) (CacheManager.cache Samples.full_cache)))%nat
  ∧ (length (CacheManager.cache
       (CacheManager.set default_config Samples.dumps_empty () "https://example.com"
          7%nat None 1000 1001 Samples.full_cache)) ≤ 1000)%nat.
Proof.
  assert (1000 < length (PyDict.assign
       (CacheManager._get_cache_key Samples.dumps_empty () "https://example.com" None)
       (7%nat, 1000%Z) (CacheManager.cache Samples.full_cache)))%nat as Hbig
    by (apply Nat.ltb_lt; vm_compute; reflexivity).
  split; [reflexivity|]. split; [exact Hbig|].
  exact (proj1 (cache_cleanup_bound default_config Samples.dumps_empty ()
                  "https://example.com" 7%nat None 1000 1001 Samples.full_cache
                  eq_refl Hbig)).
Defined.

(** ** Session registry *)

Section session_facts.
Import AuthSessionManager.
Implicit Types (s : state) (id : string) (l : positive)
  (h : gmap positive ClientSession).

Lemma is_closed_close l l' h :
  is_closed (close l h) l' = bool_decide (l = l') || is_closed h l'.
Proof.
  unfold is_closed, close. rewrite lookup_alter. case_bool_decide as Hl.
  - subst l'. rewrite decide_True by done. by destruct (h !! l).
  - by rewrite decide_False.
Qed.

Lemma is_Some_close l l' h : is_Some (close l h !! l') ↔ is_Some (h !! l').
Proof.
  unfold close. rewrite lookup_alter. case_decide; [|done].
  subst. by rewrite fmap_is_Some.
Qed.

Lemma live_heap s l : live s l → is_Some (heap s !! l).
Proof. unfold live, is_closed. destruct (heap s !! l); [eauto | done]. Qed.

Lemma create_session_fresh id s : heap s !! (create_session id s).1 = None.
Proof. apply not_elem_of_dom, is_fresh. Qed.

(** The client handed out is registered under the id and open. *)
Lemma get_or_create_session_live id s :
  _sessions (get_or_create_session id s).2 !! id
    = Some (get_or_create_session id s).1
  ∧ live (get_or_create_session id s).2 (get_or_create_session id s).1.
Proof.
  assert (_sessions (create_session id s).2 !! id = Some (create_session id s).1
          ∧ live (create_session id s).2 (create_session id s).1) as Hnew.
  { unfold create_session, live, is_closed. cbn.
    by rewrite !lookup_insert_eq. }
  unfold get_or_create_session.
  destruct (_sessions s !! id) as [l|] eqn:Hl; [|done].
  destruct (is_closed (heap s) l) eqn:Hc; done.
Qed.

Lemma get_or_create_session_twice id s :
  get_or_create_session id (get_or_create_session id s).2
  = get_or_create_session id s.
Proof.
  destruct (get_or_create_session_live id s) as [Hreg Hlive].
  destruct (get_or_create_session id s) as [l s1]. cbn in *.
  unfold get_or_create_session. by rewrite Hreg, Hlive.
Qed.

(** A step that closes neither the client nor its session leaves the
    client registered and open. *)
Lemma step_keeping_registered id l (s1 s2 : state) :
  step_keeping l s1 s2 →
  _sessions s1 !! id = Some l ∧ live s1 l →
  _sessions s2 !! id = Some l ∧ live s2 l.
Proof.
  intros Hstep [Hreg Hlive].
  destruct Hstep as [id' s | id' s | id' s Hother | l' s Hne | l' n v s].
  - unfold get_or_create_session.
    assert (id' ≠ id ∨ _sessions s !! id' = Some l) as Hcase
      by (destruct (decide (id' = id)) as [->|]; auto).
    destruct (_sessions s !! id') as [l0|] eqn:Hid'.
    + destruct (is_closed (heap s) l0) eqn:Hc; [|done].
      destruct Hcase as [Hne|[= ->]]; [|unfold live in Hlive; congruence].
      unfold create_session, live, is_closed. cbn.
      rewrite lookup_insert_ne by done. split; [done|].
      rewrite lookup_insert_ne; [done|]. intros Heq.
      apply live_heap in Hlive as [c Hc']. rewrite <- Heq in Hc'.
      pose proof (is_fresh (dom (heap s))) as Hf.
      apply not_elem_of_dom in Hf. congruence.
    + destruct Hcase as [Hne|?]; [|done].
      unfold create_session, live, is_closed. cbn.
      rewrite lookup_insert_ne by done. split; [done|].
      rewrite lookup_insert_ne; [done|]. intros Heq.
      apply live_heap in Hlive as [c Hc']. rewrite <- Heq in Hc'.
      pose proof (is_fresh (dom (heap s))) as Hf.
      apply not_elem_of_dom in Hf. congruence.
  - unfold save_cookies. by destruct (_sessions s !! id').
  - unfold close_session. destruct (_sessions s !! id') as [l0|] eqn:Hid'; [|done].
    assert (l0 ≠ l) as Hne by congruence.
    assert (id' ≠ id) as Hne' by congruence.
    unfold live. cbn [heap _sessions]. rewrite lookup_delete_ne by done.
    split; [done|]. rewrite is_closed_close, bool_decide_eq_false_2 by done. done.
  - unfold client_close, live. cbn [heap _sessions]. split; [done|].
    rewrite is_closed_close, bool_decide_eq_false_2 by done. done.
  - unfold client_set_cookie, live, is_closed. cbn [heap _sessions].
    split; [done|]. rewrite lookup_alter. unfold live, is_closed in Hlive.
    case_decide; [|done]. subst. by destruct (heap s !! l).
Qed.

(** However many such steps intervene, the id yields the same client. *)
Lemma get_or_create_session_again id l (s1 s2 : state) :
  rtc (step_keeping l) s1 s2 →
  _sessions s1 !! id = Some l ∧ live s1 l →
  get_or_create_session id s2 = (l, s2).
Proof.
  intros Hsteps Hreg.
  assert (_sessions s2 !! id = Some l ∧ live s2 l) as [Hreg2 Hlive2].
  { induction Hsteps as [|s1 s s2 Hstep _ IH]; [done|].
    apply IH. by eapply step_keeping_registered. }
  unfold get_or_create_session. by rewrite Hreg2, Hlive2.
Qed.

(** Closing an id whose session is missing or already closed changes
    the liveness of no client. *)
Lemma close_session_not_live id s l' :
  (∀ l, _sessions s !! id = Some l → ¬ live s l) →
  live (close_session id s) l' ↔ live s l'.
Proof.
  intros Hdead. unfold close_session.
  destruct (_sessions s !! id) as [l|] eqn:Hid; [|done].
  unfold live. cbn [heap]. rewrite is_closed_close.
  specialize (Hdead l eq_refl). unfold live in Hdead.
  destruct (decide (l = l')) as [->|Hne].
  - rewrite bool_decide_eq_true_2 by done. cbn.
    destruct (is_closed (heap s) l'); [done|]. by destruct Hdead.
  - by rewrite bool_decide_eq_false_2.
Qed.

Lemma close_session_absent id s :
  _sessions s !! id = None → close_session id s = s.
Proof. intros Hid. unfold close_session. by rewrite Hid. Qed.

Lemma close_session_unregisters id s : _sessions (close_session id s) !! id = None.
Proof.
  unfold close_session. destruct (_sessions s !! id) eqn:Hid; [|done].
  apply lookup_delete_eq.
Qed.

Lemma close_session_heap id s l :
  is_Some (heap s !! l) → is_Some (heap (close_session id s) !! l).
Proof.
  unfold close_session. destruct (_sessions s !! id); [|done]. cbn.
  by rewrite is_Some_close.
Qed.

Lemma close_session_closes id s l :
  _sessions s !! id = Some l → is_closed (heap (close_session id s)) l = true.
Proof.
  intros Hid. unfold close_session. rewrite Hid. cbn.
  rewrite is_closed_close. by rewrite bool_decide_eq_true_2.
Qed.

(** [close_all] closes every registered client and opens none. *)
Lemma close_all_closed (sessions : gmap string positive) h l :
  ((∃ id, sessions !! id = Some l) ∨ is_closed h l = true) →
  is_closed (map_fold (λ _ l h, close l h) h sessions) l = true.
Proof.
  revert l. apply (map_fold_weak_ind (λ r m, ∀ l,
    (∃ id, m !! id = Some l) ∨ is_closed h l = true → is_closed r l = true)).
  - intros l [[id Hid]|Hc]; [by rewrite lookup_empty in Hid | done].
  - intros id l0 m r Hfresh IH l Hl. rewrite is_closed_close.
    destruct (decide (l0 = l)) as [->|Hne]; [by rewrite bool_decide_eq_true_2|].
    rewrite bool_decide_eq_false_2 by done. cbn. apply IH.
    destruct Hl as [[id' Hid']|Hc]; [|by right]. left. exists id'.
    rewrite lookup_insert in Hid'. case_decide; [congruence | done].
Qed.

(** Replacing an entry that is absent or closed by a new client keeps
    the registry in order. *)
Lemma registry_inv_create id s :
  registry_inv s →
  (∀ l, _sessions s !! id = Some l → is_closed (heap s) l = true) →
  registry_inv (create_session id s).2.
Proof.
  intros (Hwf & Hlive & Hinj) Hold.
  pose proof (create_session_fresh id s) as Hfresh.
  unfold create_session in *. cbn [fst snd] in *.
  set (l1 := fresh (dom (heap s))) in *.
  assert (∀ id' l', _sessions s !! id' = Some l' → l' ≠ l1) as Hne.
  { intros id' l' Hl' ->. apply Hwf in Hl' as [c Hc]. congruence. }
  repeat split; cbn [heap _sessions].
  - intros id' l'. rewrite lookup_insert. case_decide.
    + intros [= <-]. rewrite lookup_insert_eq. eauto.
    + intros Hl'. rewrite lookup_insert_ne by (symmetry; by eapply Hne). eauto.
  - intros l'. unfold live, is_closed. cbn [heap]. rewrite lookup_insert.
    case_decide as Hl1.
    + subst. intros _. exists id. apply lookup_insert_eq.
    + intros Hl'. destruct (Hlive l' Hl') as [id' Hid']. exists id'.
      rewrite lookup_insert_ne; [done|]. intros <-.
      apply Hold in Hid'. unfold is_closed in Hid'. congruence.
  - intros id1 id2 l'. rewrite !lookup_insert.
    repeat case_decide; intros H1 H2; simplify_eq; try done.
    + exfalso. by eapply Hne.
    + exfalso. by eapply Hne.
    + by eapply Hinj.
Qed.

Lemma registry_inv_step (s1 s2 : state) :
  registry_inv s1 → step s1 s2 → registry_inv s2.
Proof.
  intros Hinv Hstep. destruct Hstep as
    [id s | id s | id s | s | l0 s | l0 n v s].
  all: destruct Hinv as (Hwf & Hlive & Hinj).
  - (* get_or_create_session *)
    unfold get_or_create_session.
    destruct (_sessions s !! id) as [l|] eqn:Hid;
      [destruct (is_closed (heap s) l) eqn:Hc; [|done]|].
    all: apply registry_inv_create; [done|].
    all: intros l' Hl'; congruence.
  - (* save_cookies *)
    unfold save_cookies. by destruct (_sessions s !! id).
  - (* close_session *)
    unfold close_session. destruct (_sessions s !! id) as [l|] eqn:Hid; [|done].
    repeat split; cbn [heap _sessions].
    + intros id' l' [_ Hl']%lookup_delete_Some. rewrite is_Some_close. eauto.
    + intros l'. unfold live. cbn [heap]. rewrite is_closed_close.
      intros [Hne Hl']%orb_false_elim. apply bool_decide_eq_false in Hne.
      destruct (Hlive l' Hl') as [id' Hid']. exists id'.
      rewrite lookup_delete_ne; [done | congruence].
    + intros id1 id2 l' [_ H1]%lookup_delete_Some [_ H2]%lookup_delete_Some.
      eauto.
  - (* close_all *)
    unfold close_all. repeat split; cbn [heap _sessions].
    + intros id l Hl. by rewrite lookup_empty in Hl.
    + intros l. unfold live. cbn [heap].
      destruct (is_closed (heap s) l) eqn:Hc.
      * rewrite close_all_closed; [done | by right].
      * rewrite close_all_closed; [done | left; by apply Hlive].
    + intros id1 id2 l Hl. by rewrite lookup_empty in Hl.
  - (* a holder closes its client *)
    unfold client_close. repeat split; cbn [heap _sessions]; [| |done].
    + intros id l Hl. rewrite is_Some_close. eauto.
    + intros l. unfold live. cbn [heap]. rewrite is_closed_close.
      intros [_ Hl]%orb_false_elim. by apply Hlive.
  - (* cookies set in a client's jar *)
    unfold client_set_cookie. repeat split; cbn [heap _sessions]; [| |done].
    + intros id l Hl. rewrite lookup_alter. case_decide; [|eauto].
      subst. rewrite fmap_is_Some. eauto.
    + intros l. unfold live, is_closed. cbn [heap]. rewrite lookup_alter.
      intros Hl. apply Hlive. unfold live, is_closed.
      case_decide; [|done]. subst. by destruct (heap s !! l).
Qed.

Lemma reachable_registry_inv s : reachable s → registry_inv s.
Proof.
  unfold reachable. revert s. apply rtc_ind_r.
  - unfold init. repeat split; cbn [heap _sessions].
    + intros id l Hl. by rewrite lookup_empty in Hl.
    + intros l. unfold live, is_closed. cbn [heap]. by rewrite lookup_empty.
    + intros id1 id2 l Hl. by rewrite lookup_empty in Hl.
  - intros s1 s2 _ Hstep IH. by eapply registry_inv_step.
Qed.
End session_facts.

(** C9.  For every session id and every state of the manager:
    [get_or_create_session] called again with the same id, after any
    number of steps that close neither the client nor its session,
    returns the same client and changes nothing; after [close_session],
    [get_or_create_session] with the same id returns a client that did
    not exist before, is open, and differs from the first one, which is
    closed; [close_session] on an id that is not registered changes
    nothing, on an id whose session is not live it changes the liveness
    of no client, and closing twice is closing once; and in every state
    the manager can reach, each live client is registered under exactly
    one id, so that an id has at most one live client. *)
Theorem session_pool_identity (session_id : string) (s : AuthSessionManager.state) :
  (let c1 := (AuthSessionManager.get_or_create_session session_id s).1 in
   let s1 := (AuthSessionManager.get_or_create_session session_id s).2 in
   ∀ s2, rtc (AuthSessionManager.step_keeping c1) s1 s2 →
         AuthSessionManager.get_or_create_session session_id s2 = (c1, s2))
  ∧ (let c1 := (AuthSessionManager.get_or_create_session session_id s).1 in
     let s1 := (AuthSessionManager.get_or_create_session session_id s).2 in
     let r := AuthSessionManager.get_or_create_session session_id
                (AuthSessionManager.close_session session_id s1) in
     r.1 ≠ c1
     ∧ AuthSessionManager.heap s1 !! r.1 = None
     ∧ AuthSessionManager.live r.2 r.1
     ∧ ¬ AuthSessionManager.live r.2 c1)
  ∧ (AuthSessionManager._sessions s !! session_id = None →
     AuthSessionManager.close_session session_id s = s)
  ∧ ((∀ l, AuthSessionManager._sessions s !! session_id = Some l →
           ¬ AuthSessionManager.live s l) →
     ∀ l', AuthSessionManager.live
             (AuthSessionManager.close_session session_id s) l'
           ↔ AuthSessionManager.live s l')
  ∧ AuthSessionManager.close_session session_id
      (AuthSessionManager.close_session session_id s)
    = AuthSessionManager.close_session session_id s
  ∧ (AuthSessionManager.reachable s → AuthSessionManager.registry_inv s).
Proof.
  split.
  { cbn zeta. intros s2 Hsteps.
    eapply get_or_create_session_again; [exact Hsteps|].
    apply get_or_create_session_live. }
  split; [|split; [apply close_session_absent|split;
    [intros Hdead l'; by apply close_session_not_live|split;
    [apply close_session_absent, close_session_unregisters
    | apply reachable_registry_inv]]]].
  cbn zeta.
  destruct (get_or_create_session_live session_id s) as [Hreg Hlive].
  set (c1 := (AuthSessionManager.get_or_create_session session_id s).1) in *.
  set (s1 := (AuthSessionManager.get_or_create_session session_id s).2) in *.
  set (s3 := AuthSessionManager.close_session session_id s1).
  assert (AuthSessionManager.get_or_create_session session_id s3
          = AuthSessionManager.create_session session_id s3) as Hnew.
  { unfold AuthSessionManager.get_or_create_session, s3.
    by rewrite (close_session_unregisters session_id s1). }
  pose proof (get_or_create_session_live session_id s3) as [_ Hlive3].
  rewrite Hnew in *.
  pose proof (create_session_fresh session_id s3) as Hfresh.
  assert (AuthSessionManager.heap s1
            !! (AuthSessionManager.create_session session_id s3).1 = None) as Hfresh1.
  { apply eq_None_not_Some. intros Hsome.
    apply (close_session_heap session_id) in Hsome. fold s3 in Hsome.
    rewrite Hfresh in Hsome. by destruct Hsome. }
  assert ((AuthSessionManager.create_session session_id s3).1 ≠ c1) as Hne.
  { intros Heq. apply live_heap in Hlive. rewrite <- Heq, Hfresh1 in Hlive.
    by destruct Hlive. }
  repeat split; try done.
  unfold AuthSessionManager.live, AuthSessionManager.is_closed.
  unfold AuthSessionManager.create_session at 1.
  cbn [snd AuthSessionManager.heap]. rewrite lookup_insert_ne by done.
  pose proof (close_session_closes session_id s1 c1 Hreg) as Hclosed.
  fold s3 in Hclosed. unfold AuthSessionManager.is_closed in Hclosed.
  rewrite Hclosed. done.
Qed.

Lemma session_pool_identity_witness :
  AuthSessionManager.get_or_create_session "alice"
    (AuthSessionManager.get_or_create_session "bob"
       (AuthSessionManager.get_or_create_session "alice"
          AuthSessionManager.init).2).2
  = ((AuthSessionManager.get_or_create_session "alice" AuthSessionManager.init).1,
     (AuthSessionManager.get_or_create_session "bob"
        (AuthSessionManager.get_or_create_session "alice"
           AuthSessionManager.init).2).2)
  ∧ AuthSessionManager.close_session "alice" AuthSessionManager.init
    = AuthSessionManager.init
  ∧ AuthSessionManager.registry_inv AuthSessionManager.init.
Proof.
  destruct (session_pool_identity "alice" AuthSessionManager.init)
    as (Hsame & _ & Hnoop & _ & _ & Hinv).
  split; [|split; [apply Hnoop; reflexivity | apply Hinv; apply rtc_refl]].
  apply Hsame. apply rtc_once. apply AuthSessionManager.keep_get.
Defined.

(** ** The fetch tool *)

(** The loop keeps whatever its operation, the random draws and the
    sleeps keep. *)
Lemma retry_loop_preserves {W A E : Type} (func : W → (E + A) * W)
  (is_exception : E → bool) (overflow_error : E)
  (uniform : Q → Q → W → Q * W) (sleep : Q → W → option E * W)
  (bf mb : Q) (P : W → Prop) :
  (∀ s, P s → P (func s).2) →
  (∀ a b s, P s → P (uniform a b s).2) →
  (∀ d s, P s → P (sleep d s).2) →
  ∀ attempts n s, P s →
    P (Retry.retry_loop func is_exception overflow_error uniform sleep bf mb
         attempts n s).1.2.
Proof.
  intros Hf Hu Hsl attempts n. induction attempts as [|a rest IH]; intros s Hs; [done|].
  cbn [Retry.retry_loop]. specialize (Hf s Hs).
  destruct (func s) as [[e|v] s1]; cbn in Hf; [|done].
  destruct (negb (is_exception e)); [done|].
  destruct (Z.of_nat a =? n - 1); [done|].
  destruct (Retry.float_pow bf a) as [power|]; [|done].
  specialize (Hu 0%Q (Qmin power mb * (1 # 10))%Q s1 Hf).
  destruct (uniform _ _ s1) as [j s2]. cbn in Hu.
  specialize (Hsl (Qmin power mb + j)%Q s2 Hu).
  destruct (sleep _ s2) as [[e'|] s3]; cbn in Hsl; [done|].
  specialize (IH s3 Hsl).
  by destruct (Retry.retry_loop _ _ _ _ _ _ _ _ _ s3) as [[o s4] evs].
Qed.

Section scrape_facts.
Import Scrape.
Context {Page Resp Headers Net Err Dict : Type}.
Variable cfg : Config.
Variable clock : nat -> Z.
Variable validate_url : string -> bool.
Variable netloc : string -> string.
Variable to_dict : ScrapeOptions -> Dict.
Variable json_dumps : Dict -> string.
Variable empty_dict : Dict.
Variable uniform : Q -> Q -> Net -> Q * Net.
Variable prepare_headers : ScrapeOptions -> Net -> Headers * Net.
Variable overflow_error : Err.
Variable http_get : string -> Headers -> ScrapeOptions -> Net -> (Err + Resp) * Net.
Variable build_result : string -> ScrapeOptions -> Resp -> Z -> Err + Page.

#[local] Abbreviation World := (world Page Net).
#[local] Abbreviation run :=
  (scrape_webpage cfg clock validate_url netloc to_dict json_dumps empty_dict
     uniform prepare_headers overflow_error http_get build_result).
(** The retry loop as [scrape_webpage] runs it. *)
#[local] Abbreviation request_loop url headers options :=
  (Retry.retry_loop (make_request http_get url headers options) (λ _, true)
     (OpError overflow_error) (draw uniform) Retry.quiet_sleep 2 60).

Lemma check_cache_keeps url options (w : World) :
  let w1 := (check_cache cfg clock to_dict json_dumps empty_dict url options w).2 in
  outside w1 = outside w
  ∧ circuit_breaker w1 = circuit_breaker w
  ∧ rate_limiter w1 = rate_limiter w.
Proof.
  unfold check_cache. destruct (use_cache options); [|done].
  by destruct (CacheManager.get _ _ _ _ _ _ _).
Qed.

Lemma make_request_fails url headers options (w : World) :
  (∀ headers n, ∃ e, (http_get url headers options n).1 = inl e) →
  ∃ e, (make_request http_get url headers options w).1 = inl (OpError e).
Proof.
  intros Hfail. unfold make_request.
  destruct (Hfail headers (outside w)) as [e He].
  destruct (http_get _ _ _ _) as [r n]. cbn in He. subst r. by exists e.
Qed.

(** What [make_request] raises comes from the HTTP call. *)
Lemma make_request_error url headers options (w : World) e :
  (make_request http_get url headers options w).1 = inl e → ∃ e', e = OpError e'.
Proof.
  unfold make_request. destruct (http_get _ _ _ _) as [[e'|resp] n]; cbn.
  - intros [= <-]. eauto.
  - done.
Qed.

Lemma make_request_keeps url headers options (w : World) :
  circuit_breaker (make_request http_get url headers options w).2
  = circuit_breaker w.
Proof. unfold make_request. by destruct (http_get _ _ _ _). Qed.

Lemma draw_keeps a b (w : World) :
  circuit_breaker (draw uniform a b w).2 = circuit_breaker w.
Proof. unfold draw. by destruct (uniform _ _ _). Qed.

(** The retry loop leaves the circuit breaker alone. *)
Lemma request_loop_keeps url headers options attempts n (w w0 : World) :
  circuit_breaker w = circuit_breaker w0 →
  circuit_breaker (request_loop url headers options attempts n w).1.2
  = circuit_breaker w0.
Proof.
  apply (retry_loop_preserves (make_request http_get url headers options)
           (λ _, true) (OpError overflow_error) (draw uniform) Retry.quiet_sleep
           2 60 (λ w', circuit_breaker w' = circuit_breaker w0)).
  - intros s Hs. by rewrite make_request_keeps.
  - intros a b s Hs. by rewrite draw_keeps.
  - done.
Qed.

(** What the retry loop raises is the error of an HTTP call or the
    [OverflowError] of the back-off. *)
Lemma request_loop_raised url headers options attempts n (w : World) e :
  (request_loop url headers options attempts n w).1.1 = Retry.Raised e →
  ∃ e', e = OpError e'.
Proof.
  intros [[s0 Hs0] | [-> | (d & s0 & Hs)]]%retry_loop_raised.
  - by apply make_request_error in Hs0.
  - eauto.
  - done.
Qed.

(** The [except Exception] clause after the retry-wrapped call has used
    all its attempts: it receives the last error. *)
Lemma fetch_exhausted url domain options (w w' : World) o evs e :
  fetch cfg clock to_dict json_dumps empty_dict uniform prepare_headers
    overflow_error http_get build_result url domain options w = (o, w', evs) →
  length (Retry.invocations evs) = Z.to_nat (MAX_RETRIES cfg) →
  last (Retry.invocations evs) = Some (inl e) →
  ∃ ts, o = Retry.Returned (ErrorResult url e ts)
        ∧ CircuitBreaker.failure_count (circuit_breaker w') domain
          = S (CircuitBreaker.failure_count (circuit_breaker w) domain).
Proof.
  unfold fetch.
  set (wa := if simulate_human options then _ else _).
  assert (circuit_breaker wa = circuit_breaker w) as Hwa.
  { subst wa. destruct (simulate_human options); [apply draw_keeps | done]. }
  destruct (prepare_headers options (outside wa)) as [headers n].
  set (wb := with_outside n wa).
  assert (circuit_breaker wb = circuit_breaker w) as Hwb by done.
  unfold Retry.retry_with_backoff, Retry.range. cbn [Retry.py_or].
  pose proof (retry_loop_exhausted (make_request http_get url headers options)
                (λ _, true) (OpError overflow_error) (draw uniform)
                Retry.quiet_sleep 2 60 (MAX_RETRIES cfg)
                (Z.to_nat (MAX_RETRIES cfg)) 0%nat wb e) as Hraised.
  pose proof (request_loop_keeps url headers options
                (seq 0 (Z.to_nat (MAX_RETRIES cfg))) (MAX_RETRIES cfg) wb w Hwb)
    as Hkeep.
  pose proof (request_loop_raised url headers options
                (seq 0 (Z.to_nat (MAX_RETRIES cfg))) (MAX_RETRIES cfg) wb e) as Hop.
  destruct (Retry.retry_loop _ _ _ _ _ _ _ _ _ wb) as [[o1 wc] evs1].
  cbn [fst snd] in Hraised, Hkeep, Hop.
  intros Hfetch Hlen Hlast.
  assert (evs1 = evs) as ->.
  { destruct o1 as [resp| |e1].
    - destruct (build_result _ _ _ _); [|destruct (use_cache options)].
      all: by injection Hfetch.
    - by injection Hfetch.
    - destruct e1; by injection Hfetch. }
  assert (0 ≤ MAX_RETRIES cfg) as Hpos.
  { destruct (decide (0 ≤ MAX_RETRIES cfg)); [done|].
    replace (Z.to_nat (MAX_RETRIES cfg)) with 0%nat in Hlen by lia.
    by destruct (Retry.invocations evs). }
  specialize (Hraised ltac:(lia) Hlen Hlast). subst o1.
  destruct (Hop eq_refl) as [e' ->].
  injection Hfetch as <- <-. eexists. split; [reflexivity|].
  cbn [circuit_breaker advance with_breaker]. rewrite Hkeep.
  unfold CircuitBreaker.failure_count, CircuitBreaker.record_failure.
  cbn [CircuitBreaker.failures]. by rewrite lookup_insert_eq.
Qed.
End scrape_facts.

Section scrape_claims.
Import Scrape.
Context {Page Resp Headers Net Err Dict : Type}.
Variable cfg : Config.
Variable clock : nat -> Z.
Variable validate_url : string -> bool.
Variable netloc : string -> string.
Variable to_dict : ScrapeOptions -> Dict.
Variable json_dumps : Dict -> string.
Variable empty_dict : Dict.
Variable uniform : Q -> Q -> Net -> Q * Net.
Variable prepare_headers : ScrapeOptions -> Net -> Headers * Net.
Variable overflow_error : Err.
Variable http_get : string -> Headers -> ScrapeOptions -> Net -> (Err + Resp) * Net.
Variable build_result : string -> ScrapeOptions -> Resp -> Z -> Err + Page.

(** C8, as amended.  For every fetch of a valid URL for which the cache
    look-up returns nothing (the world is then [w1]): when [is_open]
    answers true for the domain, [scrape_webpage] raises
    [CircuitBreakerError] without attempting the request: no invocation
    is made, the outside world is untouched and no failure is recorded;
    when [is_open] answers false and the retry-wrapped HTTP call
    exhausts all retries (it makes [Config.MAX_RETRIES] attempts and the
    last of them fails), [scrape_webpage] records one more failure for
    the domain in the circuit breaker and returns (it does not raise)
    the failure dictionary built from the error of the last attempt. *)
Theorem fetch_breaker_and_exhaustion (fuel : nat) (url : string)
  (options : option ScrapeOptions) (w w1 : world Page Net) :
  let opts := default default_options options in
  let domain := netloc url in
  let verdict :=
    CircuitBreaker.is_open domain (clock (ticks w1)) (circuit_breaker w1) in
  let w2 := advance 1 (with_breaker verdict.2 w1) in
  validate_url url = true →
  check_cache cfg clock to_dict json_dumps empty_dict url opts w = (None, w1) →
  (verdict.1 = true →
   scrape_webpage cfg clock validate_url netloc to_dict json_dumps empty_dict
     uniform prepare_headers overflow_error http_get build_result fuel url options w
   = Some (Retry.Raised (CircuitBreakerError domain), w2, [])
   ∧ outside w2 = outside w)
  ∧ (verdict.1 = false →
     ∀ o w' evs e,
       scrape_webpage cfg clock validate_url netloc to_dict json_dumps empty_dict
         uniform prepare_headers overflow_error http_get build_result
         fuel url options w
       = Some (o, w', evs) →
       length (Retry.invocations evs) = Z.to_nat (MAX_RETRIES cfg) →
       last (Retry.invocations evs) = Some (inl e) →
       ∃ ts,
         o = Retry.Returned (ErrorResult url e ts)
         ∧ CircuitBreaker.failure_count (circuit_breaker w') domain
           = S (CircuitBreaker.failure_count verdict.2 domain)).
Proof.
  intros opts domain verdict w2 Hvalid Hmiss.
  pose proof (check_cache_keeps cfg clock to_dict json_dumps empty_dict url opts w)
    as (Hout & _ & _).
  rewrite Hmiss in Hout. cbn [snd] in Hout.
  split.
  - intros Hopen. split; [|exact Hout].
    unfold scrape_webpage. fold opts. rewrite Hvalid. cbn [negb].
    rewrite Hmiss. fold domain. fold verdict.
    destruct verdict as [o b] eqn:Hv. cbn [fst snd] in *. by subst o.
  - intros Hclosed o w' evs e.
    unfold scrape_webpage. fold opts. rewrite Hvalid. cbn [negb].
    rewrite Hmiss. fold domain. fold verdict.
    subst w2. destruct verdict as [open b] eqn:Hv. cbn [fst snd] in *. subst open.
    destruct (RateLimiter.wait_if_needed _ _ _ _) as [[polls r]|]; [|done].
    intros Hfetch%(inj Some) Hlen Hlast.
    by apply (fetch_exhausted cfg clock to_dict json_dumps empty_dict uniform
                prepare_headers overflow_error http_get build_result url domain opts
                (advance (2 * S polls) (with_limiter r (advance 1 (with_breaker b w1))))
                w' o evs e).
Qed.
End scrape_claims.

Lemma fetch_breaker_and_exhaustion_witness :
  (∃ w',
     Samples.scrape default_config 1 "https://example.com" Samples.tripped_world
     = Some (Retry.Raised (Scrape.CircuitBreakerError "example.com"), w', []))
  ∧ ∃ ts w' evs,
      Samples.scrape default_config 1 "https://example.com" Samples.fresh_world
      = Some (Retry.Returned
                (Scrape.ErrorResult "https://example.com" (Scrape.OpError "timeout") ts),
              w', evs)
      ∧ length (Retry.invocations evs) = 3%nat
      ∧ CircuitBreaker.failure_count (Scrape.circuit_breaker w') "example.com"
        = 1%nat.
Proof.
  split.
  - eexists.
    refine (proj1 (proj1 (fetch_breaker_and_exhaustion default_config
      Samples.clock Samples.valid Samples.netloc Samples.to_dict
      Samples.dumps_empty () Samples.no_jitter Samples.headers Samples.overflow
      Samples.timing_out Samples.parse 1 "https://example.com" None
      Samples.tripped_world (Scrape.advance 1 Samples.tripped_world)
      eq_refl eq_refl) _)).
    reflexivity.
  - destruct (Samples.scrape default_config 1 "https://example.com" Samples.fresh_world)
      as [[[o w'] evs]|] eqn:Hrun; [|by vm_compute in Hrun].
    assert (length (Retry.invocations evs) = 3%nat
            ∧ last (Retry.invocations evs) = Some (inl (Scrape.OpError "timeout")))
      as [Hlen Hlast].
    { vm_compute in Hrun. injection Hrun as <- <- <-. by split. }
    destruct (proj2 (fetch_breaker_and_exhaustion default_config
      Samples.clock Samples.valid Samples.netloc Samples.to_dict
      Samples.dumps_empty () Samples.no_jitter Samples.headers Samples.overflow
      Samples.timing_out Samples.parse 1 "https://example.com" None
      Samples.fresh_world (Scrape.advance 1 Samples.fresh_world)
      eq_refl eq_refl) eq_refl o w' evs (Scrape.OpError "timeout") Hrun Hlen Hlast)
      as (ts & -> & Hcount).
    by exists ts, w', evs.
Defined.

(** C8 as stated fails on the code.  When every attempt times out, the
    fetch does not propagate the error: it returns the failure
    dictionary.  When the breaker is open but the page is cached, the
    fetch returns the cached page and raises nothing.  And when the
    breaker is open but the URL is rejected by the validation, the fetch
    raises [ValueError]. *)
Lemma fetch_claim_counterexample :
  (∃ w' evs,
     Samples.scrape default_config 1 "https://example.com" Samples.fresh_world
     = Some (Retry.Returned
               (Scrape.ErrorResult "https://example.com" (Scrape.OpError "timeout") 5),
             w', evs))
  ∧ (CircuitBreaker.is_open "example.com" 0
       (Scrape.circuit_breaker Samples.tripped_cached_world)).1 = true
  ∧ (∃ w',
       Samples.scrape default_config 1 "https://example.com" Samples.tripped_cached_world
       = Some (Retry.Returned (Scrape.Success 7%nat), w', []))
  ∧ Samples.netloc "ftp://example.com" = "example.com"
  ∧ Samples.scrape default_config 1 "ftp://example.com" Samples.tripped_world
    = Some (Retry.Raised (Scrape.ValueError "ftp://example.com"),
            Samples.tripped_world, []).
Proof.
  split; [|split; [|split; [|split]]].
  - eexists _, _. vm_compute. reflexivity.
  - reflexivity.
  - eexists. vm_compute. reflexivity.
  - reflexivity.
  - reflexivity.
Qed.

(** * Further properties *)

(** ** Retry: the shape of every run *)

Section retry_shape.
Import Retry Trace.
Context {W A E : Type}.
Variable func : W -> (E + A) * W.
Variable is_exception : E -> bool.
Variable overflow_error : E.
Variable uniform : Q -> Q -> W -> Q * W.
Variable sleep : Q -> W -> option E * W.
Variables backoff_factor max_backoff : Q.


End retry_shape.


(** ** Rate limiter: runs, sweep and waiting *)

Section limiter_runs.
Import RateLimiter LimiterRun.
Implicit Types (s : state) (domain : string) (reqs : list request).

Lemma after_snoc reqs r s :
  after (reqs ++ [r]) s
  = (check_rate_limit (req_domain r) (req_now r) (req_time r) (after reqs s)).2.
Proof. unfold after. by rewrite foldl_app. Qed.

Lemma admitted_snoc domain reqs r : ∀ s,
  admitted domain (reqs ++ [r]) s
  = admitted domain reqs s
    ++ (if (check_rate_limit (req_domain r) (req_now r) (req_time r)
              (after reqs s)).1
           && bool_decide (req_domain r = domain)
        then [req_now r] else []).
Proof.
  induction reqs as [|r0 reqs IH]; intros s.
  - cbn. by rewrite app_nil_r.
  - cbn [app admitted]. rewrite IH. by rewrite app_assoc.
Qed.

Lemma after_reachable mr p ct0 reqs : reachable mr p (after reqs (init mr p ct0)).
Proof.
  induction reqs as [|r reqs IH] using rev_ind; [constructor|].
  rewrite after_snoc. by constructor.
Qed.

Lemma recent_app c (l1 l2 : list Z) : recent c (l1 ++ l2) = recent c l1 ++ recent c l2.
Proof. apply filter_app. Qed.

(** Along a run with a monotone clock, the limiter remembers exactly the
    admitted requests that can still matter: beyond any cut-off not
    older than the window of the last call, the admitted timestamps of a
    domain are the recorded ones. *)
Lemma recorded_admitted mr p ct0 reqs :
  clock_monotone reqs →
  ∀ domain c,
    (∀ r, r ∈ reqs → req_now r - timedelta_seconds p ≤ c) →
    recent c (admitted domain reqs (init mr p ct0))
    = recent c (recorded (after reqs (init mr p ct0)) domain).
Proof.
  induction reqs as [|r reqs IH] using rev_ind; intros Hmono domain c Hc.
  { cbn. unfold recorded, init. cbn. by rewrite lookup_empty. }
  apply StronglySorted_app in Hmono as (Hle & Hmono & _).
  specialize (IH Hmono).
  assert (∀ r0, r0 ∈ reqs → req_now r0 ≤ req_now r) as Hbefore.
  { intros r0 Hr0. apply (Hle r0 r Hr0). by apply list_elem_of_singleton. }
  assert (req_now r - timedelta_seconds p ≤ c) as Hcr.
  { apply Hc, elem_of_app. right. by apply list_elem_of_singleton. }
  assert (∀ c', req_now r - timedelta_seconds p ≤ c' →
            recent c' (admitted domain reqs (init mr p ct0))
            = recent c' (recorded (after reqs (init mr p ct0)) domain)) as IH'.
  { intros c' Hc'. apply IH. intros r0 Hr0. specialize (Hbefore r0 Hr0). lia. }
  rewrite admitted_snoc, after_snoc, recent_app.
  set (s := after reqs (init mr p ct0)) in *.
  destruct (reachable_bounded mr p s (after_reachable mr p ct0 reqs)) as (_ & Hp & _).
  destruct (check_rate_limit_spec (req_domain r) (req_now r) (req_time r) s)
    as (Hv & _ & _ & Hdom & _).
  cbn zeta in Hv, Hdom. rewrite Hv. clear Hv.
  destruct (decide (req_domain r = domain)) as [<-|Hne].
  - rewrite bool_decide_eq_true_2 by done. rewrite andb_true_r, Hdom.
    clear Hdom. unfold in_window. rewrite Hp.
    destruct (negb _); rewrite ?recent_app, ?app_nil_r.
    + rewrite recent_recent by done. by rewrite IH'.
    + rewrite recent_recent by done. by rewrite IH'.
  - rewrite bool_decide_eq_false_2 by done. rewrite andb_false_r.
    cbn [recent filter list_filter]. rewrite app_nil_r.
    destruct (recorded_other (req_domain r) domain (req_now r) (req_time r) s)
      as [-> | ->]; [done | by apply IH' |].
    rewrite Hp, recent_recent by done. by apply IH'.
Qed.

Lemma check_preserves_config domain now ct s :
  max_requests (check_rate_limit domain now ct s).2 = max_requests s
  ∧ period (check_rate_limit domain now ct s).2 = period s.
Proof.
  destruct (check_rate_limit_spec domain now ct s) as (_ & ? & ? & _). done.
Qed.

(** A denied check leaves of the domain's requests those inside the
    window. *)
Lemma denied_recorded domain now ct s :
  (check_rate_limit domain now ct s).1 = false →
  recorded (check_rate_limit domain now ct s).2 domain = in_window now s domain.
Proof.
  destruct (check_rate_limit_spec domain now ct s) as (Hv & _ & _ & Hdom & _).
  cbn zeta in *. intros Hden. rewrite Hden in Hv.
  rewrite Hdom. by rewrite <- Hv.
Qed.
End limiter_runs.


Section limiter_run_facts.
Import RateLimiter LimiterRun.

Lemma clock_monotone_snoc reqs r :
  clock_monotone (reqs ++ [r]) →
  clock_monotone reqs ∧ ∀ r0, r0 ∈ reqs → req_now r0 ≤ req_now r.
Proof.
  intros (Hle & Hmono & _)%StronglySorted_app. split; [done|].
  intros r0 Hr0. apply (Hle r0 r Hr0). by apply list_elem_of_singleton.
Qed.
End limiter_run_facts.

Section limiter_raise_runs.
Import RateLimiter LimiterRun.
Implicit Types (s : state) (domain : string) (reqs : list request).

Lemma after_or_raise_snoc reqs r s :
  after_or_raise (reqs ++ [r]) s
  = (check_rate_limit_or_raise (req_domain r) (req_now r) (req_time r)
       (after_or_raise reqs s)).2.
Proof. unfold after_or_raise. by rewrite foldl_app. Qed.

Lemma admitted_or_raise_snoc domain reqs r : ∀ s,
  admitted_or_raise domain (reqs ++ [r]) s
  = admitted_or_raise domain reqs s
    ++ match (check_rate_limit_or_raise (req_domain r) (req_now r) (req_time r)
                (after_or_raise reqs s)).1 with
       | inr true => if bool_decide (req_domain r = domain) then [req_now r] else []
       | _ => []
       end.
Proof.
  induction reqs as [|r0 reqs IH]; intros s.
  - cbn. by rewrite app_nil_r.
  - cbn [app admitted_or_raise]. rewrite IH. by rewrite app_assoc.
Qed.

(** A call changes neither setting. *)
Lemma check_or_raise_config domain now ct s :
  max_requests (check_rate_limit_or_raise domain now ct s).2 = max_requests s
  ∧ period (check_rate_limit_or_raise domain now ct s).2 = period s.
Proof.
  destruct (cutoff_defined now (period s)) eqn:Hdef.
  - rewrite check_rate_limit_or_raise_defined by done. apply check_preserves_config.
  - destruct (check_rate_limit_or_raise_undefined domain now ct s Hdef)
      as (_ & ? & ? & _). done.
Qed.

Lemma after_or_raise_config mr p ct0 reqs :
  max_requests (after_or_raise reqs (init mr p ct0)) = mr
  ∧ period (after_or_raise reqs (init mr p ct0)) = p.
Proof.
  induction reqs as [|r reqs [IHm IHp]] using rev_ind; [done|].
  rewrite after_or_raise_snoc.
  destruct (check_or_raise_config (req_domain r) (req_now r) (req_time r)
              (after_or_raise reqs (init mr p ct0))) as [-> ->]. done.
Qed.

(** Along a run with a monotone clock, calls that raise included, the
    limiter remembers the admitted requests that can still matter. *)
Lemma recorded_admitted_or_raise mr p ct0 reqs :
  clock_monotone reqs →
  ∀ domain c,
    (∀ r, r ∈ reqs → req_now r - timedelta_seconds p ≤ c) →
    recent c (admitted_or_raise domain reqs (init mr p ct0))
    = recent c (recorded (after_or_raise reqs (init mr p ct0)) domain).
Proof.
  induction reqs as [|r reqs IH] using rev_ind; intros Hmono domain c Hc.
  { cbn. unfold recorded, init. cbn. by rewrite lookup_empty. }
  apply clock_monotone_snoc in Hmono as [Hmono Hbefore].
  specialize (IH Hmono).
  assert (req_now r - timedelta_seconds p ≤ c) as Hcr.
  { apply Hc, elem_of_app. right. by apply list_elem_of_singleton. }
  assert (∀ c', req_now r - timedelta_seconds p ≤ c' →
            recent c' (admitted_or_raise domain reqs (init mr p ct0))
            = recent c' (recorded (after_or_raise reqs (init mr p ct0)) domain)) as IH'.
  { intros c' Hc'. apply IH. intros r0 Hr0. specialize (Hbefore r0 Hr0). lia. }
  rewrite admitted_or_raise_snoc, after_or_raise_snoc, recent_app.
  destruct (after_or_raise_config mr p ct0 reqs) as [_ Hp].
  set (s := after_or_raise reqs (init mr p ct0)) in *.
  destruct (cutoff_defined (req_now r) (period s)) eqn:Hdef.
  - rewrite check_rate_limit_or_raise_defined by done. cbn [fst snd].
    destruct (check_rate_limit_spec (req_domain r) (req_now r) (req_time r) s)
      as (Hv & _ & _ & Hdom & _).
    cbn zeta in Hv, Hdom. rewrite Hv. clear Hv.
    destruct (decide (req_domain r = domain)) as [<-|Hne].
    + rewrite bool_decide_eq_true_2 by done. rewrite Hdom.
      clear Hdom. unfold in_window. rewrite Hp.
      destruct (negb _); rewrite ?recent_app, ?app_nil_r.
      * rewrite recent_recent by done. by rewrite IH'.
      * rewrite recent_recent by done. by rewrite IH'.
    + rewrite bool_decide_eq_false_2 by done.
      assert (recent c (if negb (max_requests s
                                 <=? Z.of_nat (length (in_window (req_now r) s
                                                         (req_domain r))))
                        then [] else []) = []) as -> by (by destruct (negb _)).
      rewrite app_nil_r.
      destruct (recorded_other (req_domain r) domain (req_now r) (req_time r) s)
        as [-> | ->]; [done | by apply IH' |].
      rewrite Hp, recent_recent by done. by apply IH'.
  - destruct (check_rate_limit_or_raise_undefined (req_domain r) (req_now r)
                (req_time r) s Hdef) as (-> & _ & _ & _ & -> & _).
    cbn [recent filter list_filter]. rewrite app_nil_r. by apply IH'.
Qed.
End limiter_raise_runs.

(** X2. Along any run of [check_rate_limit] calls on a fresh limiter
    whose clock does not go back, a call for which
    [now - timedelta(seconds=period)] is a [datetime] is admitted
    exactly when fewer than [max_requests] requests of its domain were
    admitted during the trailing [period] seconds; a call for which it
    is not raises [OverflowError]. *)
Theorem check_rate_limit_counts_admitted (mr p ct0 : Z)
  (reqs : list LimiterRun.request) (r : LimiterRun.request) :
  LimiterRun.clock_monotone (reqs ++ [r]) →
  (RateLimiter.check_rate_limit_or_raise (LimiterRun.req_domain r)
     (LimiterRun.req_now r) (LimiterRun.req_time r)
     (LimiterRun.after_or_raise reqs (RateLimiter.init mr p ct0))).1
  = if RateLimiter.cutoff_defined (LimiterRun.req_now r) p
    then inr (bool_decide
           (Z.of_nat (length (RateLimiter.recent
                                (LimiterRun.req_now r - timedelta_seconds p)
                                (LimiterRun.admitted_or_raise (LimiterRun.req_domain r)
                                   reqs (RateLimiter.init mr p ct0)))) < mr))
    else inl RateLimiter.OverflowError.
Proof.
  intros [Hmono Hbefore]%clock_monotone_snoc.
  destruct (after_or_raise_config mr p ct0 reqs) as [Hmr Hp].
  destruct (RateLimiter.cutoff_defined (LimiterRun.req_now r) p) eqn:Hdef.
  - rewrite check_rate_limit_or_raise_defined by (by rewrite Hp).
    cbn [fst]. f_equal. rewrite check_rate_limit_verdict.
    unfold RateLimiter.in_window. rewrite Hp, Hmr.
    rewrite <- (recorded_admitted_or_raise mr p ct0 reqs Hmono).
    + case_bool_decide;
        [apply negb_true_iff, Z.leb_gt | apply negb_false_iff, Z.leb_le]; lia.
    + intros r0 Hr0. specialize (Hbefore r0 Hr0). lia.
  - rewrite <- Hp in Hdef.
    by destruct (check_rate_limit_or_raise_undefined (LimiterRun.req_domain r)
                   (LimiterRun.req_now r) (LimiterRun.req_time r) _ Hdef) as [-> _].
Qed.

Lemma check_rate_limit_counts_admitted_witness :
  (RateLimiter.check_rate_limit_or_raise "example.com" 1000000 1000000
     (LimiterRun.after_or_raise Samples.burst (RateLimiter.init 2 60 0))).1
  = inr (bool_decide
      (Z.of_nat (length (RateLimiter.recent (1000000 - timedelta_seconds 60)
                           (LimiterRun.admitted_or_raise "example.com" Samples.burst
                              (RateLimiter.init 2 60 0)))) < 2)).
Proof.
  apply (check_rate_limit_counts_admitted 2 60 0 Samples.burst Samples.burst_last).
  unfold LimiterRun.clock_monotone, Samples.burst, Samples.burst_last.
  cbn [app]. repeat constructor; cbn; lia.
Defined.

(** X3. The limit holds on the requests themselves: after every call of
    such a run, no domain has more than [max_requests] admitted requests
    with a timestamp inside the [period] seconds that end at the call. *)
Theorem admitted_within_limit (mr p ct0 : Z)
  (reqs : list LimiterRun.request) (r : LimiterRun.request) (domain : string) :
  LimiterRun.clock_monotone (reqs ++ [r]) →
  (length (RateLimiter.recent (LimiterRun.req_now r - timedelta_seconds p)
             (LimiterRun.admitted domain (reqs ++ [r]) (RateLimiter.init mr p ct0)))
   ≤ Z.to_nat mr)%nat.
Proof.
  intros Hmono.
  rewrite (recorded_admitted mr p ct0 (reqs ++ [r]) Hmono domain).
  - etrans; [apply length_recent|].
    apply (reachable_bounded mr p _ (after_reachable mr p ct0 (reqs ++ [r]))).
  - intros r0 [Hr0 | ->%list_elem_of_singleton]%elem_of_app; [|lia].
    apply clock_monotone_snoc in Hmono as [_ Hbefore].
    specialize (Hbefore r0 Hr0). lia.
Qed.

Lemma admitted_within_limit_witness :
  (length (RateLimiter.recent (1000000 - timedelta_seconds 60)
             (LimiterRun.admitted "example.com" (Samples.burst ++ [Samples.burst_last])
                (RateLimiter.init 2 60 0)))
   ≤ Z.to_nat 2)%nat.
Proof.
  apply (admitted_within_limit 2 60 0 Samples.burst Samples.burst_last "example.com").
  unfold LimiterRun.clock_monotone, Samples.burst, Samples.burst_last.
  cbn [app]. repeat constructor; cbn; lia.
Defined.

Section limiter_sweep_facts.
Import RateLimiter.

Lemma sweep_lookup_Some c (reqs : gmap string (list Z)) domain l :
  sweep c reqs !! domain = Some l → l ≠ [] ∧ Forall (λ t, c < t) l.
Proof.
  unfold sweep. rewrite lookup_omap. destruct (reqs !! domain) as [l0|]; [|done].
  cbn -[recent]. destruct (recent c l0) as [|t l'] eqn:E; [done|].
  intros [= <-]. split; [done|]. rewrite <- E. unfold recent.
  apply Forall_forall. by intros t' [? _]%list_elem_of_filter.
Qed.

Lemma last_cleanup_check domain now ct self :
  _last_cleanup (check_rate_limit domain now ct self).2
  = if 300 * 1000000 <? ct - _last_cleanup self then ct else _last_cleanup self.
Proof.
  unfold check_rate_limit. cbv zeta.
  destruct (300 * 1000000 <? ct - _last_cleanup self); cbv zeta beta iota.
  all: by destruct (max_requests self <=? _).
Qed.
End limiter_sweep_facts.

(** X4. When more than 300 seconds have passed since the last sweep, a
    call sweeps every domain, provided [now - timedelta(seconds=period)]
    is a [datetime]: afterwards the sweep time is the call's time, and
    each other domain still in the dictionary has a non-empty list of
    timestamps, all inside the window; when it is not a [datetime] the
    call raises [OverflowError] and changes nothing.  A call made
    earlier leaves the sweep time and the other domains' lists as they
    were, whether it raises or not. *)
Theorem check_rate_limit_sweeps (domain other : string) (now ct : Z)
  (self : RateLimiter.state) :
  other ≠ domain →
  let r := RateLimiter.check_rate_limit_or_raise domain now ct self in
  (300 * 1000000 < ct - RateLimiter._last_cleanup self →
   if RateLimiter.cutoff_defined now (RateLimiter.period self)
   then
     RateLimiter._last_cleanup r.2 = ct
     ∧ ∀ l, RateLimiter.requests r.2 !! other = Some l →
         l ≠ []
         ∧ Forall (λ t, now - timedelta_seconds (RateLimiter.period self) < t) l
   else r = (inl RateLimiter.OverflowError, self))
  ∧ (ct - RateLimiter._last_cleanup self ≤ 300 * 1000000 →
     RateLimiter._last_cleanup r.2 = RateLimiter._last_cleanup self
     ∧ RateLimiter.requests r.2 !! other = RateLimiter.requests self !! other).
Proof.
  intros Hne r. subst r.
  destruct (RateLimiter.cutoff_defined now (RateLimiter.period self)) eqn:Hdef.
  - rewrite check_rate_limit_or_raise_defined by done. cbn [snd].
    destruct (check_rate_limit_spec domain now ct self) as (_ & _ & _ & _ & Hoth).
    cbn zeta in Hoth. specialize (Hoth other Hne).
    rewrite !last_cleanup_check.
    unfold RateLimiter.pruned in Hoth.
    split; intros Hdue.
    + apply Z.ltb_lt in Hdue. rewrite Hdue in *. split; [done|].
      intros l Hl. rewrite Hoth in Hl. by apply sweep_lookup_Some in Hl.
    + apply Z.ltb_ge in Hdue. by rewrite Hdue in *.
  - destruct (check_rate_limit_or_raise_undefined domain now ct self Hdef)
      as (Hr & _ & _ & Hlast & _ & Hoth & Hsame).
    split; intros Hdue.
    + specialize (Hsame Hdue).
      destruct (RateLimiter.check_rate_limit_or_raise domain now ct self) as [v s'].
      cbn [fst snd] in Hr, Hsame. by subst.
    + split; [done|]. by apply Hoth.
Qed.

Lemma check_rate_limit_sweeps_witness :
  let r := RateLimiter.check_rate_limit_or_raise "example.com" 400000000 400000000
             Samples.stale_limiter in
  (300 * 1000000 < 400000000 - RateLimiter._last_cleanup Samples.stale_limiter →
   if RateLimiter.cutoff_defined 400000000 (RateLimiter.period Samples.stale_limiter)
   then
     RateLimiter._last_cleanup r.2 = 400000000
     ∧ ∀ l, RateLimiter.requests r.2 !! "old.com" = Some l →
         l ≠ []
         ∧ Forall (λ t, 400000000
                        - timedelta_seconds (RateLimiter.period Samples.stale_limiter) < t) l
   else r = (inl RateLimiter.OverflowError, Samples.stale_limiter))
  ∧ (400000000 - RateLimiter._last_cleanup Samples.stale_limiter ≤ 300 * 1000000 →
     RateLimiter._last_cleanup r.2 = RateLimiter._last_cleanup Samples.stale_limiter
     ∧ RateLimiter.requests r.2 !! "old.com"
       = RateLimiter.requests Samples.stale_limiter !! "old.com").
Proof.
  apply (check_rate_limit_sweeps "example.com" "old.com" 400000000 400000000
           Samples.stale_limiter).
  discriminate.
Defined.

Section limiter_wait_facts.
Import RateLimiter.

Lemma recorded_subseteq_denied domain now ct self t :
  (check_rate_limit domain now ct self).1 = false →
  t ∈ recorded (check_rate_limit domain now ct self).2 domain →
  t ∈ recorded self domain.
Proof.
  intros Hden. rewrite (denied_recorded domain now ct self Hden).
  unfold in_window, recent. by intros [_ ?]%list_elem_of_filter.
Qed.
End limiter_wait_facts.

(** X5. A limiter built with [max_requests <= 0] admits nothing, so
    [wait_if_needed] never returns: however many polls it is allowed,
    it is still waiting. *)
Theorem wait_if_needed_blocks_forever (fuel : nat) (domain : string)
  (clock : nat → Z * Z) (self : RateLimiter.state) :
  RateLimiter.max_requests self ≤ 0 →
  RateLimiter.wait_if_needed fuel domain clock self = None.
Proof.
  revert clock self. induction fuel as [|fuel IH]; intros clock self Hmr; [done|].
  cbn [RateLimiter.wait_if_needed].
  destruct (RateLimiter.check_rate_limit domain (clock 0%nat).1 (clock 0%nat).2 self)
    as [ok self'] eqn:E.
  pose proof (check_rate_limit_verdict domain (clock 0%nat).1 (clock 0%nat).2 self) as Hv.
  pose proof (check_preserves_config domain (clock 0%nat).1 (clock 0%nat).2 self) as [Hc _].
  rewrite E in Hv, Hc. cbn [fst snd] in Hv, Hc.
  assert (ok = false) as ->.
  { rewrite Hv. apply negb_false_iff, Z.leb_le. lia. }
  rewrite IH; [done | lia].
Qed.

Lemma wait_if_needed_blocks_forever_witness :
  RateLimiter.wait_if_needed 5 "example.com" Samples.seconds_clock
    (RateLimiter.init 0 60 0) = None.
Proof.
  apply (wait_if_needed_blocks_forever 5 "example.com" Samples.seconds_clock
           (RateLimiter.init 0 60 0)).
  cbn. lia.
Defined.

Section limiter_wait_returns.
Import RateLimiter.

(** On readings for which the cut-off is a [datetime], the wait goes as
    far as the window has passed. *)
Lemma wait_returns_in_range (i fuel : nat) (domain : string)
  (clock : nat → Z * Z) (self : state) :
  1 ≤ max_requests self →
  (∀ t, t ∈ recorded self domain →
        t + timedelta_seconds (period self) ≤ (clock i).1) →
  (i < fuel)%nat →
  ∃ n self', wait_if_needed fuel domain clock self = Some (n, self')
             ∧ (n ≤ i)%nat
             ∧ last (recorded self' domain) = Some (clock n).1.
Proof.
  revert fuel clock self.
  induction i as [|i IH]; intros fuel clock self Hmr Hold Hfuel.
  all: destruct fuel as [|fuel]; [lia|]; cbn [wait_if_needed].
  all: destruct (check_rate_limit_spec domain (clock 0%nat).1 (clock 0%nat).2 self)
         as (Hv & Hc & Hp & Hdom & _); cbn zeta in Hv, Hdom.
  all: destruct (check_rate_limit domain (clock 0%nat).1 (clock 0%nat).2 self)
         as [ok self'] eqn:E; cbn [fst snd] in Hv, Hc, Hp, Hdom.
  - assert (in_window (clock 0%nat).1 self domain = []) as Hw.
    { unfold in_window, recent.
      destruct (filter _ _) as [|t l] eqn:Ef; [done|].
      assert (t ∈ t :: l) as Ht by left. rewrite <- Ef in Ht.
      apply list_elem_of_filter in Ht as [Hlt Ht].
      specialize (Hold t Ht). lia. }
    rewrite Hw in Hv, Hdom. cbn [length] in Hv.
    assert (ok = true) as ->.
    { rewrite Hv. apply negb_true_iff, Z.leb_gt. lia. }
    exists 0%nat, self'. repeat split; [lia|].
    rewrite Hdom. replace (negb _) with true by (symmetry; apply negb_true_iff, Z.leb_gt; cbn; lia).
    done.
  - destruct ok.
    + exists 0%nat, self'. repeat split; [lia|].
      rewrite Hdom, <- Hv. by rewrite last_snoc.
    + destruct (IH fuel (λ j, clock (S j)) self') as (n & self'' & -> & Hn & Hlast).
      * lia.
      * intros t Ht. rewrite Hp. apply Hold.
        apply (recorded_subseteq_denied domain (clock 0%nat).1 (clock 0%nat).2 self).
        -- by rewrite E.
        -- by rewrite E.
      * lia.
      * exists (S n), self''. repeat split; [lia | done].
Qed.

(** As long as every poll computes its cut-off, the wait is the one of
    [wait_if_needed]. *)
Lemma wait_if_needed_or_raise_defined (domain : string) :
  ∀ fuel (clock : nat → Z * Z) (self : state) n self',
    wait_if_needed fuel domain clock self = Some (n, self') →
    (∀ j, (j ≤ n)%nat → cutoff_defined (clock j).1 (period self) = true) →
    wait_if_needed_or_raise fuel domain clock self = Some (inr n, self').
Proof.
  induction fuel as [|fuel IH]; intros clock self n self' Hwait Hdef; [done|].
  cbn [wait_if_needed wait_if_needed_or_raise] in *.
  rewrite check_rate_limit_or_raise_defined.
  2:{ destruct n; apply Hdef; lia. }
  pose proof (check_preserves_config domain (clock 0%nat).1 (clock 0%nat).2 self)
    as [_ Hp].
  destruct (check_rate_limit domain (clock 0%nat).1 (clock 0%nat).2 self)
    as [ok s1]. cbn [fst snd] in *.
  destruct ok; [by injection Hwait as <- <-|].
  destruct (wait_if_needed fuel domain (λ i, clock (S i)) s1) as [[m s2]|] eqn:Hrec;
    [|done].
  injection Hwait as <- <-.
  rewrite (IH (λ i, clock (S i)) s1 m s2 Hrec); [done|].
  intros j Hj. rewrite Hp. apply Hdef. lia.
Qed.
End limiter_wait_returns.

(** X6. With [max_requests >= 1], [wait_if_needed] returns as soon as
    the window has passed: if at the [i]-th poll every timestamp recorded
    for the domain is at least [period] seconds old, and
    [now - timedelta(seconds=period)] is a [datetime] at every poll up
    to that one, the call returns (it does not raise) after at most [i]
    one-second sleeps, with the admitted request recorded last. *)
Theorem wait_if_needed_returns (i fuel : nat) (domain : string)
  (clock : nat → Z * Z) (self : RateLimiter.state) :
  1 ≤ RateLimiter.max_requests self →
  (∀ j, (j ≤ i)%nat →
        RateLimiter.cutoff_defined (clock j).1 (RateLimiter.period self) = true) →
  (∀ t, t ∈ RateLimiter.recorded self domain →
        t + timedelta_seconds (RateLimiter.period self) ≤ (clock i).1) →
  (i < fuel)%nat →
  ∃ n self',
    RateLimiter.wait_if_needed_or_raise fuel domain clock self = Some (inr n, self')
    ∧ (n ≤ i)%nat
    ∧ last (RateLimiter.recorded self' domain) = Some (clock n).1.
Proof.
  intros Hmr Hdef Hold Hfuel.
  destruct (wait_returns_in_range i fuel domain clock self Hmr Hold Hfuel)
    as (n & self' & Hwait & Hn & Hlast).
  exists n, self'. split; [|done].
  apply wait_if_needed_or_raise_defined; [done|].
  intros j Hj. apply Hdef. lia.
Qed.

Lemma wait_if_needed_returns_witness :
  ∃ n self',
    RateLimiter.wait_if_needed_or_raise 61 "example.com" Samples.seconds_clock
      Samples.busy_limiter = Some (inr n, self')
    ∧ (n ≤ 60)%nat
    ∧ last (RateLimiter.recorded self' "example.com")
      = Some (Samples.seconds_clock n).1.
Proof.
  apply (wait_if_needed_returns 60 61 "example.com" Samples.seconds_clock
           Samples.busy_limiter).
  - apply Z.leb_le. vm_compute. reflexivity.
  - intros j Hj. unfold RateLimiter.cutoff_defined, RateLimiter.is_timedelta,
      RateLimiter.is_datetime, RateLimiter.datetime_min, RateLimiter.datetime_max,
      timedelta_seconds, Samples.seconds_clock.
    replace (RateLimiter.period Samples.busy_limiter) with 60 by reflexivity.
    cbn [fst].
    apply andb_true_iff. split; [reflexivity|].
    apply andb_true_iff. split; apply Z.leb_le; lia.
  - intros t Ht. vm_compute in Ht. apply list_elem_of_singleton in Ht as ->.
    vm_compute. discriminate.
  - lia.
Defined.


(** ** Circuit breaker: recovery, counting and independent keys *)

Section breaker_more_facts.
Import CircuitBreaker.

(** From the second after the timeout to the end of the first day, the
    seconds component of the elapsed time exceeds the timeout. *)
Lemma td_seconds_past_timeout (d timeout : Z) :
  timedelta_seconds (timeout + 1) ≤ d < timedelta_seconds 86400 →
  timeout < td_seconds d.
Proof.
  unfold timedelta_seconds, td_seconds. intros [Hlo Hhi].
  destruct (decide (timeout < 0)) as [Hneg|Hpos].
  - pose proof (Z.mod_pos_bound (d `div` 1000000) 86400). lia.
  - assert (timeout + 1 ≤ d `div` 1000000) by (apply Z.div_le_lower_bound; lia).
    assert (d `div` 1000000 < 86400) by (apply Z.div_lt_upper_bound; lia).
    rewrite Z.mod_small; lia.
Qed.

Lemma is_open_other endpoint other now self :
  endpoint ≠ other →
  failures (is_open endpoint now self).2 !! other = failures self !! other
  ∧ last_failure_time (is_open endpoint now self).2 !! other
    = last_failure_time self !! other
  ∧ failure_threshold (is_open endpoint now self).2 = failure_threshold self
  ∧ recovery_timeout (is_open endpoint now self).2 = recovery_timeout self.
Proof.
  intros Hne. unfold is_open.
  destruct (failures self !! endpoint); [|done].
  destruct (last_failure_time self !! endpoint); [|done].
  destruct (recovery_timeout self <? _); [|done].
  cbn. by rewrite lookup_insert_ne, lookup_delete_ne.
Qed.

(** The verdict of [is_open] reads the two entries of its key and the
    two settings, nothing else. *)
Lemma is_open_verdict_ext endpoint now self self' :
  failures self' !! endpoint = failures self !! endpoint →
  last_failure_time self' !! endpoint = last_failure_time self !! endpoint →
  failure_threshold self' = failure_threshold self →
  recovery_timeout self' = recovery_timeout self →
  (is_open endpoint now self').1 = (is_open endpoint now self).1.
Proof.
  intros Hf Hl Hth Hto. unfold is_open. rewrite Hf, Hl, Hth, Hto.
  destruct (failures self !! endpoint); [|done].
  destruct (last_failure_time self !! endpoint); [|done].
  by destruct (recovery_timeout self <? _).
Qed.
End breaker_more_facts.

(** X7. The recovery that does work: when the last failure of a key is
    more than [recovery_timeout] whole seconds and less than one day
    old, [is_open] answers [False], puts the key's failure count back to
    0 and forgets the time of the failure. *)
Theorem is_open_resets_within_a_day (endpoint : string) (n : nat) (t now : Z)
  (self : CircuitBreaker.state) :
  CircuitBreaker.failures self !! endpoint = Some n →
  CircuitBreaker.last_failure_time self !! endpoint = Some t →
  timedelta_seconds (CircuitBreaker.recovery_timeout self + 1) ≤ now - t
    < timedelta_seconds 86400 →
  let r := CircuitBreaker.is_open endpoint now self in
  r.1 = false
  ∧ CircuitBreaker.failures r.2 !! endpoint = Some 0%nat
  ∧ CircuitBreaker.last_failure_time r.2 !! endpoint = None.
Proof.
  intros Hf Hl Hd. apply td_seconds_past_timeout, Z.ltb_lt in Hd.
  cbn zeta. unfold CircuitBreaker.is_open. rewrite Hf, Hl, Hd. cbn.
  by rewrite lookup_insert_eq, lookup_delete_eq.
Qed.

Lemma is_open_resets_within_a_day_witness :
  let r := CircuitBreaker.is_open "example.com" 61000000 Samples.tripped in
  r.1 = false
  ∧ CircuitBreaker.failures r.2 !! "example.com" = Some 0%nat
  ∧ CircuitBreaker.last_failure_time r.2 !! "example.com" = None.
Proof.
  apply (is_open_resets_within_a_day "example.com" 5 0 61000000 Samples.tripped).
  - reflexivity.
  - reflexivity.
  - vm_compute. split; [discriminate | reflexivity].
Defined.

(** X8. The keys of a breaker are independent: a failure, a success or
    an [is_open] call for one key never changes what [is_open] answers
    for another key. *)
Theorem breaker_keys_independent (endpoint other : string) (t now : Z)
  (self : CircuitBreaker.state) :
  endpoint ≠ other →
  (CircuitBreaker.is_open other now (CircuitBreaker.record_failure endpoint t self)).1
    = (CircuitBreaker.is_open other now self).1
  ∧ (CircuitBreaker.is_open other now (CircuitBreaker.record_success endpoint self)).1
    = (CircuitBreaker.is_open other now self).1
  ∧ (CircuitBreaker.is_open other now (CircuitBreaker.is_open endpoint t self).2).1
    = (CircuitBreaker.is_open other now self).1.
Proof.
  intros Hne. repeat split.
  - apply is_open_verdict_ext; cbn; try done.
    all: by rewrite lookup_insert_ne.
  - apply is_open_verdict_ext; unfold CircuitBreaker.record_success.
    all: destruct (CircuitBreaker.failures self !! endpoint); cbn; try done.
    + by rewrite lookup_insert_ne.
    + by rewrite lookup_delete_ne.
  - destruct (is_open_other endpoint other t self Hne) as (? & ? & ? & ?).
    by apply is_open_verdict_ext.
Qed.

Lemma breaker_keys_independent_witness :
  (CircuitBreaker.is_open "other.com" 1
     (CircuitBreaker.record_failure "example.com" 0 Samples.tripped)).1
    = (CircuitBreaker.is_open "other.com" 1 Samples.tripped).1
  ∧ (CircuitBreaker.is_open "other.com" 1
       (CircuitBreaker.record_success "example.com" Samples.tripped)).1
    = (CircuitBreaker.is_open "other.com" 1 Samples.tripped).1
  ∧ (CircuitBreaker.is_open "other.com" 1
       (CircuitBreaker.is_open "example.com" 0 Samples.tripped).2).1
    = (CircuitBreaker.is_open "other.com" 1 Samples.tripped).1.
Proof.
  apply (breaker_keys_independent "example.com" "other.com" 0 1 Samples.tripped).
  discriminate.
Defined.

(** X9. Failures add up until a success or a recovery: after a run of
    [record_failure] calls for a key, an [is_open] call made at or after
    the last of them and less than [recovery_timeout] seconds later
    answers whether the failures counted before the run plus those of
    the run reach [failure_threshold]. *)
Theorem is_open_counts_failures (endpoint : string) (times : list Z)
  (t_last now : Z) (self : CircuitBreaker.state) :
  last times = Some t_last →
  0 ≤ now - t_last < timedelta_seconds (CircuitBreaker.recovery_timeout self) →
  CircuitBreaker.is_open endpoint now
    (CircuitBreaker.record_failures endpoint times self)
  = (bool_decide (CircuitBreaker.failure_threshold self
                  ≤ Z.of_nat (CircuitBreaker.failure_count self endpoint
                              + length times)),
     CircuitBreaker.record_failures endpoint times self).
Proof.
  intros Hlast Hwin.
  destruct (record_failures_spec endpoint times self) as (Hth & Hto & Hrun).
  cbn zeta in *. destruct Hrun as [Hf Hl]; [by destruct times|].
  unfold CircuitBreaker.is_open. rewrite Hf, Hl, Hlast, Hth, Hto.
  apply td_seconds_in_window in Hwin.
  replace (CircuitBreaker.recovery_timeout self <? td_seconds (now - t_last))
    with false by (symmetry; apply Z.ltb_ge; lia).
  f_equal. case_bool_decide; [apply Z.leb_le | apply Z.leb_gt]; lia.
Qed.

Lemma is_open_counts_failures_witness :
  CircuitBreaker.is_open "example.com" 30000000
    (CircuitBreaker.record_failures "example.com" [0; 10] Samples.tripped)
  = (bool_decide (CircuitBreaker.failure_threshold Samples.tripped
                  ≤ Z.of_nat (CircuitBreaker.failure_count Samples.tripped "example.com"
                              + length [0; 10])),
     CircuitBreaker.record_failures "example.com" [0; 10] Samples.tripped).
Proof.
  apply (is_open_counts_failures "example.com" [0; 10] 10 30000000 Samples.tripped).
  - reflexivity.
  - vm_compute. split; [discriminate | reflexivity].
Defined.


(** ** Cache: keys, other entries and reachable states *)

Section key_facts.
Import CacheManager.

Lemma append_cons (c : ascii) (s1 s2 : string) :
  String c s1 +:+ s2 = String c (s1 +:+ s2).
Proof. reflexivity. Qed.

Lemma append_append (s1 s2 s3 : string) :
  (s1 +:+ s2) +:+ s3 = s1 +:+ s2 +:+ s3.
Proof.
  induction s1 as [|c s1 IH]; [done|]. by rewrite !append_cons, IH.
Qed.

Lemma replace_app (a b : ascii) (s1 s2 : string) :
  replace a b (s1 +:+ s2) = replace a b s1 +:+ replace a b s2.
Proof.
  induction s1 as [|c s1 IH]; [done|].
  rewrite append_cons. cbn [replace]. by rewrite append_cons, IH.
Qed.

Lemma length_replace (a b : ascii) (s : string) :
  String.length (replace a b s) = String.length s.
Proof. induction s as [|c s IH]; [done|]. cbn. by rewrite IH. Qed.

Lemma replace_idem (a b : ascii) (s : string) :
  a ≠ b → replace a b (replace a b s) = replace a b s.
Proof.
  intros Hab. induction s as [|c s IH]; [done|]. cbn. rewrite IH. f_equal.
  destruct (Ascii.eqb c a) eqn:E; [|by rewrite E].
  destruct (Ascii.eqb b a) eqn:E'; [|done].
  apply Ascii.eqb_eq in E'. congruence.
Qed.

Lemma substring_app_prefix (n : nat) (s1 s2 : string) :
  (n ≤ String.length s1)%nat →
  substring 0 n (s1 +:+ s2) = substring 0 n s1.
Proof.
  revert s1. induction n as [|n IH]; intros s1 Hn.
  - by destruct s1, s2.
  - destruct s1 as [|c s1]; cbn in Hn; [lia|].
    rewrite append_cons. cbn [substring]. rewrite IH; [done | lia].
Qed.

Context {Opts : Type}.
Variable json_dumps : Opts -> string.
Variable empty_dict : Opts.

(** The key of a url of 100 characters or more is made of its first 100
    characters: the rest of the url and the options play no part. *)
Lemma cache_key_prefix (pre rest rest' : string) (options options' : option Opts) :
  (100 ≤ String.length pre)%nat →
  _get_cache_key json_dumps empty_dict (pre +:+ rest) options
  = _get_cache_key json_dumps empty_dict (pre +:+ rest') options'.
Proof.
  intros Hpre. unfold _get_cache_key. cbv zeta.
  rewrite !append_append, !replace_app.
  rewrite !substring_app_prefix; [done | |]; by rewrite !length_replace.
Qed.

(** A url and the same url with [_] for [/] have the same key. *)
Lemma cache_key_slashes (url : string) (options : option Opts) :
  _get_cache_key json_dumps empty_dict (replace "/" "_" url) options
  = _get_cache_key json_dumps empty_dict url options.
Proof.
  unfold _get_cache_key. cbv zeta. rewrite !(replace_app "/").
  by rewrite replace_idem.
Qed.
End key_facts.


(** X10. Urls that agree on their first 100 characters share one cache
    entry, whatever follows and whatever the options: with caching
    enabled, a page stored for one (at a reading later than those of the
    entries already there) is returned for the other until it expires.
    So do a url and the same url with [_] for [/]. *)
Theorem cache_keys_collide {V Opts : Type} (cfg : Config)
  (json_dumps : Opts → string) (empty_dict : Opts)
  (pre rest rest' url : string) (value : V) (options options' : option Opts)
  (now now' t : Z) (self : CacheManager.state V) :
  ENABLE_CACHE cfg = true →
  NoDup (CacheManager.cache self).*1 →
  Forall (λ item, CacheManager.stamp item < now) (CacheManager.cache self) →
  now' ≤ t →
  t - now < CacheManager.ttl self →
  (100 ≤ String.length pre)%nat →
  (CacheManager.get cfg json_dumps empty_dict (pre +:+ rest') options' t
     (CacheManager.set cfg json_dumps empty_dict (pre +:+ rest) value options
        now now' self)).1 = Some value
  ∧ (CacheManager.get cfg json_dumps empty_dict
       (CacheManager.replace "/" "_" url) options t
       (CacheManager.set cfg json_dumps empty_dict url value options
          now now' self)).1 = Some value.
Proof.
  intros Hen Hnd Hst Ht Httl Hpre. split.
  all: rewrite get_lookup by done.
  - rewrite (cache_key_prefix json_dumps empty_dict pre rest' rest options' options Hpre).
    rewrite set_keeps_new_entry by (done || lia). rewrite ttl_set.
    by replace (t - now <? CacheManager.ttl self) with true
      by (symmetry; apply Z.ltb_lt; lia).
  - rewrite cache_key_slashes.
    rewrite set_keeps_new_entry by (done || lia). rewrite ttl_set.
    by replace (t - now <? CacheManager.ttl self) with true
      by (symmetry; apply Z.ltb_lt; lia).
Qed.

Lemma cache_keys_collide_witness :
  (CacheManager.get default_config Samples.dumps_empty ()
     (Samples.long_prefix +:+ "?page=2") None 1500000
     (CacheManager.set default_config Samples.dumps_empty ()
        (Samples.long_prefix +:+ "?page=1") 7%nat None 1000 1001
        (CacheManager.init 300))).1 = Some 7%nat
  ∧ (CacheManager.get default_config Samples.dumps_empty ()
       (CacheManager.replace "/" "_" "https://example.com/a/b") None 1500000
       (CacheManager.set default_config Samples.dumps_empty ()
          "https://example.com/a/b" 7%nat None 1000 1001
          (CacheManager.init 300))).1 = Some 7%nat.
Proof.
  apply (cache_keys_collide default_config Samples.dumps_empty ()
           Samples.long_prefix "?page=1" "?page=2" "https://example.com/a/b"
           7%nat None None 1000 1001 1500000 (CacheManager.init 300)).
  - reflexivity.
  - constructor.
  - constructor.
  - lia.
  - by vm_compute.
  - apply Nat.leb_le. vm_compute. reflexivity.
Defined.


(** X11. In a cache whose keys are distinct, a [set] never changes what
    another key returns: a [get] of a url with a different key that
    returns a value after the [set]
    returned the same value before it; and when the [set] triggers no
    clean-up, the [get] returns just what it returned before. *)
Theorem set_leaves_other_keys {V Opts : Type} (cfg : Config)
  (json_dumps : Opts → string) (empty_dict : Opts)
  (url url' : string) (value v : V) (options options' : option Opts)
  (now now' t : Z) (self : CacheManager.state V) :
  CacheManager._get_cache_key json_dumps empty_dict url options
    ≠ CacheManager._get_cache_key json_dumps empty_dict url' options' →
  NoDup (CacheManager.cache self).*1 →
  let self' := CacheManager.set cfg json_dumps empty_dict url value options
                 now now' self in
  ((CacheManager.get cfg json_dumps empty_dict url' options' t self').1 = Some v →
   (CacheManager.get cfg json_dumps empty_dict url' options' t self).1 = Some v)
  ∧ ((length (CacheManager.cache self) < 1000)%nat →
     (CacheManager.get cfg json_dumps empty_dict url' options' t self').1
     = (CacheManager.get cfg json_dumps empty_dict url' options' t self).1).
Proof.
  intros Hne Hnd self'.
  destruct (ENABLE_CACHE cfg) eqn:Hen; cycle 1.
  { unfold self', CacheManager.set. by rewrite Hen. }
  rewrite !get_lookup by done. unfold self'. rewrite ttl_set. split.
  - destruct (PyDict.lookup _ (CacheManager.cache (CacheManager.set _ _ _ _ _ _ _ _ _)))
      as [[v0 t0]|] eqn:Hl; [|done].
    apply lookup_Some_elem_of, elem_of_set in Hl; [|done].
    apply elem_of_assign in Hl as [[= ? _ _]|Hin]; [congruence|].
    by rewrite (lookup_elem_of _ _ _ Hnd Hin).
  - intros Hlen. unfold CacheManager.set. rewrite Hen. cbn [negb]. cbv zeta.
    pose proof (length_assign_le
      (CacheManager._get_cache_key json_dumps empty_dict url options)
      (value, now) (CacheManager.cache self)) as Hle.
    replace (1000 <? _)%nat with false by (symmetry; apply Nat.ltb_ge; lia).
    cbn [CacheManager.cache]. by rewrite lookup_assign_ne.
Qed.

Lemma set_leaves_other_keys_witness :
  let self' := CacheManager.set default_config Samples.dumps_empty ()
                 "https://example.com" 7%nat None 1000 1001 Samples.small_cache in
  ((CacheManager.get default_config Samples.dumps_empty () "https://example.org"
      None 1500000 self').1 = Some 2%nat →
   (CacheManager.get default_config Samples.dumps_empty () "https://example.org"
      None 1500000 Samples.small_cache).1 = Some 2%nat)
  ∧ ((length (CacheManager.cache Samples.small_cache) < 1000)%nat →
     (CacheManager.get default_config Samples.dumps_empty () "https://example.org"
        None 1500000 self').1
     = (CacheManager.get default_config Samples.dumps_empty () "https://example.org"
          None 1500000 Samples.small_cache).1).
Proof.
  apply (set_leaves_other_keys default_config Samples.dumps_empty ()
           "https://example.com" "https://example.org" 7%nat 2%nat None None
           1000 1001 1500000 Samples.small_cache).
  - intros H. vm_compute in H. discriminate.
  - apply (bool_decide_unpack _). by vm_compute.
Defined.



(** X12. However a cache is used through [get], [set] and [clear],
    with a clock that does not go back, it never holds more than 1000
    entries, no two of its entries share a key, and no entry carries a
    timestamp later than the latest reading of the clock. *)
Theorem cache_reachable_invariant {V Opts : Type} (cfg : Config)
  (json_dumps : Opts → string) (empty_dict : Opts)
  (t : Z) (self : CacheManager.state V) :
  CacheStates.reachable_at cfg json_dumps empty_dict t self →
  (length (CacheManager.cache self) ≤ 1000)%nat
  ∧ NoDup (CacheManager.cache self).*1
  ∧ Forall (λ item, CacheManager.stamp item ≤ t) (CacheManager.cache self).
Proof.
  intros (? & ? & ?)%reachable_at_inv. done.
Qed.

Lemma cache_reachable_invariant_witness :
  (length (CacheManager.cache (CacheManager.set default_config Samples.dumps_empty ()
             "https://example.com" 7%nat None 1000 1001 (CacheManager.init 300)))
   ≤ 1000)%nat
  ∧ NoDup (CacheManager.cache (CacheManager.set default_config Samples.dumps_empty ()
             "https://example.com" 7%nat None 1000 1001 (CacheManager.init 300))).*1
  ∧ Forall (λ item, CacheManager.stamp item ≤ 1001)
      (CacheManager.cache (CacheManager.set default_config Samples.dumps_empty ()
         "https://example.com" 7%nat None 1000 1001 (CacheManager.init 300))).
Proof.
  apply (cache_reachable_invariant default_config Samples.dumps_empty () 1001).
  apply (CacheStates.reach_set default_config Samples.dumps_empty () 0
           (CacheManager.init 300) "https://example.com" 7%nat None 1000 1001);
    [apply CacheStates.reach_init | lia | lia].
Defined.


(** X13. In such a state and with caching enabled, a value stored at a
    later reading of the clock is returned by every [get] of the same url and options made
    less than [ttl] after the [set], whatever the cache held: the
    clean-up never evicts the entry just written. *)
Theorem reachable_round_trip {V Opts : Type} (cfg : Config)
  (json_dumps : Opts → string) (empty_dict : Opts)
  (url : string) (value : V) (options : option Opts)
  (t0 now now' t : Z) (self : CacheManager.state V) :
  ENABLE_CACHE cfg = true →
  CacheStates.reachable_at cfg json_dumps empty_dict t0 self →
  t0 < now → now' ≤ t →
  t - now < CacheManager.ttl self →
  (CacheManager.get cfg json_dumps empty_dict url options t
     (CacheManager.set cfg json_dumps empty_dict url value options now now' self)).1
  = Some value.
Proof.
  intros Hen (Hnd & _ & Hst)%reachable_at_inv Ht0 Ht Httl.
  rewrite get_lookup by done.
  rewrite set_keeps_new_entry; [|done|done| |lia].
  - rewrite ttl_set.
    by replace (t - now <? CacheManager.ttl self) with true
      by (symmetry; apply Z.ltb_lt; lia).
  - eapply Forall_impl; [done|]. cbn. intros x ?. lia.
Qed.

Lemma reachable_round_trip_witness :
  (CacheManager.get default_config Samples.dumps_empty () "https://example.com"
     None 1500000
     (CacheManager.set default_config Samples.dumps_empty () "https://example.com"
        7%nat None 1000 1001 (CacheManager.init 300))).1 = Some 7%nat.
Proof.
  apply (reachable_round_trip default_config Samples.dumps_empty ()
           "https://example.com" 7%nat None 0 1000 1001 1500000
           (CacheManager.init 300)).
  - reflexivity.
  - apply CacheStates.reach_init.
  - lia.
  - lia.
  - by vm_compute.
Defined.


(** ** Authenticated sessions: cookies and [close_all] *)

Section cookie_facts.
Import AuthSessionManager.

Lemma dom_close l (h : gmap positive ClientSession) : dom (close l h) = dom h.
Proof. unfold close. apply dom_alter_L. Qed.

Lemma create_session_client id s :
  heap (create_session id s).2 !! (create_session id s).1
  = Some {| closed := false; cookie_jar := default ∅ (_cookies s !! id) |}.
Proof. unfold create_session. cbn. by rewrite lookup_insert_eq. Qed.
End cookie_facts.

(** X14. Saved cookies survive [close_session]: after [save_cookies]
    and [close_session] for an id that has a client, the saved cookies are still on file,
    and [get_or_create_session] for that id builds a new, open client
    whose jar holds the cookies the old client had when they were
    saved. *)
Theorem cookies_restored_after_close (session_id : string) (l : positive)
  (c : AuthSessionManager.ClientSession) (s : AuthSessionManager.state) :
  AuthSessionManager._sessions s !! session_id = Some l →
  AuthSessionManager.heap s !! l = Some c →
  let s' := AuthSessionManager.close_session session_id
              (AuthSessionManager.save_cookies session_id s) in
  let r := AuthSessionManager.get_or_create_session session_id s' in
  AuthSessionManager._cookies s' !! session_id
    = Some (AuthSessionManager.cookie_jar c)
  ∧ r.1 ≠ l
  ∧ AuthSessionManager.heap r.2 !! r.1
    = Some {| AuthSessionManager.closed := false;
              AuthSessionManager.cookie_jar := AuthSessionManager.cookie_jar c |}.
Proof.
  intros Hid Hl. cbn zeta.
  assert (AuthSessionManager.close_session session_id
            (AuthSessionManager.save_cookies session_id s)
          = {| AuthSessionManager.heap :=
                 AuthSessionManager.close l (AuthSessionManager.heap s);
               AuthSessionManager._sessions :=
                 delete session_id (AuthSessionManager._sessions s);
               AuthSessionManager._cookies :=
                 <[session_id := AuthSessionManager.cookie_jar c]>
                   (AuthSessionManager._cookies s) |}) as ->.
  { unfold AuthSessionManager.save_cookies. rewrite Hid. cbv zeta.
    unfold AuthSessionManager.close_session. cbn. by rewrite Hid, Hl. }
  unfold AuthSessionManager.get_or_create_session.
  cbn [AuthSessionManager._sessions]. rewrite lookup_delete_eq.
  split; [cbn; by rewrite lookup_insert_eq|]. split.
  - unfold AuthSessionManager.create_session. cbn.
    intros Heq.
    pose proof (is_fresh (dom (AuthSessionManager.close l (AuthSessionManager.heap s))))
      as Hfresh.
    rewrite Heq, dom_close in Hfresh. apply Hfresh, elem_of_dom. eauto.
  - rewrite create_session_client. cbn. by rewrite lookup_insert_eq.
Qed.

Lemma cookies_restored_after_close_witness :
  let s' := AuthSessionManager.close_session "alice"
              (AuthSessionManager.save_cookies "alice" Samples.logged_in) in
  let r := AuthSessionManager.get_or_create_session "alice" s' in
  AuthSessionManager._cookies s' !! "alice"
    = Some (AuthSessionManager.cookie_jar Samples.alice_client)
  ∧ r.1 ≠ 1%positive
  ∧ AuthSessionManager.heap r.2 !! r.1
    = Some {| AuthSessionManager.closed := false;
              AuthSessionManager.cookie_jar :=
                AuthSessionManager.cookie_jar Samples.alice_client |}.
Proof.
  apply (cookies_restored_after_close "alice" 1%positive Samples.alice_client
           Samples.logged_in).
  - reflexivity.
  - reflexivity.
Defined.

(** X15. [close_all] leaves nothing behind: in every state the manager
    can reach, after [close_all] no client is open, no session is
    registered and no cookies are on file, so that the next
    [get_or_create_session] builds a client with an empty jar. *)
Theorem close_all_leaves_nothing (s : AuthSessionManager.state) :
  AuthSessionManager.reachable s →
  let s' := AuthSessionManager.close_all s in
  (∀ l, ¬ AuthSessionManager.live s' l)
  ∧ AuthSessionManager._sessions s' = ∅
  ∧ AuthSessionManager._cookies s' = ∅
  ∧ ∀ session_id,
      let r := AuthSessionManager.get_or_create_session session_id s' in
      AuthSessionManager.heap r.2 !! r.1
      = Some {| AuthSessionManager.closed := false;
                AuthSessionManager.cookie_jar := ∅ |}.
Proof.
  intros Hreach. cbn zeta.
  destruct (reachable_registry_inv s Hreach) as (_ & Hlive & _).
  split; [|split; [done|split; [done|]]].
  - intros l. unfold AuthSessionManager.live, AuthSessionManager.close_all.
    cbn [AuthSessionManager.heap].
    rewrite close_all_closed; [done|].
    destruct (AuthSessionManager.is_closed (AuthSessionManager.heap s) l) eqn:Hc;
      [by right | left]. by apply Hlive.
  - intros session_id. unfold AuthSessionManager.get_or_create_session.
    cbn [AuthSessionManager.close_all AuthSessionManager._sessions].
    rewrite lookup_empty. rewrite create_session_client.
    cbn. by rewrite lookup_empty.
Qed.

Lemma close_all_leaves_nothing_witness :
  let s' := AuthSessionManager.close_all
              (AuthSessionManager.get_or_create_session "alice"
                 AuthSessionManager.init).2 in
  (∀ l, ¬ AuthSessionManager.live s' l)
  ∧ AuthSessionManager._sessions s' = ∅
  ∧ AuthSessionManager._cookies s' = ∅
  ∧ ∀ session_id,
      let r := AuthSessionManager.get_or_create_session session_id s' in
      AuthSessionManager.heap r.2 !! r.1
      = Some {| AuthSessionManager.closed := false;
                AuthSessionManager.cookie_jar := ∅ |}.
Proof.
  apply (close_all_leaves_nothing
           (AuthSessionManager.get_or_create_session "alice"
              AuthSessionManager.init).2).
  apply rtc_once. apply AuthSessionManager.step_get.
Defined.


(** ** [scrape_webpage]: what it raises, cache hits and the retry budget *)

Section scrape_more_facts.
Import Scrape.
Context {Page Resp Headers Net Err Dict : Type}.
Variable cfg : Config.
Variable clock : nat -> Z.
Variable validate_url : string -> bool.
Variable netloc : string -> string.
Variable to_dict : ScrapeOptions -> Dict.
Variable json_dumps : Dict -> string.
Variable empty_dict : Dict.
Variable uniform : Q -> Q -> Net -> Q * Net.
Variable prepare_headers : ScrapeOptions -> Net -> Headers * Net.
Variable overflow_error : Err.
Variable http_get : string -> Headers -> ScrapeOptions -> Net -> (Err + Resp) * Net.
Variable build_result : string -> ScrapeOptions -> Resp -> Z -> Err + Page.

#[local] Abbreviation World := (world Page Net).
#[local] Abbreviation fetch' :=
  (fetch cfg clock to_dict json_dumps empty_dict uniform prepare_headers
     overflow_error http_get build_result).

(** What the retry-wrapped request raises is the error of an HTTP call
    or the [OverflowError] of the back-off. *)
Lemma retry_raises_op_error url headers options (w w' : World) e evs :
  Retry.retry_with_backoff cfg (make_request http_get url headers options)
    (λ _, true) (OpError overflow_error) (draw uniform) Retry.quiet_sleep
    2 60 None w = (Retry.Raised e, w', evs) →
  ∃ e', e = OpError e'.
Proof.
  unfold Retry.retry_with_backoff. intros Hrun.
  eapply (request_loop_raised uniform overflow_error http_get url headers options).
  by erewrite Hrun.
Qed.

(** With no attempt to make, the retry-wrapped request returns [None]
    at once. *)
Lemma retry_without_budget {A E W : Type} (func : W → (E + A) * W)
  (is_exception : E → bool) (overflow : E)
  (draw : Q → Q → W → Q * W) (sleep : Q → W → option E * W) (w : W) :
  MAX_RETRIES cfg ≤ 0 →
  Retry.retry_with_backoff cfg func is_exception overflow draw sleep
    2 60 None w = (Retry.ReturnedNone, w, []).
Proof.
  intros Hmax. unfold Retry.retry_with_backoff, Retry.range. cbn [Retry.py_or].
  by replace (Z.to_nat (MAX_RETRIES cfg)) with 0%nat by lia.
Qed.

(** The [try] block past the rate limiter always hands back a
    dictionary. *)
Lemma fetch_returns url domain options (w : World) :
  ∃ r, (fetch' url domain options w).1.1 = Retry.Returned r.
Proof.
  unfold fetch.
  set (wa := if simulate_human options then _ else _).
  destruct (prepare_headers options (outside wa)) as [headers n].
  destruct (Retry.retry_with_backoff _ _ _ _ _ _ _ _ _ _) as [[o wc] evs] eqn:Hrun.
  destruct o as [resp| |e].
  - destruct (build_result _ _ _ _) as [e|page]; cbn; eauto.
  - cbn. eauto.
  - apply retry_raises_op_error in Hrun as [e' ->]. cbn. eauto.
Qed.

Lemma fetch_without_budget url domain options (w : World) :
  MAX_RETRIES cfg ≤ 0 →
  ∃ ts w',
    fetch' url domain options w = (Retry.Returned (ErrorResult url TypeError ts), w', [])
    ∧ CircuitBreaker.failure_count (circuit_breaker w') domain
      = S (CircuitBreaker.failure_count (circuit_breaker w) domain).
Proof.
  intros Hmax. unfold fetch.
  set (wa := if simulate_human options then _ else _).
  assert (circuit_breaker wa = circuit_breaker w) as Hwa.
  { subst wa. destruct (simulate_human options); [apply draw_keeps | done]. }
  destruct (prepare_headers options (outside wa)) as [headers n].
  rewrite retry_without_budget by done. cbn.
  eexists _, _. split; [reflexivity|].
  cbn. rewrite Hwa.
  unfold CircuitBreaker.failure_count, CircuitBreaker.record_failure.
  cbn [CircuitBreaker.failures]. by rewrite lookup_insert_eq.
Qed.

Lemma with_cache_same (w : World) : with_cache (cache_manager w) w = w.
Proof. by destruct w. Qed.

(** X16. Of the instances of [Exception], [scrape_webpage] raises two
    only: [ValueError], exactly when the url is rejected by the
    validation, and then nothing has been touched; and
    [CircuitBreakerError] for the url's domain, before any request is
    made.  Every other instance of [Exception], whatever the HTTP call,
    the back-off or the parsing raised, comes back as a dictionary.
    (Exceptions that are not instances of [Exception], a cancellation of
    the task for one, pass through the function and are not part of
    [Scrape.exn].) *)
Theorem scrape_webpage_raises_only (fuel : nat) (url : string)
  (options : option ScrapeOptions) (w w' : world Page Net)
  (o : Retry.outcome (result Page Err) (exn Err))
  (evs : list (Retry.event Resp (exn Err))) :
  scrape_webpage cfg clock validate_url netloc to_dict json_dumps empty_dict
    uniform prepare_headers overflow_error http_get build_result fuel url options w
  = Some (o, w', evs) →
  match o with
  | Retry.Raised e =>
    (e = ValueError url ∧ validate_url url = false ∧ w' = w ∧ evs = [])
    ∨ (e = CircuitBreakerError (netloc url) ∧ validate_url url = true
       ∧ evs = [] ∧ outside w' = outside w)
  | Retry.ReturnedNone => False
  | Retry.Returned _ => validate_url url = true
  end.
Proof.
  unfold scrape_webpage. cbv zeta.
  destruct (validate_url url) eqn:Hvalid; cbn [negb].
  2:{ intros [= <- <- <-]. left. done. }
  pose proof (check_cache_keeps cfg clock to_dict json_dumps empty_dict url
                (default default_options options) w) as (Hout & _ & _).
  destruct (check_cache _ _ _ _ _ _ _ _) as [[page|] w1].
  { by intros [= <- <- <-]. }
  cbn [snd] in Hout.
  destruct (CircuitBreaker.is_open _ _ _) as [[|] b].
  { cbn. intros [= <- <- <-]. right. done. }
  destruct (RateLimiter.wait_if_needed _ _ _ _) as [[polls r]|]; [|done].
  destruct (fetch_returns url (netloc url) (default default_options options)
              (advance (2 * S polls) (with_limiter r (advance 1 (with_breaker b w1)))))
    as [res Hres].
  intros Hfetch%(inj Some). rewrite Hfetch in Hres. cbn in Hres. by subst o.
Qed.

(** A look-up that finds an unexpired page ends the call. *)
Lemma scrape_cache_hit (fuel : nat) (url : string)
  (options : option ScrapeOptions) (w : World) (page : Page) (timestamp : Z) :
  validate_url url = true →
  use_cache (default default_options options) = true →
  ENABLE_CACHE cfg = true →
  PyDict.lookup
    (CacheManager._get_cache_key json_dumps empty_dict url
       (Some (to_dict (default default_options options))))
    (CacheManager.cache (cache_manager w)) = Some (page, timestamp) →
  clock (ticks w) - timestamp < CacheManager.ttl (cache_manager w) →
  scrape_webpage cfg clock validate_url netloc to_dict json_dumps empty_dict
    uniform prepare_headers overflow_error http_get build_result fuel url options w
  = Some (Retry.Returned (Success page), advance 1 w, []).
Proof.
  intros Hvalid Huse Hen Hlook Hfresh.
  unfold scrape_webpage. cbv zeta. rewrite Hvalid. cbn [negb].
  unfold check_cache. rewrite Huse. unfold CacheManager.get.
  rewrite Hen. cbn [negb]. cbv zeta. rewrite Hlook.
  replace (clock (ticks w) - timestamp <? CacheManager.ttl (cache_manager w))
    with true by (symmetry; apply Z.ltb_lt; lia).
  by rewrite with_cache_same.
Qed.

(** X17. For a valid url, with [use_cache] and caching enabled, a page
    that is in the cache and not expired is returned as it is, and nothing else happens: the circuit breaker is not consulted
    (it may be open), the rate limiter counts nothing, no request is
    made, and the world only moves on by one reading of the clock. *)
Theorem cached_page_returned (fuel : nat) (url : string)
  (options : option ScrapeOptions) (w : world Page Net)
  (page : Page) (timestamp : Z) :
  let opts := default default_options options in
  validate_url url = true →
  use_cache opts = true →
  ENABLE_CACHE cfg = true →
  PyDict.lookup
    (CacheManager._get_cache_key json_dumps empty_dict url (Some (to_dict opts)))
    (CacheManager.cache (cache_manager w)) = Some (page, timestamp) →
  clock (ticks w) - timestamp < CacheManager.ttl (cache_manager w) →
  scrape_webpage cfg clock validate_url netloc to_dict json_dumps empty_dict
    uniform prepare_headers overflow_error http_get build_result fuel url options w
  = Some (Retry.Returned (Success page), advance 1 w, []).
Proof. intros opts. apply scrape_cache_hit. Qed.

(** X18. With [Config.MAX_RETRIES <= 0] no page can be fetched: once
    past the cache, the circuit breaker and the rate limiter,
    [scrape_webpage] makes no request at all, returns the failure
    dictionary of a [TypeError] (the unpacking of [None]) and records a
    failure of the domain in the circuit breaker. *)
Theorem scrape_without_retry_budget (fuel : nat) (url : string)
  (options : option ScrapeOptions) (w w1 : world Page Net) :
  let opts := default default_options options in
  let domain := netloc url in
  let verdict :=
    CircuitBreaker.is_open domain (clock (ticks w1)) (circuit_breaker w1) in
  let w2 := advance 1 (with_breaker verdict.2 w1) in
  validate_url url = true →
  check_cache cfg clock to_dict json_dumps empty_dict url opts w = (None, w1) →
  verdict.1 = false →
  MAX_RETRIES cfg ≤ 0 →
  ∀ polls r,
    RateLimiter.wait_if_needed fuel domain (poll_clock clock w2) (rate_limiter w2)
      = Some (polls, r) →
    ∃ ts w',
      scrape_webpage cfg clock validate_url netloc to_dict json_dumps empty_dict
        uniform prepare_headers overflow_error http_get build_result fuel url options w
      = Some (Retry.Returned (ErrorResult url TypeError ts), w', [])
      ∧ CircuitBreaker.failure_count (circuit_breaker w') domain
        = S (CircuitBreaker.failure_count verdict.2 domain).
Proof.
  intros opts domain verdict w2 Hvalid Hmiss Hclosed Hmax polls r Hwait.
  destruct (fetch_without_budget url domain opts
              (advance (2 * S polls) (with_limiter r w2)) Hmax)
    as (ts & w' & Hfetch & Hcount).
  exists ts, w'. split; [|done].
  unfold scrape_webpage. fold opts. rewrite Hvalid. cbn [negb].
  rewrite Hmiss. fold domain. fold verdict.
  subst w2. destruct verdict as [o b] eqn:Hv. cbn [fst snd] in *. subst o.
  rewrite Hwait. by rewrite Hfetch.
Qed.
(** The request and the draws leave the cache and the clock alone. *)
Lemma make_request_keeps_cache url headers options (w : World) :
  cache_manager (make_request http_get url headers options w).2 = cache_manager w
  ∧ ticks (make_request http_get url headers options w).2 = ticks w.
Proof. unfold make_request. by destruct (http_get _ _ _ _). Qed.

Lemma draw_keeps_cache a b (w : World) :
  cache_manager (draw uniform a b w).2 = cache_manager w
  ∧ ticks (draw uniform a b w).2 = ticks w.
Proof. unfold draw. by destruct (uniform _ _ _). Qed.


(** What a fetch that ends with a page has done to the cache and the
    clock. *)
Lemma fetch_success_inv url domain options (w w' : World) page evs :
  fetch' url domain options w = (Retry.Returned (Success page), w', evs) →
  use_cache options = true →
  cache_manager w'
  = CacheManager.set cfg json_dumps empty_dict url page (Some (to_dict options))
      (clock (S (ticks w))) (clock (S (S (ticks w)))) (cache_manager w)
  ∧ ticks w' = (ticks w + 3)%nat.
Proof.
  unfold fetch. intros Hfetch Huse.
  set (wa := if simulate_human options then _ else _) in Hfetch.
  assert (cache_manager wa = cache_manager w ∧ ticks wa = ticks w) as Hwa.
  { subst wa. destruct (simulate_human options); [apply draw_keeps_cache | done]. }
  destruct (prepare_headers options (outside wa)) as [headers n].
  pose proof (retry_loop_preserves (make_request http_get url headers options)
                (λ _, true) (OpError overflow_error) (draw uniform)
                Retry.quiet_sleep 2 60
                (λ w', cache_manager w' = cache_manager w ∧ ticks w' = ticks w)) as Hkeep.
  unfold Retry.retry_with_backoff in Hfetch.
  specialize (Hkeep
    (λ s Hs, conj (eq_trans (proj1 (make_request_keeps_cache url headers options s)) (proj1 Hs))
                  (eq_trans (proj2 (make_request_keeps_cache url headers options s)) (proj2 Hs)))
    (λ a b s Hs, conj (eq_trans (proj1 (draw_keeps_cache a b s)) (proj1 Hs))
                      (eq_trans (proj2 (draw_keeps_cache a b s)) (proj2 Hs)))
    (λ d s Hs, Hs)
    (Retry.range (Retry.py_or None (MAX_RETRIES cfg)))
    (Retry.py_or None (MAX_RETRIES cfg)) (with_outside n wa) Hwa).
  destruct (Retry.retry_loop _ _ _ _ _ _ _ _ _ _) as [[o wc] evs0].
  cbn [fst snd] in Hkeep. destruct Hkeep as [Hc Ht].
  destruct o as [resp| |e].
  - destruct (build_result _ _ _ _) as [e|page0].
    + cbn in Hfetch. discriminate.
    + rewrite Huse in Hfetch. injection Hfetch as -> <- _.
      cbn. rewrite Hc, Ht, Nat.add_1_r. split; [done | lia].
  - cbn in Hfetch. discriminate.
  - destruct e; cbn in Hfetch; discriminate.
Qed.



Lemma NoDup_get url (options : option Dict) now (self : CacheManager.state Page) :
  NoDup (CacheManager.cache self).*1 →
  NoDup (CacheManager.cache
           (CacheManager.get cfg json_dumps empty_dict url options now self).2).*1.
Proof.
  intros Hnd. unfold CacheManager.get. destruct (negb _); [done|]. cbv zeta.
  destruct (PyDict.lookup _ _) as [[v t0]|]; [|done].
  destruct (_ <? _); [done|]. by apply NoDup_del.
Qed.

(** X20. A page that was fetched is served from the cache afterwards:
    with caching on, a clock that does not go back and a cache used
    only before the call, if [scrape_webpage] fetches a page (it makes
    at least one request), then the next call for the same url and
    options, begun less than the time to live after the first one began,
    returns that page without a request. *)
Theorem scraped_page_is_cached (fuel fuel' : nat) (url : string)
  (options : option ScrapeOptions) (w w' : world Page Net) (page : Page)
  (evs : list (Retry.event Resp (exn Err))) (t0 : Z) :
  validate_url url = true →
  use_cache (default default_options options) = true →
  ENABLE_CACHE cfg = true →
  (∀ i j, (i ≤ j)%nat → clock i ≤ clock j) →
  CacheStates.reachable_at cfg json_dumps empty_dict t0 (cache_manager w) →
  t0 < clock (ticks w) →
  scrape_webpage cfg clock validate_url netloc to_dict json_dumps empty_dict
    uniform prepare_headers overflow_error http_get build_result fuel url options w
  = Some (Retry.Returned (Success page), w', evs) →
  evs ≠ [] →
  clock (ticks w') - clock (ticks w) < CacheManager.ttl (cache_manager w) →
  scrape_webpage cfg clock validate_url netloc to_dict json_dumps empty_dict
    uniform prepare_headers overflow_error http_get build_result fuel' url options w'
  = Some (Retry.Returned (Success page), advance 1 w', []).
Proof.
  intros Hvalid Huse Hen Hmono Hreach Ht0 Hfirst Hevs Httl.
  apply reachable_at_inv in Hreach as (Hnd & _ & Hst).
  unfold scrape_webpage in Hfirst. cbv zeta in Hfirst.
  rewrite Hvalid in Hfirst. cbn [negb] in Hfirst.
  unfold check_cache in Hfirst. rewrite Huse in Hfirst.
  pose proof (NoDup_get url (Some (to_dict (default default_options options)))
                (clock (ticks w)) (cache_manager w) Hnd) as Hnd'.
  pose proof (ttl_get cfg json_dumps empty_dict url
                (Some (to_dict (default default_options options)))
                (clock (ticks w)) (cache_manager w)) as Httl'.
  assert (Forall (λ item, CacheManager.stamp item ≤ t0)
            (CacheManager.cache
               (CacheManager.get cfg json_dumps empty_dict url
                  (Some (to_dict (default default_options options)))
                  (clock (ticks w)) (cache_manager w)).2)) as Hst'.
  { apply Forall_forall. intros x Hx%elem_of_get.
    rewrite Forall_forall in Hst. by apply Hst. }
  destruct (CacheManager.get _ _ _ _ _ _ _) as [[cached|] c].
  { injection Hfirst as _ _ <-. done. }
  cbn [snd] in Hnd', Httl', Hst'.
  destruct (CircuitBreaker.is_open _ _ _) as [[|] b] in Hfirst.
  { cbn in Hfirst. discriminate. }
  destruct (RateLimiter.wait_if_needed _ _ _ _) as [[polls r]|]; [|done].
  apply (inj Some) in Hfirst.
  apply fetch_success_inv in Hfirst as [Hcache Hticks]; [|done].
  cbn [advance with_limiter with_breaker with_cache cache_manager ticks] in Hcache, Hticks.
  set (t := (ticks w + 1 + 1 + 2 * S polls)%nat) in *.
  assert (clock (ticks w) ≤ clock (S t)) as H1 by (apply Hmono; lia).
  assert (clock (S (S t)) ≤ clock (ticks w')) as H2 by (apply Hmono; lia).
  assert (clock (S t) ≤ clock (S (S t))) as H3 by (apply Hmono; lia).
  apply (scrape_cache_hit fuel' url options w' page (clock (S t))); try done.
  - rewrite Hcache. apply set_keeps_new_entry; [done|done| |lia].
    eapply Forall_impl; [exact Hst'|]. cbn. intros x ?. lia.
  - rewrite Hcache, ttl_set. lia.
Qed.

End scrape_more_facts.


Lemma scrape_webpage_raises_only_witness :
  (Scrape.ValueError (Err := string) "ftp://example.com"
     = Scrape.ValueError "ftp://example.com"
   ∧ Samples.valid "ftp://example.com" = false
   ∧ Samples.tripped_world = Samples.tripped_world
   ∧ ([] : list (Retry.event unit (Scrape.exn string))) = [])
  ∨ (Scrape.ValueError (Err := string) "ftp://example.com"
       = Scrape.CircuitBreakerError (Samples.netloc "ftp://example.com")
     ∧ Samples.valid "ftp://example.com" = true
     ∧ ([] : list (Retry.event unit (Scrape.exn string))) = []
     ∧ Scrape.outside Samples.tripped_world = Scrape.outside Samples.tripped_world).
Proof.
  apply (scrape_webpage_raises_only default_config Samples.clock Samples.valid
           Samples.netloc Samples.to_dict Samples.dumps_empty () Samples.no_jitter
           Samples.headers Samples.overflow Samples.timing_out Samples.parse 1 "ftp://example.com"
           None Samples.tripped_world Samples.tripped_world
           (Retry.Raised (Scrape.ValueError "ftp://example.com")) []).
  reflexivity.
Defined.

Lemma cached_page_returned_witness :
  Samples.scrape default_config 1 "https://example.com" Samples.tripped_cached_world
  = Some (Retry.Returned (Scrape.Success 7%nat),
          Scrape.advance 1 Samples.tripped_cached_world, []).
Proof.
  apply (cached_page_returned default_config Samples.clock Samples.valid
           Samples.netloc Samples.to_dict Samples.dumps_empty () Samples.no_jitter
           Samples.headers Samples.overflow Samples.timing_out Samples.parse 1 "https://example.com"
           None Samples.tripped_cached_world 7%nat 0).
  - reflexivity.
  - reflexivity.
  - reflexivity.
  - reflexivity.
  - by vm_compute.
Defined.

Lemma scrape_without_retry_budget_witness :
  ∃ ts w',
    Samples.scrape Samples.config_no_retries 1 "https://example.com"
      Samples.no_retries_world
    = Some (Retry.Returned
              (Scrape.ErrorResult "https://example.com" Scrape.TypeError ts), w', [])
    ∧ CircuitBreaker.failure_count (Scrape.circuit_breaker w') "example.com" = 1%nat.
Proof.
  refine (scrape_without_retry_budget Samples.config_no_retries Samples.clock
            Samples.valid Samples.netloc Samples.to_dict Samples.dumps_empty ()
            Samples.no_jitter Samples.headers Samples.overflow Samples.timing_out Samples.parse
            1 "https://example.com" None Samples.no_retries_world
            (Scrape.advance 1 Samples.no_retries_world)
            eq_refl eq_refl eq_refl _ 0%nat _ _).
  - by vm_compute.
  - reflexivity.
Defined.


Lemma scraped_page_is_cached_witness :
  Samples.scrape_ok default_config 1 "https://example.com" Samples.after_fetch
  = Some (Retry.Returned (Scrape.Success 7%nat),
          Scrape.advance 1 Samples.after_fetch, []).
Proof.
  apply (scraped_page_is_cached default_config Samples.clock
           Samples.valid Samples.netloc Samples.to_dict Samples.dumps_empty ()
           Samples.no_jitter Samples.headers Samples.overflow Samples.answering Samples.parse
           1 1 "https://example.com" None Samples.fresh_world Samples.after_fetch
           7%nat [Retry.Invoke 0 (inr ())] (-1)).
  - reflexivity.
  - reflexivity.
  - reflexivity.
  - intros i j Hij. unfold Samples.clock. lia.
  - apply CacheStates.reach_init.
  - by vm_compute.
  - reflexivity.
  - discriminate.
  - by vm_compute.
Defined.


(** ** Substrings *)

Section string_facts.
Import PyStr.

Lemma prefix_spec (p s : string) :
  String.prefix p s = true ↔ ∃ b, s = p +:+ b.
Proof.
  revert p. induction s as [|c' s IH]; intros [|c p]; cbn.
  - split; [intros _; by exists "" | done].
  - split; [done | by intros [b ?]].
  - split; [intros _; by exists (String c' s) | done].
  - destruct (ascii_dec c c') as [<-|Hne].
    + rewrite IH. split; intros [b Hb]; exists b.
      * by rewrite append_cons, Hb.
      * rewrite append_cons in Hb. by injection Hb.
    + split; [done|]. intros [b Hb]. rewrite append_cons in Hb. congruence.
Qed.

Lemma contains_spec (needle hay : string) :
  contains needle hay = true ↔ ∃ a b, hay = a +:+ needle +:+ b.
Proof.
  induction hay as [|c hay IH]; cbn [contains].
  - rewrite orb_false_r, prefix_spec. split.
    + intros [b Hb]. by exists "", b.
    + intros ([|c a] & b & Hab); [by exists b | done].
  - rewrite orb_true_iff, prefix_spec, IH. split.
    + intros [[b Hb] | (a & b & Hab)].
      * by exists "", b.
      * exists (String c a), b. by rewrite append_cons, Hab.
    + intros ([|c' a] & b & Hab).
      * left. by exists b.
      * right. rewrite append_cons in Hab. injection Hab as _ Hab. by exists a, b.
Qed.

Lemma contains_trans (s1 s2 s3 : string) :
  contains s1 s2 = true → contains s2 s3 = true → contains s1 s3 = true.
Proof.
  rewrite !contains_spec. intros (a & b & ->) (a' & b' & ->).
  exists (a' +:+ a), (b +:+ b'). by rewrite !append_append.
Qed.

Lemma contains_empty (s : string) : contains "" s = true.
Proof. apply contains_spec. by exists "", s. Qed.

Lemma any_in_true (xs : list string) (x s : string) :
  x ∈ xs → contains x s = true → any_in xs s = true.
Proof.
  intros Hx Hc. unfold any_in. apply existsb_exists. exists x.
  split; [by apply list_elem_of_In | done].
Qed.

(** A string that holds none of the needles holds nothing that holds
    one of them. *)
Lemma any_in_false (xs : list string) (x y s : string) :
  any_in xs s = false → x ∈ xs → contains x y = true → contains y s = false.
Proof.
  intros Hnone Hx Hxy. destruct (contains y s) eqn:Hys; [|done].
  rewrite (any_in_true xs x s Hx) in Hnone; [done|].
  by apply (contains_trans x y s).
Qed.
End string_facts.

(** ** The pooled session *)

(** X21. [get_session] always hands out an open session, so that
    [get_health_status] reports it as active; called again, it hands out
    the same session and changes nothing; and after [close] the manager
    recovers: the next [get_session] builds another session, which is
    open, while the first one stays closed. *)
Theorem session_manager_recovers (self : SessionManager.state) :
  let r := SessionManager.get_session self in
  let r' := SessionManager.get_session (SessionManager.close r.2) in
  SessionManager.closed r.2 r.1 = false
  ∧ (SessionManager.health_active self).1 = true
  ∧ SessionManager.get_session r.2 = r
  ∧ r'.1 ≠ r.1
  ∧ SessionManager.closed r'.2 r'.1 = false
  ∧ SessionManager.closed r'.2 r.1 = true.
Proof.
  cbn zeta.
  assert (∀ s, SessionManager.closed (SessionManager.new_session s).2
                 (SessionManager.new_session s).1 = false) as Hnew.
  { intros s. unfold SessionManager.new_session, SessionManager.closed. cbn.
    by rewrite lookup_insert_eq. }
  assert (SessionManager.closed (SessionManager.get_session self).2
            (SessionManager.get_session self).1 = false
          ∧ SessionManager._session (SessionManager.get_session self).2
            = Some (SessionManager.get_session self).1) as [Hopen Hreg].
  { unfold SessionManager.get_session.
    destruct (SessionManager._session self) as [l|] eqn:Hs; [|by split].
    destruct (SessionManager.closed self l) eqn:Hc; by split. }
  set (r := SessionManager.get_session self) in *.
  assert (SessionManager.get_session (SessionManager.close r.2)
          = SessionManager.new_session (SessionManager.close r.2)) as Hre.
  { unfold SessionManager.get_session at 1.
    cbn [SessionManager.close SessionManager._session]. rewrite Hreg.
    unfold SessionManager.closed, SessionManager.close.
    cbn [SessionManager.sessions]. by rewrite Hreg, lookup_insert_eq. }
  assert ((SessionManager.new_session (SessionManager.close r.2)).1 ≠ r.1) as Hne.
  { unfold SessionManager.new_session, SessionManager.close. cbn. rewrite Hreg.
    intros Heq.
    pose proof (is_fresh (dom (<[r.1 := true]> (SessionManager.sessions r.2))))
      as Hfresh.
    rewrite Heq in Hfresh. apply Hfresh. rewrite dom_insert_L. set_solver. }
  repeat split.
  - done.
  - unfold SessionManager.health_active. fold r. destruct r as [l s].
    cbn in *. by rewrite Hopen.
  - unfold SessionManager.get_session at 1. rewrite Hreg, Hopen. by destruct r.
  - by rewrite Hre.
  - rewrite Hre. apply Hnew.
  - rewrite Hre. unfold SessionManager.new_session, SessionManager.closed.
    cbn [snd SessionManager.sessions]. rewrite lookup_insert_ne.
    + unfold SessionManager.close. cbn [SessionManager.sessions].
      by rewrite Hreg, lookup_insert_eq.
    + intros Heq. apply Hne. unfold SessionManager.new_session. cbn [fst]. done.
Qed.

(** ** CAPTCHA detection and the login verdict *)

(** X22. What [extract_form_fields] reports about CAPTCHAs: a form is
    flagged exactly when its lower-cased markup contains [captcha] or
    [cf-turnstile]; the label [Google reCAPTCHA] is never given, because
    markup that contains [g-recaptcha] contains [recaptcha], which is
    tried first and gives [reCAPTCHA]. *)
Theorem captcha_detection (form_html : string) :
  ((Forms.detect_captcha form_html).1 = true
   ↔ PyStr.contains "captcha" form_html = true
     ∨ PyStr.contains "cf-turnstile" form_html = true)
  ∧ (Forms.detect_captcha form_html).2 ≠ Some "Google reCAPTCHA"
  ∧ (PyStr.contains "g-recaptcha" form_html = true →
     Forms.detect_captcha form_html = (true, Some "reCAPTCHA")).
Proof.
  assert (∀ x, PyStr.contains "captcha" x = true →
               PyStr.contains x form_html = true →
               PyStr.contains "captcha" form_html = true) as Hcap.
  { intros x ??. by apply (contains_trans _ x). }
  unfold Forms.detect_captcha, Forms.captcha_indicators.
  cbn [Forms.first_indicator].
  destruct (PyStr.contains "recaptcha" form_html) eqn:H1.
  { cbn. repeat split; try done. intros _. left. by apply (Hcap "recaptcha"). }
  destruct (PyStr.contains "g-recaptcha" form_html) eqn:H2.
  { rewrite (contains_trans "recaptcha" "g-recaptcha" form_html) in H1; done. }
  destruct (PyStr.contains "h-captcha" form_html) eqn:H3.
  { cbn. repeat split; try done. intros _. left. by apply (Hcap "h-captcha"). }
  destruct (PyStr.contains "captcha" form_html) eqn:H4.
  { cbn. repeat split; try done. intros _. by left. }
  destruct (PyStr.contains "cf-turnstile" form_html) eqn:H5.
  { cbn. repeat split; try done. intros _. by right. }
  cbn. repeat split; try done. by intros [?|?].
Qed.

(** X23. The verdict [login_successful] of [login_to_website] is the
    search for the success words in the page and nothing more: the test
    that the final url is still the login page never changes it.  So a
    page that repeats the user name counts as a successful login, and
    with an empty user name every login does. *)
Theorem login_verdict (page_text username_lower final_path login_path : string) :
  Forms.login_successful page_text username_lower final_path login_path
    = PyStr.any_in (Forms.success_indicators username_lower) page_text
  ∧ (PyStr.contains username_lower page_text = true →
     Forms.login_successful page_text username_lower final_path login_path = true)
  ∧ Forms.login_successful page_text "" final_path login_path = true.
Proof.
  assert (∀ u, Forms.login_successful page_text u final_path login_path
               = PyStr.any_in (Forms.success_indicators u) page_text) as Heq.
  { intros u. unfold Forms.login_successful. cbv zeta.
    destruct (PyStr.any_in _ _); by destruct (String.eqb _ _). }
  assert (∀ u, PyStr.contains u page_text = true →
               Forms.login_successful page_text u final_path login_path = true) as Hname.
  { intros u Hu. rewrite Heq. apply (any_in_true _ u); [|done].
    unfold Forms.success_indicators. set_solver. }
  split; [apply Heq|]. split; [apply Hname|]. apply Hname, contains_empty.
Qed.


(** ** API discovery *)

Section discovery_facts.
Import APIDiscovery.
Variable urljoin : string -> string -> string.
Variable lower : string -> string.
Variable netloc : string -> string.

Lemma filter_ext_elem_of {A : Type} (P1 P2 : A → Prop)
  `{!∀ x, Decision (P1 x)} `{!∀ x, Decision (P2 x)} (l : list A) :
  (∀ x, x ∈ l → P1 x ↔ P2 x) → filter P1 l = filter P2 l.
Proof.
  induction l as [|x l IH]; intros Hext; [done|].
  rewrite !filter_cons.
  rewrite IH by (intros y Hy; apply Hext; by right).
  pose proof (Hext x (list_elem_of_here x l)) as Hx.
  destruct (decide (P1 x)), (decide (P2 x)); tauto || done.
Qed.

Lemma elem_of_discover_endpoints clock tick url0 matches ep :
  ep ∈ discover_endpoints urljoin lower clock tick url0 matches →
  static_asset (url ep) = false
  ∧ method ep = (if login_keyword lower (url ep) then "POST" else "GET").
Proof.
  revert tick. induction matches as [|m rest IH]; intros tick;
    cbn [discover_endpoints]; cbv zeta.
  - by intros ?%elem_of_nil.
  - set (endpoint_url := if PyStr.startswith "http" m then m else urljoin url0 m).
    destruct (static_asset endpoint_url) eqn:Hstatic; [apply IH|].
    intros [->|Hin]%elem_of_cons; [done | by apply (IH (S tick))].
Qed.

(** X24. What [discover_endpoints] keeps: no endpoint whose url
    contains [.json] (it contains [.js] and is skipped as a static
    asset); and an endpoint gets the method [POST] exactly when its
    lower-cased url contains [login], [auth] or [signin], [GET]
    otherwise, so that the endpoints [smart_login] tries are just the
    [POST] ones. *)
Theorem discovered_endpoints (clock : nat → Z) (tick : nat) (url0 : string)
  (matches : list string) :
  let eps := discover_endpoints urljoin lower clock tick url0 matches in
  (∀ ep, ep ∈ eps →
     PyStr.contains ".json" (url ep) = false
     ∧ (method ep = "POST" ↔ login_keyword lower (url ep) = true)
     ∧ (method ep = "POST" ∨ method ep = "GET"))
  ∧ login_endpoints lower eps = filter (λ ep, method ep = "POST") eps.
Proof.
  cbn zeta. split.
  - intros ep [Hstatic Hm]%elem_of_discover_endpoints. split.
    + apply (any_in_false [".css"; ".js"; ".jpg"; ".png"] ".js"); [done| |done].
      set_solver.
    + rewrite Hm. destruct (login_keyword lower (url ep)); split; try done; eauto.
  - unfold login_endpoints. apply filter_ext_elem_of.
    intros ep [_ Hm]%elem_of_discover_endpoints.
    rewrite Hm. destruct (login_keyword lower (url ep)); cbn; split; done.
Qed.

Lemma filter_known_urls (known eps : list endpoint) :
  (∀ ep, ep ∈ eps → url ep ∈ url <$> known) →
  filter (λ ep, url ep ∉ url <$> known) eps = [].
Proof.
  intros Hall. induction eps as [|ep eps IH]; [done|].
  rewrite filter_cons_False.
  - apply IH. intros ep' Hep'. apply Hall. by right.
  - intros Hnot. apply Hnot, Hall. by left.
Qed.

Lemma save_discovery_lookup url0 eps now now' files :
  save_discovery lower netloc url0 eps now now' files
    !! file_path (get_domain lower netloc url0)
  = Some (Some
      match files !! file_path (get_domain lower netloc url0) with
      | Some (Some existing) =>
        {| d_domain := d_domain existing; d_url := d_url existing;
           last_updated := now';
           endpoints := endpoints existing
                        ++ filter (λ ep, url ep ∉ url <$> endpoints existing) eps |}
      | _ => {| d_domain := get_domain lower netloc url0; d_url := url0;
                last_updated := now; endpoints := eps |}
      end).
Proof.
  unfold save_discovery. cbv zeta. rewrite lookup_insert_eq.
  by destruct (files !! _) as [[existing|]|].
Qed.

(** X25. [save_discovery] and [get_cached_discovery] round-trip per
    domain: after a save, any url of the same domain gets a discovery
    back, in which every saved endpoint's url is present; what was on
    file before is kept, in its order and at the front, under its domain
    and url; an unreadable file is replaced; other domains' files are
    untouched; and saving the same endpoints again adds nothing. *)
Theorem discovery_round_trip (url0 url1 : string) (eps : list endpoint)
  (now now' now2 now2' : Z) (files : gmap string (option discovery)) :
  get_domain lower netloc url1 = get_domain lower netloc url0 →
  let files' := save_discovery lower netloc url0 eps now now' files in
  ∃ d,
    get_cached_discovery lower netloc url1 files' = Some d
    ∧ (∀ ep, ep ∈ eps → url ep ∈ url <$> endpoints d)
    ∧ (∀ old, get_cached_discovery lower netloc url0 files = Some old →
         endpoints old `prefix_of` endpoints d
         ∧ d_domain d = d_domain old ∧ d_url d = d_url old)
    ∧ (get_cached_discovery lower netloc url0 files = None →
       d = {| d_domain := get_domain lower netloc url0; d_url := url0;
              last_updated := now; endpoints := eps |})
    ∧ (∀ path, path ≠ file_path (get_domain lower netloc url0) →
         files' !! path = files !! path)
    ∧ ∃ d',
        get_cached_discovery lower netloc url1
          (save_discovery lower netloc url0 eps now2 now2' files') = Some d'
        ∧ endpoints d' = endpoints d.
Proof.
  intros Hdom files'.
  pose proof (save_discovery_lookup url0 eps now now' files) as Hl.
  fold files' in Hl.
  set (d := match files !! file_path (get_domain lower netloc url0) with
            | Some (Some existing) => _
            | _ => _
            end) in Hl.
  assert (∀ ep, ep ∈ eps → url ep ∈ url <$> endpoints d) as Hall.
  { intros ep Hep. subst d.
    destruct (files !! _) as [[existing|]|]; cbn [endpoints].
    2,3: by apply list_elem_of_fmap_2.
    rewrite fmap_app, elem_of_app.
    destruct (decide (url ep ∈ url <$> endpoints existing)); [by left | right].
    apply list_elem_of_fmap_2. by apply list_elem_of_filter. }
  exists d. split; [|split; [done|split; [|split; [|split]]]].
  - unfold get_cached_discovery. by rewrite Hdom, Hl.
  - intros old. unfold get_cached_discovery. subst d.
    destruct (files !! _) as [[existing|]|]; [|done|done].
    intros [= ->]. cbn. split; [|done]. by eexists.
  - unfold get_cached_discovery. subst d.
    by destruct (files !! _) as [[existing|]|].
  - intros path Hpath. unfold files', save_discovery. cbv zeta.
    by rewrite lookup_insert_ne.
  - pose proof (save_discovery_lookup url0 eps now2 now2' files') as Hl'.
    rewrite Hl in Hl'. eexists. split.
    + unfold get_cached_discovery. rewrite Hdom, Hl'. done.
    + cbn [endpoints]. rewrite filter_known_urls by done. apply app_nil_r.
Qed.
End discovery_facts.

Lemma discovery_round_trip_witness :
  let files' := APIDiscovery.save_discovery id Samples.netloc
                  "https://www.example.com" Samples.site_endpoints 1 2 ∅ in
  ∃ d,
    APIDiscovery.get_cached_discovery id Samples.netloc "http://example.com" files'
      = Some d
    ∧ (∀ ep, ep ∈ Samples.site_endpoints →
         APIDiscovery.url ep ∈ APIDiscovery.url <$> APIDiscovery.endpoints d)
    ∧ (∀ old, APIDiscovery.get_cached_discovery id Samples.netloc
                "https://www.example.com" ∅ = Some old →
         APIDiscovery.endpoints old `prefix_of` APIDiscovery.endpoints d
         ∧ APIDiscovery.d_domain d = APIDiscovery.d_domain old
         ∧ APIDiscovery.d_url d = APIDiscovery.d_url old)
    ∧ (APIDiscovery.get_cached_discovery id Samples.netloc
         "https://www.example.com" ∅ = None →
       d = {| APIDiscovery.d_domain :=
                APIDiscovery.get_domain id Samples.netloc "https://www.example.com";
              APIDiscovery.d_url := "https://www.example.com";
              APIDiscovery.last_updated := 1;
              APIDiscovery.endpoints := Samples.site_endpoints |})
    ∧ (∀ path,
         path ≠ APIDiscovery.file_path
                  (APIDiscovery.get_domain id Samples.netloc "https://www.example.com") →
         files' !! path = (∅ : gmap string (option APIDiscovery.discovery)) !! path)
    ∧ ∃ d',
        APIDiscovery.get_cached_discovery id Samples.netloc "http://example.com"
          (APIDiscovery.save_discovery id Samples.netloc "https://www.example.com"
             Samples.site_endpoints 3 4 files') = Some d'
        ∧ APIDiscovery.endpoints d' = APIDiscovery.endpoints d.
Proof.
  apply (discovery_round_trip id Samples.netloc "https://www.example.com"
           "http://example.com" Samples.site_endpoints 1 2 3 4 ∅).
  reflexivity.
Defined.


(** ** Failing calls in a row *)

Section breaker_run_facts.
Import Scrape ScrapeRun.
Context {Page Resp Headers Net Err Dict : Type}.
Variable cfg : Config.
Variable clock : nat -> Z.
Variable validate_url : string -> bool.
Variable netloc : string -> string.
Variable to_dict : ScrapeOptions -> Dict.
Variable json_dumps : Dict -> string.
Variable empty_dict : Dict.
Variable uniform : Q -> Q -> Net -> Q * Net.
Variable prepare_headers : ScrapeOptions -> Net -> Headers * Net.
Variable overflow_error : Err.
Variable http_get : string -> Headers -> ScrapeOptions -> Net -> (Err + Resp) * Net.
Variable build_result : string -> ScrapeOptions -> Resp -> Z -> Err + Page.

#[local] Abbreviation World := (world Page Net).
#[local] Abbreviation run :=
  (scrape_webpage cfg clock validate_url netloc to_dict json_dumps empty_dict
     uniform prepare_headers overflow_error http_get build_result).
#[local] Abbreviation runs :=
  (scrapes cfg clock validate_url netloc to_dict json_dumps empty_dict
     uniform prepare_headers overflow_error http_get build_result).

(** The singletons and the clock, which the request and the draws leave
    alone. *)
#[local] Abbreviation same_singletons w w' :=
  (cache_manager w' = cache_manager w
   ∧ circuit_breaker w' = circuit_breaker w
   ∧ rate_limiter w' = rate_limiter w
   ∧ ticks w' = ticks w).

Lemma make_request_frame url headers options (w : World) :
  same_singletons w (make_request http_get url headers options w).2.
Proof. unfold make_request. by destruct (http_get _ _ _ _). Qed.

Lemma draw_frame a b (w : World) : same_singletons w (draw uniform a b w).2.
Proof. unfold draw. by destruct (uniform _ _ _). Qed.

(** A fetch whose every attempt fails: what it returns and what it
    leaves. *)
Lemma fetch_exhausts_world url domain options (w : World) :
  (∀ headers n, ∃ e, (http_get url headers options n).1 = inl e) →
  1 ≤ MAX_RETRIES cfg →
  ∃ e w' evs,
    fetch cfg clock to_dict json_dumps empty_dict uniform prepare_headers
      overflow_error http_get build_result url domain options w
    = (Retry.Returned (ErrorResult url (OpError e) (clock (S (ticks w)))), w', evs)
    ∧ cache_manager w' = cache_manager w
    ∧ rate_limiter w' = rate_limiter w
    ∧ circuit_breaker w'
      = CircuitBreaker.record_failure domain (clock (ticks w)) (circuit_breaker w)
    ∧ ticks w' = (ticks w + 2)%nat.
Proof.
  intros Hfail Hmax. unfold fetch.
  set (wa := if simulate_human options then _ else _).
  assert (same_singletons w wa) as Hwa.
  { subst wa. destruct (simulate_human options); [apply draw_frame | done]. }
  destruct (prepare_headers options (outside wa)) as [headers n].
  set (wb := with_outside n wa).
  assert (same_singletons w wb) as Hwb by done.
  unfold Retry.retry_with_backoff, Retry.range. cbn [Retry.py_or].
  destruct (Z.to_nat (MAX_RETRIES cfg)) as [|k] eqn:Hk; [lia|].
  destruct (retry_loop_raises (make_request http_get url headers options)
              (λ _, true) (OpError overflow_error) (draw uniform)
              Retry.quiet_sleep 2 60 (MAX_RETRIES cfg) k 0%nat wb)
    as (e' & Hraised).
  { intros s. destruct (make_request_fails http_get url headers options s Hfail) as [e He].
    by exists (OpError e). }
  { lia. }
  pose proof (request_loop_raised uniform overflow_error http_get url headers
                options (seq 0 (S k)) (MAX_RETRIES cfg) wb e') as Hop.
  pose proof (retry_loop_preserves (make_request http_get url headers options)
                (λ _, true) (OpError overflow_error) (draw uniform)
                Retry.quiet_sleep 2 60 (λ w', same_singletons w w')) as Hkeep.
  specialize (Hkeep
    (λ s Hs,
       let H := make_request_frame url headers options s in
       conj (eq_trans (proj1 H) (proj1 Hs))
         (conj (eq_trans (proj1 (proj2 H)) (proj1 (proj2 Hs)))
            (conj (eq_trans (proj1 (proj2 (proj2 H))) (proj1 (proj2 (proj2 Hs))))
               (eq_trans (proj2 (proj2 (proj2 H))) (proj2 (proj2 (proj2 Hs)))))))
    (λ a b s Hs,
       let H := draw_frame a b s in
       conj (eq_trans (proj1 H) (proj1 Hs))
         (conj (eq_trans (proj1 (proj2 H)) (proj1 (proj2 Hs)))
            (conj (eq_trans (proj1 (proj2 (proj2 H))) (proj1 (proj2 (proj2 Hs))))
               (eq_trans (proj2 (proj2 (proj2 H))) (proj2 (proj2 (proj2 Hs)))))))
    (λ d s Hs, Hs)
    (seq 0 (S k)) (MAX_RETRIES cfg) wb Hwb).
  destruct (Retry.retry_loop _ _ _ _ _ _ _ _ _ wb) as [[o wc] evs].
  cbn [fst snd] in Hraised, Hop, Hkeep. subst o.
  destruct Hkeep as (Hc & Hb & Hl & Ht).
  destruct (Hop eq_refl) as [e ->].
  unfold handler. eexists e, _, evs. split.
  - cbn [advance ticks with_breaker]. rewrite Ht, Nat.add_1_r. reflexivity.
  - cbn. rewrite Hc, Hb, Hl, Ht. repeat split. lia.
Qed.

(** With nothing cached, the look-up finds nothing. *)
Lemma check_cache_empty url options (w : World) :
  CacheManager.cache (cache_manager w) = [] →
  ∃ w1,
    check_cache cfg clock to_dict json_dumps empty_dict url options w = (None, w1)
    ∧ cache_manager w1 = cache_manager w
    ∧ circuit_breaker w1 = circuit_breaker w
    ∧ rate_limiter w1 = rate_limiter w
    ∧ outside w1 = outside w
    ∧ (ticks w ≤ ticks w1)%nat.
Proof.
  intros Hempty. unfold check_cache.
  destruct (use_cache options); [|by exists w].
  unfold CacheManager.get.
  destruct (negb (ENABLE_CACHE cfg)).
  - eexists. split; [reflexivity|]. cbn. by rewrite Nat.add_1_r; repeat split; try lia.
  - cbv zeta. rewrite Hempty. cbn [PyDict.lookup].
    eexists. split; [reflexivity|]. cbn. by rewrite Nat.add_1_r; repeat split; try lia.
Qed.

(** A breaker that counts [k] failures of the domain, the last of them
    less than a minute ago, answers whether [k] reaches 5 and resets
    nothing. *)
Lemma is_open_counting (k : nat) (domain : string) (now : Z)
  (b : CircuitBreaker.state) :
  CircuitBreaker.failure_threshold b = 5 →
  CircuitBreaker.recovery_timeout b = 60 →
  CircuitBreaker.failures b !! domain = match k with O => None | S _ => Some k end →
  (∀ t, CircuitBreaker.last_failure_time b !! domain = Some t →
        0 ≤ now - t < timedelta_seconds 60) →
  CircuitBreaker.is_open domain now b = (bool_decide (5 ≤ k)%nat, b).
Proof.
  intros Hth Hto Hf Hlast. unfold CircuitBreaker.is_open. rewrite Hf.
  destruct k as [|k]; [done|].
  assert ((CircuitBreaker.failure_threshold b <=? Z.of_nat (S k))
          = bool_decide (5 ≤ S k)%nat) as Hv.
  { rewrite Hth. case_bool_decide; [apply Z.leb_le | apply Z.leb_gt]; lia. }
  destruct (CircuitBreaker.last_failure_time b !! domain) as [t|]; cbv zeta.
  - specialize (Hlast t eq_refl). apply td_seconds_in_window in Hlast.
    rewrite Hto.
    replace (60 <? td_seconds (now - t)) with false
      by (symmetry; apply Z.ltb_ge; lia).
    by rewrite Hv.
  - by rewrite Hv.
Qed.

Section failing.
Variables (fuel : nat) (url : string) (options : option ScrapeOptions).
Hypothesis Hvalid : validate_url url = true.
Hypothesis Hfuel : (1 ≤ fuel)%nat.
Hypothesis Hmax : 1 ≤ MAX_RETRIES cfg.
Hypothesis Hrate : 5 ≤ RATE_LIMIT_REQUESTS cfg.
Hypothesis Hfail :
  ∀ headers n, ∃ e, (http_get url headers (default default_options options) n).1 = inl e.
Hypothesis Hclock : ∀ i j, (i ≤ j)%nat → 0 ≤ clock j - clock i < timedelta_seconds 60.

Lemma scrape_failing_step (k : nat) (w : World) :
  (k < 5)%nat →
  after_failures cfg clock k (netloc url) w →
  ∃ e ts w' evs,
    run fuel url options w
    = Some (Retry.Returned (ErrorResult url (OpError e) ts), w', evs)
    ∧ after_failures cfg clock (S k) (netloc url) w'.
Proof.
  intros Hk (Hcache & Hth & Hto & Hf & Hlast & Hmr & Hrec).
  unfold scrape_webpage. cbv zeta. rewrite Hvalid. cbn [negb].
  destruct (check_cache_empty url (default default_options options) w Hcache)
    as (w1 & -> & Hc1 & Hb1 & Hl1 & _ & Ht1).
  rewrite (is_open_counting k (netloc url) (clock (ticks w1)) (circuit_breaker w1)).
  2,3,4: by rewrite Hb1.
  2:{ rewrite Hb1. intros t (i & Hi & ->)%Hlast. apply Hclock. lia. }
  rewrite bool_decide_eq_false_2 by lia.
  set (w2 := advance 1 (with_breaker (circuit_breaker w1) w1)).
  destruct fuel as [|fuel']; [lia|]. cbn [RateLimiter.wait_if_needed].
  set (now := (poll_clock clock w2 0).1). set (ct := (poll_clock clock w2 0).2).
  destruct (check_rate_limit_spec (netloc url) now ct (rate_limiter w2))
    as (Hv & Hmr' & _ & Hdom & _). cbn zeta in Hv, Hdom.
  pose proof (length_recent (now - timedelta_seconds (RateLimiter.period (rate_limiter w2)))
                (RateLimiter.recorded (rate_limiter w2) (netloc url))) as Hlen.
  fold (RateLimiter.in_window now (rate_limiter w2) (netloc url)) in Hlen.
  assert (rate_limiter w2 = rate_limiter w) as Hl2 by (subst w2; cbn; done).
  rewrite Hl2 in Hv, Hmr', Hdom, Hlen.
  assert (negb (RateLimiter.max_requests (rate_limiter w)
                <=? Z.of_nat (length (RateLimiter.in_window now (rate_limiter w)
                                        (netloc url)))) = true) as Hadm.
  { apply negb_true_iff, Z.leb_gt. lia. }
  rewrite Hadm in Hv, Hdom. rewrite Hl2.
  destruct (RateLimiter.check_rate_limit (netloc url) now ct (rate_limiter w))
    as [ok r] eqn:Hcheck. cbn [fst snd] in Hv, Hmr', Hdom. subst ok.
  destruct (fetch_exhausts_world url (netloc url) (default default_options options)
              (advance (2 * 1) (with_limiter r w2)) Hfail Hmax)
    as (e & w' & evs & Hfetch & Hc' & Hl' & Hb' & Ht').
  rewrite Hfetch. eexists e, _, w', evs. split; [reflexivity|].
  subst w2.
  cbn [advance with_limiter with_breaker cache_manager circuit_breaker
       rate_limiter ticks] in Hc', Hl', Hb', Ht'.
  unfold after_failures. rewrite Hc', Hl', Hb', Hc1, Hb1.
  cbn [CircuitBreaker.record_failure CircuitBreaker.failure_threshold
       CircuitBreaker.recovery_timeout CircuitBreaker.failures
       CircuitBreaker.last_failure_time].
  rewrite !lookup_insert_eq, Hf. repeat split; try done.
  - by destruct k.
  - intros t [= <-]. eexists. split; [|reflexivity]. lia.
  - congruence.
  - rewrite Hdom, length_app. cbn [length]. lia.
Qed.

Lemma scrapes_failing (n : nat) : ∀ (k : nat) (w : World),
  (k + n ≤ 5)%nat →
  after_failures cfg clock k (netloc url) w →
  ∃ os w',
    runs n fuel url options w = Some (os, w')
    ∧ length os = n
    ∧ Forall (λ o, ∃ e ts, o = Retry.Returned (ErrorResult url (OpError e) ts)) os
    ∧ after_failures cfg clock (k + n) (netloc url) w'.
Proof.
  induction n as [|n IH]; intros k w Hkn Hinv.
  - exists [], w. rewrite Nat.add_0_r.
    split; [done|]. split; [done|]. split; [constructor | done].
  - destruct (scrape_failing_step k w) as (e & ts & w1 & evs & Hrun & Hinv1);
      [lia | done |].
    destruct (IH (S k) w1) as (os & w' & Hruns & Hlen & Hall & Hinv');
      [lia | done |].
    exists (Retry.Returned (ErrorResult url (OpError e) ts) :: os), w'.
    cbn [scrapes]. rewrite Hrun, Hruns.
    split; [done|]. split; [cbn; by rewrite Hlen|]. split.
    + constructor; [eauto | done].
    + by replace (k + S n)%nat with (S k + n)%nat by lia.
Qed.

Lemma scrape_tripped (w : World) :
  after_failures cfg clock 5 (netloc url) w →
  ∃ w',
    run fuel url options w
    = Some (Retry.Raised (CircuitBreakerError (netloc url)), w', [])
    ∧ outside w' = outside w.
Proof.
  intros (Hcache & Hth & Hto & Hf & Hlast & _).
  unfold scrape_webpage. cbv zeta. rewrite Hvalid. cbn [negb].
  destruct (check_cache_empty url (default default_options options) w Hcache)
    as (w1 & -> & Hc1 & Hb1 & Hl1 & Ho1 & Ht1).
  rewrite (is_open_counting 5 (netloc url) (clock (ticks w1)) (circuit_breaker w1)).
  2,3,4: by rewrite Hb1.
  2:{ rewrite Hb1. intros t (i & Hi & ->)%Hlast. apply Hclock. lia. }
  rewrite bool_decide_eq_true_2 by lia. cbn.
  eexists. split; [reflexivity|]. done.
Qed.
End failing.

(** X26. The circuit breaker at work: from the singletons as the module
    creates them, with a retry budget of at least 1 and a rate limit of
    at least 5 requests, when every HTTP attempt for a valid url fails
    and the calls are made within a minute, five calls of
    [scrape_webpage] in a row each return the failure dictionary, and
    the sixth raises [CircuitBreakerError] without touching the
    network. *)
Theorem breaker_trips_after_five_failures (fuel : nat) (url : string)
  (options : option ScrapeOptions) (current_time : Z) (n0 : Net) :
  validate_url url = true →
  (1 ≤ fuel)%nat →
  1 ≤ MAX_RETRIES cfg →
  5 ≤ RATE_LIMIT_REQUESTS cfg →
  (∀ headers n,
     ∃ e, (http_get url headers (default default_options options) n).1 = inl e) →
  (∀ i j, (i ≤ j)%nat → 0 ≤ clock j - clock i < timedelta_seconds 60) →
  ∃ os w5 w6,
    scrapes cfg clock validate_url netloc to_dict json_dumps empty_dict
      uniform prepare_headers overflow_error http_get build_result 5 fuel url options
      (initial_world cfg current_time n0) = Some (os, w5)
    ∧ length os = 5%nat
    ∧ Forall (λ o, ∃ e ts, o = Retry.Returned (ErrorResult url (OpError e) ts)) os
    ∧ scrape_webpage cfg clock validate_url netloc to_dict json_dumps empty_dict
        uniform prepare_headers overflow_error http_get build_result fuel url options w5
      = Some (Retry.Raised (CircuitBreakerError (netloc url)), w6, [])
    ∧ outside w6 = outside w5.
Proof.
  intros Hvalid Hfuel Hmax Hrate Hfail Hclock.
  assert (after_failures cfg clock 0 (netloc url)
            (initial_world cfg current_time n0 : World)) as Hinit.
  { unfold after_failures, initial_world. cbn.
    rewrite !lookup_empty. repeat split; done. }
  edestruct (scrapes_failing fuel url options) with (n := 5%nat) (k := 0%nat)
    as (os & w5 & Hruns & Hlen & Hall & Hinv); [done..|lia|exact Hinit|].
  edestruct (scrape_tripped fuel url options) with (w := w5)
    as (w6 & Hrun & Hout); [done..|].
  by exists os, w5, w6.
Qed.
End breaker_run_facts.

Lemma breaker_trips_after_five_failures_witness :
  ∃ os w5 w6,
    ScrapeRun.scrapes default_config Samples.slow_clock Samples.valid Samples.netloc
      Samples.to_dict Samples.dumps_empty () Samples.no_jitter Samples.headers
      Samples.overflow Samples.timing_out Samples.parse 5 1 "https://example.com" None
      (Scrape.initial_world default_config 0 ()) = Some (os, w5)
    ∧ length os = 5%nat
    ∧ Forall (λ o, ∃ e ts,
                o = Retry.Returned
                      (Scrape.ErrorResult "https://example.com" (Scrape.OpError e) ts)) os
    ∧ Scrape.scrape_webpage default_config Samples.slow_clock Samples.valid
        Samples.netloc Samples.to_dict Samples.dumps_empty () Samples.no_jitter
        Samples.headers Samples.overflow Samples.timing_out Samples.parse 1 "https://example.com"
        None w5
      = Some (Retry.Raised (Scrape.CircuitBreakerError "example.com"), w6, [])
    ∧ Scrape.outside w6 = Scrape.outside w5.
Proof.
  apply (breaker_trips_after_five_failures default_config Samples.slow_clock
           Samples.valid Samples.netloc Samples.to_dict Samples.dumps_empty ()
           Samples.no_jitter Samples.headers Samples.overflow Samples.timing_out Samples.parse
           1 "https://example.com" None 0 ()).
  - reflexivity.
  - lia.
  - by vm_compute.
  - by vm_compute.
  - intros hs n. eexists. reflexivity.
  - intros i j Hij. unfold Samples.slow_clock, timedelta_seconds. lia.
Defined.
